(** * Layout reconstruction engine of [server.py] (mode [pdf_to_excel])

    A shallow embedding of the page-layout pipeline of [convert_file] and of
    the helpers it calls ([_bbox_iou], [_cluster_positions], [_nearest_index],
    [_extract_tables_with_fallback], [_table_shape_quality],
    [_merge_fragmented_words]), followed by the properties of the design
    document checked against it.

    Modelling conventions.
    - In the model of the pipeline a Python [float] coordinate is an exact
      rational ([Q]); rounding, infinities and NaN are outside of it.  Two
      rationals are compared with [==] ([Qeq]), the equality the program's
      [<=], [<] and [==] see.  What is proved there is the structure of the
      layout, which rests on the comparisons the program makes.
    - The two numeric helpers, [_cluster_positions] and [_bbox_iou], are
      modelled a second time in module [F64], on IEEE 754 binary64 numbers
      with the rounding of every operation.  The properties of their values
      that rounding decides (order and distance of the cluster centers, the
      overlap of a box with itself) are settled on that model.
    - A Python [str] is a [string] whose characters are the code points
      below 256; [isalpha], [isspace] follow Python on that range.
    - An indexing that raises [IndexError] in Python is a [None] here, so a
      result [Some r] also says that the call returned.

    The model then covers the helpers around the engine: page selection
    ([_parse_page_spec]) with the page loops of [/api/extract], [/api/split]
    and [/api/remove-blank] on a document given as the list of its pages,
    the finishing of a sheet (column widths, [_apply_visible_borders]) and
    [_safe_name].  There a call returns [Ok v] or raises: [Raise e]. *)

From Stdlib Require Import ZArith QArith Qabs Lqa Lia.
From Stdlib Require Import List String Ascii Bool Arith DecimalString.
From Stdlib Require Import Permutation Sorted.
From Stdlib Require Import Floats.
From Stdlib Require Uint63.
Import ListNotations.

Local Open Scope Q_scope.

(** ** Python built-ins used by the pipeline *)

Module Py.

(** The error monad of an indexing that may raise. *)
Definition bind {A B : Type} (c : option A) (k : A -> option B) : option B :=
  match c with
  | Some a => k a
  | None => None
  end.

(** [l[-1]]: the last element, [IndexError] on an empty list. *)
Fixpoint last_item {A : Type} (l : list A) : option A :=
  match l with
  | [] => None
  | [x] => Some x
  | _ :: l' => last_item l'
  end.

(** [l[i]] for a non-negative [i]. *)
Definition item {A : Type} (l : list A) (i : nat) : option A := nth_error l i.

(** [max(0.0, x)] and the two-argument [max] / [min] on floats: Python
    returns the first argument unless the second is strictly better. *)
Definition max2 (x y : Q) : Q := if Qlt_le_dec x y then y else x.
Definition min2 (x y : Q) : Q := if Qlt_le_dec y x then y else x.

(** [abs(x)]. *)
Definition abs (x : Q) : Q := Qabs x.

(** Comparisons as booleans. *)
Definition leb (x y : Q) : bool := Qle_bool x y.
Definition ltb (x y : Q) : bool := negb (Qle_bool y x).

(** [x / y]: [ZeroDivisionError] when [y] is zero. *)
Definition div (x y : Q) : option Q :=
  if Qeq_bool y 0 then None else Some (x / y).

(** A list comprehension whose body may raise. *)
Fixpoint comprehension {A B : Type} (f : A -> option B) (l : list A)
  : option (list B) :=
  match l with
  | [] => Some []
  | x :: l' =>
      match f x with
      | Some y =>
          match comprehension f l' with
          | Some r => Some (y :: r)
          | None => None
          end
      | None => None
      end
  end.

(** [sum(c)] starts from the integer [0] and adds from the left. *)
Definition sum (c : list Q) : Q := fold_left Qplus c 0.

(** [len(c)] as a number. *)
Definition len {A : Type} (c : list A) : Q := inject_Z (Z.of_nat (List.length c)).

(** [str.isspace] of one character: TAB..CR, FS..US, SPACE, NEL, NBSP. *)
Definition is_space (c : ascii) : bool :=
  let n := nat_of_ascii c in
  ((9 <=? n) && (n <=? 13) || (28 <=? n) && (n <=? 32)
   || (n =? 133) || (n =? 160))%nat.

(** Alphabetic characters (letter categories of Unicode) below 256. *)
Definition is_alpha (c : ascii) : bool :=
  let n := nat_of_ascii c in
  ((65 <=? n) && (n <=? 90) || (97 <=? n) && (n <=? 122)
   || (n =? 170) || (n =? 181) || (n =? 186)
   || (192 <=? n) && (n <=? 214) || (216 <=? n) && (n <=? 246)
   || (248 <=? n) && (n <=? 255))%nat.

Fixpoint all_chars (p : ascii -> bool) (s : string) : bool :=
  match s with
  | EmptyString => true
  | String c s' => p c && all_chars p s'
  end.

(** [s.isalpha()]: at least one character and all of them alphabetic. *)
Definition isalpha (s : string) : bool :=
  match s with
  | EmptyString => false
  | _ => all_chars is_alpha s
  end.

(** [s.lstrip()], [s.rstrip()], [s.strip()]. *)
Fixpoint lstrip (s : string) : string :=
  match s with
  | EmptyString => EmptyString
  | String c s' => if is_space c then lstrip s' else s
  end.

Fixpoint rstrip (s : string) : string :=
  match s with
  | EmptyString => EmptyString
  | String c s' =>
      match rstrip s' with
      | EmptyString => if is_space c then EmptyString else String c EmptyString
      | r => String c r
      end
  end.

Definition strip (s : string) : string := rstrip (lstrip s).

(** [list.sort(key=...)] and [sorted]: a stable sort; the element that comes
    first in the input stays first among equal keys. *)
Section Sort.
Context {A : Type} (key : A -> Q).

Fixpoint insert (x : A) (l : list A) : list A :=
  match l with
  | [] => [x]
  | y :: l' => if leb (key x) (key y) then x :: l else y :: insert x l'
  end.

Definition sort (l : list A) : list A := fold_right insert [] l.
End Sort.

Definition sorted (l : list Q) : list Q := sort (fun v => v) l.

End Py.

Notation "x <- c ;; k" := (Py.bind c (fun x => k))
  (at level 61, c at next level, right associativity).

(** ** Geometry utilities *)

Definition BBox : Type := (Q * Q * Q * Q)%type.

(** [_bbox_iou] *)
Definition _bbox_iou (a b : BBox) : Q :=
  let '(ax0, ay0, ax1, ay1) := a in
  let '(bx0, by0, bx1, by1) := b in
  let ix0 := Py.max2 ax0 bx0 in
  let iy0 := Py.max2 ay0 by0 in
  let ix1 := Py.min2 ax1 bx1 in
  let iy1 := Py.min2 ay1 by1 in
  let iw := Py.max2 0 (ix1 - ix0) in
  let ih := Py.max2 0 (iy1 - iy0) in
  let inter := iw * ih in
  if Py.leb inter 0 then 0
  else
    let area_a := Py.max2 0 ((ax1 - ax0) * (ay1 - ay0)) in
    let area_b := Py.max2 0 ((bx1 - bx0) * (by1 - by0)) in
    let union := area_a + area_b - inter in
    if Py.ltb 0 union then inter / union else 0.

(** [_cluster_positions] *)
Definition cluster_append (tolerance : Q) (clusters : list (list Q)) (v : Q)
  : option (list (list Q)) :=
  cur <- Py.last_item clusters ;;
  lastv <- Py.last_item cur ;;
  if Py.leb (Py.abs (v - lastv)) tolerance
  then Some (removelast clusters ++ [cur ++ [v]])
  else Some (clusters ++ [[v]]).

Fixpoint cluster_loop (tolerance : Q) (clusters : list (list Q)) (vs : list Q)
  : option (list (list Q)) :=
  match vs with
  | [] => Some clusters
  | v :: vs' =>
      clusters' <- cluster_append tolerance clusters v ;;
      cluster_loop tolerance clusters' vs'
  end.

Definition mean (c : list Q) : option Q := Py.div (Py.sum c) (Py.len c).

(** The value of [clusters] when [_cluster_positions] reaches its [return]
    (no cluster at all on the early return). *)
Definition position_clusters (values : list Q) (tolerance : Q)
  : option (list (list Q)) :=
  match values with
  | [] => Some []
  | _ =>
      match Py.sorted values with
      | [] => None
      | v0 :: rest => cluster_loop tolerance [[v0]] rest
      end
  end.

Definition _cluster_positions (values : list Q) (tolerance : Q) : option (list Q) :=
  match values with
  | [] => Some []
  | _ =>
      match Py.sorted values with
      | [] => None
      | v0 :: rest =>
          clusters <- cluster_loop tolerance [[v0]] rest ;;
          Py.comprehension mean clusters
      end
  end.

(** [_nearest_index] *)
Fixpoint nearest_loop (value : Q) (rest : list Q) (i best_idx : nat) (best_dist : Q)
  : nat :=
  match rest with
  | [] => best_idx
  | c :: rest' =>
      let d := Py.abs (value - c) in
      if Py.ltb d best_dist
      then nearest_loop value rest' (S i) i d
      else nearest_loop value rest' (S i) best_idx best_dist
  end.

Definition _nearest_index (value : Q) (centers : list Q) : nat :=
  match centers with
  | [] => 0%nat
  | c0 :: rest => nearest_loop value rest 1 0 (Py.abs (value - c0))
  end.

(** ** Table detection and de-duplication *)

(** A cell of an extracted grid: [None] or a string. *)
Definition Cell : Type := option string.
Definition Grid : Type := list (list Cell).

(** A table object of the detection library: its [bbox] and what
    [extract()] returns ([None] stands for a falsy result). *)
Record Table : Type := mkTable {
  bbox : BBox;
  extract : option Grid
}.

(** The two detection strategies of [configs], in order. *)
Inductive Strategy : Type := RuledLines | TextAlignment.

Definition configs : list Strategy := [RuledLines; TextAlignment].

(** A word tuple of [page.get_text("words")]: [(x0, y0, x1, y1, text, ...)]. *)
Record RawWord : Type := mkRawWord {
  rx0 : Q; ry0 : Q; rx1 : Q; ry1 : Q; rtext : string
}.

(** What the page gives the engine.  [find_tables cfg] is [None] when the
    call raises or returns a falsy finder. *)
Record Page : Type := mkPage {
  find_tables : Strategy -> option (list Table);
  get_words : list RawWord
}.

Definition dedup_threshold : Q := 3 # 4.

Definition duplicate (b : BBox) (seen_bboxes : list BBox) : bool :=
  existsb (fun sb => Py.ltb dedup_threshold (_bbox_iou b sb)) seen_bboxes.

(** One turn of the inner loop of [_extract_tables_with_fallback] on the
    state [(found, seen_bboxes)]. *)
Definition dedup_table (st : list Table * list BBox) (t : Table)
  : list Table * list BBox :=
  let '(found, seen_bboxes) := st in
  if duplicate (bbox t) seen_bboxes then st
  else (found ++ [t], seen_bboxes ++ [bbox t]).

Definition strategy_tables (page : Page) (cfg : Strategy) : list Table :=
  match find_tables page cfg with
  | Some tables => tables
  | None => []
  end.

Definition dedup_strategy (page : Page) (st : list Table * list BBox) (cfg : Strategy)
  : list Table * list BBox :=
  fold_left dedup_table (strategy_tables page cfg) st.

Definition _extract_tables_with_fallback (page : Page) : list Table :=
  fst (fold_left (dedup_strategy page) configs ([], [])).

(** [_table_shape_quality] *)
Definition cell_non_empty (c : Cell) : bool :=
  match c with
  | Some s => negb (String.eqb (Py.strip s) "")
  | None => false
  end.

Definition _table_shape_quality (data : Grid) : nat * nat * nat :=
  let rows := List.length data in
  let cols := fold_left Nat.max (map (@List.length Cell) data) 0%nat in
  let non_empty :=
    fold_left (fun n r => fold_left (fun n c => if cell_non_empty c then S n else n) r n)
              data 0%nat in
  (rows, cols, non_empty).

(** ** Word fragment merger *)

(** A free word as [convert_file] stores it. *)
Record Span : Type := mkSpan {
  x0 : Q; x1 : Q; y0 : Q; text : string
}.

Definition fragment_gap : Q := 12.

Definition should_merge (prev w : Span) : bool :=
  Py.leb (x0 w - x1 prev) fragment_gap
  && ((String.length (text prev) <=? 3)%nat
      || (String.length (text w) <=? 3)%nat
      || (Py.isalpha (text prev) && Py.isalpha (text w))).

Definition joiner (prev w : Span) : string :=
  if Py.isalpha (text prev) && Py.isalpha (text w) then "" else " ".

(** The in-place update of [prev] on a merge. *)
Definition absorb (prev w : Span) : Span :=
  {| x0 := x0 prev;
     x1 := x1 w;
     y0 := y0 prev;
     text := Py.strip (text prev ++ joiner prev w ++ text w) |}.

Definition merge_word (merged : list Span) (w : Span) : option (list Span) :=
  prev <- Py.last_item merged ;;
  if should_merge prev w
  then Some (removelast merged ++ [absorb prev w])
  else Some (merged ++ [w]).

Fixpoint merge_loop (merged : list Span) (ws : list Span) : option (list Span) :=
  match ws with
  | [] => Some merged
  | w :: ws' =>
      merged' <- merge_word merged w ;;
      merge_loop merged' ws'
  end.

Definition _merge_fragmented_words (words : list Span) : option (list Span) :=
  match words with
  | [] => Some words
  | w0 :: rest => merge_loop [w0] rest
  end.

(** ** Layout composer (the per-page body of [convert_file]) *)

(** A retained table: [{"bbox": ..., "data": ...}]. *)
Record TableObj : Type := mkTableObj {
  tbbox : BBox;
  data : Grid
}.

Definition table_data (t : Table) : Grid :=
  match extract t with
  | Some d => d
  | None => []
  end.

(** The test that lets a detection through the shape filter. *)
Definition shape_ok (d : Grid) : bool :=
  let '(rows, cols, non_empty) := _table_shape_quality d in
  negb ((rows <? 2)%nat || (cols <? 2)%nat || (non_empty <? 4)%nat).

Fixpoint retain_tables (raw_tables : list Table) : list TableObj :=
  match raw_tables with
  | [] => []
  | t :: ts =>
      let d := table_data t in
      if shape_ok d
      then {| tbbox := bbox t; data := d |} :: retain_tables ts
      else retain_tables ts
  end.

Definition table_margin : Q := 1.

Definition in_region (x y : Q) (b : BBox) : bool :=
  let '(bx0, by0, bx1, by1) := b in
  Py.leb (bx0 - table_margin) x && Py.leb x (bx1 + table_margin)
  && Py.leb (by0 - table_margin) y && Py.leb y (by1 + table_margin).

(** [_inside_table], with the captured [table_bboxes] made a parameter. *)
Definition _inside_table (table_bboxes : list BBox) (x y : Q) : bool :=
  existsb (in_region x y) table_bboxes.

Definition center (w : RawWord) : Q * Q :=
  ((rx0 w + rx1 w) / 2, (ry0 w + ry1 w) / 2).

Fixpoint free_words_of (table_bboxes : list BBox) (words : list RawWord) : list Span :=
  match words with
  | [] => []
  | w :: ws =>
      let txt := Py.strip (rtext w) in
      if String.eqb txt "" then free_words_of table_bboxes ws
      else
        let '(cx, cy) := center w in
        if _inside_table table_bboxes cx cy then free_words_of table_bboxes ws
        else {| x0 := rx0 w; x1 := rx1 w; y0 := ry0 w; text := txt |}
             :: free_words_of table_bboxes ws
  end.

(** [lines_map.setdefault(ridx, []).append(w)] on a dict kept in insertion
    order. *)
Fixpoint setdefault_append (ridx : nat) (w : Span) (lines_map : list (nat * list Span))
  : list (nat * list Span) :=
  match lines_map with
  | [] => [(ridx, [w])]
  | (k, ws) :: m =>
      if (k =? ridx)%nat then (k, ws ++ [w]) :: m
      else (k, ws) :: setdefault_append ridx w m
  end.

Definition build_lines_map (y_centers : list Q) (free_words : list Span)
  : list (nat * list Span) :=
  fold_left (fun m w => setdefault_append (_nearest_index (y0 w) y_centers) w m)
            free_words [].

Inductive Element : Type :=
| TableEl (y : Q) (table : TableObj)
| LineEl (y : Q) (spans : list Span).

Definition el_y (e : Element) : Q :=
  match e with
  | TableEl y _ => y
  | LineEl y _ => y
  end.

Definition table_element (t : TableObj) : Element :=
  let '(_, by0, _, _) := tbbox t in TableEl by0 t.

Definition line_element (y_centers : list Q) (entry : nat * list Span)
  : option Element :=
  let '(ridx, line_words) := entry in
  let line_words := Py.sort x0 line_words in
  line_words <- _merge_fragmented_words line_words ;;
  y <- Py.item y_centers ridx ;;
  Some (LineEl y line_words).

(** The literal [3.2] of the call: the binary64 number nearest to it. *)
Definition line_tolerance : Q := 3602879701896397 # 1125899906842624.

Definition line_elements (free_words : list Span) : option (list Element) :=
  match free_words with
  | [] => Some []
  | _ =>
      y_centers <- _cluster_positions (map y0 free_words) line_tolerance ;;
      Py.comprehension (line_element y_centers) (build_lines_map y_centers free_words)
  end.

Definition retained_tables (page : Page) : list TableObj :=
  retain_tables (_extract_tables_with_fallback page).

Definition page_free_words (page : Page) : list Span :=
  free_words_of (map tbbox (retained_tables page)) (get_words page).

(** The page's [elements] after [elements.sort(key=lambda e: e["y"])]. *)
Definition page_elements (page : Page) : option (list Element) :=
  lines <- line_elements (page_free_words page) ;;
  Some (Py.sort el_y (map table_element (retained_tables page) ++ lines)).

(** ** Grid writer *)

(** One [ws.cell(row, column, value)] with the font weight it is given. *)
Record CellWrite : Type := mkCell {
  row : nat; column : nat; value : Cell; bold : bool
}.

Definition Sheet : Type := list CellWrite.

Definition sentinel : string := "No extractable text found on this page.".

Definition column_gap : Q := 80.

Fixpoint write_spans (row_cursor col : nat) (spans : list Span) : Sheet :=
  match spans with
  | [] => []
  | sp :: rest =>
      let cell := {| row := row_cursor; column := col;
                     value := Some (text sp); bold := false |} in
      let col := S col in
      let col :=
        match rest with
        | next :: _ => if Py.ltb column_gap (x0 next - x1 sp) then S col else col
        | [] => col
        end in
      cell :: write_spans row_cursor col rest
  end.

Definition cell_value (raw_val : Cell) : Cell :=
  match raw_val with
  | Some s => Some (Py.strip s)
  | None => None
  end.

Fixpoint write_row (r cidx : nat) (header : bool) (row_vals : list Cell) : Sheet :=
  match row_vals with
  | [] => []
  | raw_val :: rest =>
      {| row := r; column := cidx; value := cell_value raw_val; bold := header |}
      :: write_row r (S cidx) header rest
  end.

Fixpoint write_grid (row_cursor ridx : nat) (d : Grid) : Sheet :=
  match d with
  | [] => []
  | row_vals :: rest =>
      write_row (row_cursor + ridx) 1 (ridx =? 0)%nat row_vals
      ++ write_grid row_cursor (S ridx) rest
  end.

Fixpoint write_elements (row_cursor : nat) (elements : list Element) : Sheet :=
  match elements with
  | [] => []
  | LineEl _ spans :: rest =>
      write_spans row_cursor 1 spans ++ write_elements (row_cursor + 1) rest
  | TableEl _ t :: rest =>
      write_grid row_cursor 0 (data t)
      ++ write_elements (row_cursor + (Nat.max 1 (List.length (data t)) + 1)) rest
  end.

Definition write_sheet (elements : list Element) : Sheet :=
  match elements with
  | [] => [{| row := 1; column := 1; value := Some sentinel; bold := false |}]
  | _ => write_elements 1 elements
  end.

(** The cells that the processing of a page writes on the sheet
    [Page_{idx+1}], in order, when the worksheet takes every value; [None]
    if the composition of the page raises. *)
Definition convert_page (page : Page) : option Sheet :=
  elements <- page_elements page ;;
  Some (write_sheet elements).

(** [ws.cell(row, column, value)] raises when the worksheet refuses the text
    it is given (openpyxl raises [IllegalCharacterError] on a text that holds
    a control character).  Which texts are refused is the library's matter:
    a parameter here. *)
Section CellValues.

Variable refuses : string -> bool.

Definition accepts (c : CellWrite) : bool :=
  match value c with
  | Some s => negb (refuses s)
  | None => true
  end.

(** The sheet [Page_{idx+1}] when the processing of the page is over, or
    [None] if it raises: a refused value ends it with the exception. *)
Definition page_sheet (page : Page) : option Sheet :=
  cells <- convert_page page ;;
  if forallb accepts cells then Some cells else None.

End CellValues.

(** ** Page selection and splitting ([_parse_page_spec], [/api/extract],
       [/api/split]) *)

(** What a call can raise. *)
Inductive Failure : Type :=
| HTTPException (status_code : nat) (detail : string)
| ValueError
| IndexError.

(** A call returns a value or raises. *)
Inductive outcome (A : Type) : Type :=
| Ok (a : A)
| Raise (e : Failure).

Arguments Ok {A} a.
Arguments Raise {A} e.

Definition and_then {A B : Type} (c : outcome A) (k : A -> outcome B) : outcome B :=
  match c with
  | Ok a => k a
  | Raise e => Raise e
  end.

Notation "x <~ c ;; k" := (and_then c (fun x => k))
  (at level 61, c at next level, right associativity).

Module PyStr.

(** [s.split(sep)] for a one-character separator: always at least one
    piece. *)
Fixpoint split (sep : ascii) (s : string) : list string :=
  match s with
  | EmptyString => [EmptyString]
  | String c s' =>
      if Ascii.eqb c sep then EmptyString :: split sep s'
      else
        match split sep s' with
        | [] => [String c EmptyString]
        | p :: ps => String c p :: ps
        end
  end.

(** [sep in s]. *)
Fixpoint contains (sep : ascii) (s : string) : bool :=
  match s with
  | EmptyString => false
  | String c s' => Ascii.eqb c sep || contains sep s'
  end.

(** [s.split(sep, 1)]: cut at the first separator, if there is one. *)
Fixpoint split_once (sep : ascii) (s : string) : list string :=
  match s with
  | EmptyString => [EmptyString]
  | String c s' =>
      if Ascii.eqb c sep then [EmptyString; s']
      else
        match split_once sep s' with
        | p :: ps => String c p :: ps
        | [] => [String c EmptyString]
        end
  end.

(** The characters of [str.isdigit] below 256: the decimal digits and the
    superscripts two, three and one. *)
Definition is_decimal (c : ascii) : bool :=
  let n := nat_of_ascii c in ((48 <=? n) && (n <=? 57))%nat.

Definition is_digit (c : ascii) : bool :=
  let n := nat_of_ascii c in
  (is_decimal c || (n =? 178) || (n =? 179) || (n =? 185))%nat.

(** [s.isdigit()]: at least one character and all of them digits. *)
Definition isdigit (s : string) : bool :=
  match s with
  | EmptyString => false
  | _ => Py.all_chars is_digit s
  end.

(** The number written by a string of decimal digits. *)
Definition decimal_value (s : string) : nat :=
  fold_left (fun acc c => (10 * acc + (nat_of_ascii c - 48))%nat)
            (list_ascii_of_string s) 0%nat.

(** [str(n)] for an integer that is not negative. *)
Definition of_int (n : nat) : string := NilEmpty.string_of_uint (Nat.to_uint n).

(** [s.strip(chars)]: drops the characters of [chars] at both ends. *)
Fixpoint lstrip_chars (chars : ascii -> bool) (s : string) : string :=
  match s with
  | EmptyString => EmptyString
  | String c s' => if chars c then lstrip_chars chars s' else s
  end.

Fixpoint rstrip_chars (chars : ascii -> bool) (s : string) : string :=
  match s with
  | EmptyString => EmptyString
  | String c s' =>
      match rstrip_chars chars s' with
      | EmptyString => if chars c then EmptyString else String c EmptyString
      | r => String c r
      end
  end.

Definition strip_chars (chars : ascii -> bool) (s : string) : string :=
  rstrip_chars chars (lstrip_chars chars s).

End PyStr.

(** A [set] of integers, and [sorted] of it. *)
Definition set_add (x : nat) (s : list nat) : list nat :=
  if existsb (Nat.eqb x) s then s else s ++ [x].

Fixpoint insert_int (x : nat) (l : list nat) : list nat :=
  match l with
  | [] => [x]
  | y :: l' => if (x <=? y)%nat then x :: l else y :: insert_int x l'
  end.

Definition sorted_ints (s : list nat) : list nat := fold_right insert_int [] s.

(** [range(start, stop, step)] for a positive step; [stop] turns of the loop
    are enough. *)
Fixpoint range_loop (turns start stop step : nat) : list nat :=
  match turns with
  | O => []
  | S turns' =>
      if (start <? stop)%nat then start :: range_loop turns' (start + step) stop step
      else []
  end.

Definition range_step (start stop step : nat) : list nat :=
  range_loop stop start stop step.

Section PageSpec.

(** [int(s)] refuses a string of digits that is longer than the
    interpreter's limit for integer conversion; the limit is whatever the
    interpreter is set to. *)
Variable exceeds_digit_limit : string -> bool.

(** [int(s)] on a string for which [isdigit] holds. *)
Definition int_of (s : string) : outcome nat :=
  if Py.all_chars PyStr.is_decimal s && negb (exceeds_digit_limit s)
  then Ok (PyStr.decimal_value s)
  else Raise ValueError.

Definition out_of_range (p total_pages : nat) : bool :=
  ((p <? 1) || (total_pages <? p))%nat.

Definition page_out_of_range (p : nat) : Failure :=
  HTTPException 400 ("Page hors limite: " ++ PyStr.of_int p).

(** The loop [for p in range(a, b + 1)] on the set [result]. *)
Fixpoint add_pages (total_pages : nat) (ps : list nat) (result : list nat)
  : outcome (list nat) :=
  match ps with
  | [] => Ok result
  | p :: ps' =>
      if out_of_range p total_pages then Raise (page_out_of_range p)
      else add_pages total_pages ps' (set_add (p - 1) result)
  end.

(** One turn of the loop over the chunks. *)
Definition add_chunk (total_pages : nat) (chunk : string) (result : list nat)
  : outcome (list nat) :=
  if PyStr.contains "-" chunk then
    match map Py.strip (PyStr.split_once "-" chunk) with
    | [a_str; b_str] =>
        if negb (PyStr.isdigit a_str && PyStr.isdigit b_str)
        then Raise (HTTPException 400 ("Intervalle invalide: " ++ chunk))
        else
          a <~ int_of a_str ;;
          b <~ int_of b_str ;;
          let '(a, b) := if (b <? a)%nat then (b, a) else (a, b) in
          add_pages total_pages (seq a (b + 1 - a)) result
    | _ => Raise ValueError
    end
  else
    if negb (PyStr.isdigit chunk)
    then Raise (HTTPException 400 ("Page invalide: " ++ chunk))
    else
      p <~ int_of chunk ;;
      if out_of_range p total_pages then Raise (page_out_of_range p)
      else Ok (set_add (p - 1) result).

Fixpoint add_chunks (total_pages : nat) (chunks : list string) (result : list nat)
  : outcome (list nat) :=
  match chunks with
  | [] => Ok result
  | chunk :: rest =>
      result' <~ add_chunk total_pages chunk result ;;
      add_chunks total_pages rest result'
  end.

(** [[p.strip() for p in spec.split(",") if p.strip()]] *)
Definition spec_chunks (spec : string) : list string :=
  filter (fun p => negb (String.eqb p ""))
         (map Py.strip (PyStr.split "," spec)).

Definition _parse_page_spec (spec : string) (total_pages : nat) : outcome (list nat) :=
  match spec_chunks spec with
  | [] => Raise (HTTPException 400 "Spec de pages vide.")
  | chunks =>
      result <~ add_chunks total_pages chunks [] ;;
      Ok (sorted_ints result)
  end.

(** The pages that [/api/extract] writes, for a document given as the list
    of its pages. *)
Fixpoint pages_at {A : Type} (doc : list A) (indices : list nat) : outcome (list A) :=
  match indices with
  | [] => Ok []
  | i :: rest =>
      match nth_error doc i with
      | Some page =>
          more <~ pages_at doc rest ;;
          Ok (page :: more)
      | None => Raise IndexError
      end
  end.

Definition extract_pages {A : Type} (doc : list A) (pages : string) : outcome (list A) :=
  indices <~ _parse_page_spec pages (List.length doc) ;;
  pages_at doc indices.

End PageSpec.

(** The parts that [/api/split] writes: the number in the part's name and its
    pages. *)
Fixpoint split_parts_from {A : Type} (doc : list A) (chunk_size : nat)
  (starts : list nat) (part_idx : nat) : outcome (list (nat * list A)) :=
  match starts with
  | [] => Ok []
  | start :: rest =>
      let stop := Nat.min (start + chunk_size) (List.length doc) in
      part <~ pages_at doc (seq start (stop - start)) ;;
      more <~ split_parts_from doc chunk_size rest (S part_idx) ;;
      Ok ((part_idx, part) :: more)
  end.

Definition split_pdf {A : Type} (doc : list A) (chunk_size : Z)
  : outcome (list (nat * list A)) :=
  if (chunk_size <? 1)%Z
  then Raise (HTTPException 400 "chunk_size doit etre >= 1")
  else
    let step := Z.to_nat chunk_size in
    split_parts_from doc step (range_step 0 (List.length doc) step) 1.

(** ** Finishing a sheet (column widths and [_apply_visible_borders]) *)

(** What the finishing steps read of a worksheet: its extent and the value
    of a cell ([None] for a cell without value). *)
Record Worksheet : Type := mkWorksheet {
  ws_max_row : nat;
  ws_max_column : nat;
  ws_value : nat -> nat -> Cell
}.

(** The running bounds of [_apply_visible_borders]. *)
Record Bounds : Type := mkBounds {
  min_row : option nat;
  max_row : nat;
  min_col : option nat;
  max_col : nat
}.

Definition grow (o : option nat) (n : nat) : option nat :=
  match o with
  | None => Some n
  | Some m => Some (Nat.min m n)
  end.

Definition scan_cell (ws : Worksheet) (r : nat) (b : Bounds) (c : nat) : Bounds :=
  if cell_non_empty (ws_value ws r c)
  then {| min_row := grow (min_row b) r;
          max_row := Nat.max (max_row b) r;
          min_col := grow (min_col b) c;
          max_col := Nat.max (max_col b) c |}
  else b.

Definition scan_row (ws : Worksheet) (b : Bounds) (r : nat) : Bounds :=
  fold_left (scan_cell ws r) (seq 1 (ws_max_column ws)) b.

Definition scan_sheet (ws : Worksheet) : Bounds :=
  fold_left (scan_row ws) (seq 1 (ws_max_row ws))
            {| min_row := None; max_row := 0; min_col := None; max_col := 0 |}.

(** [_apply_visible_borders]: the cells that are given a border, in the
    order of the loop. *)
Definition _apply_visible_borders (ws : Worksheet) : list (nat * nat) :=
  let b := scan_sheet ws in
  match min_row b, min_col b with
  | Some r0, Some c0 =>
      flat_map (fun r => map (fun c => (r, c)) (seq c0 (max_col b + 1 - c0)))
               (seq r0 (max_row b + 1 - r0))
  | _, _ => []
  end.

(** The longest value, in characters, of column [c] in the rows [rows]. *)
Definition longest_value (ws : Worksheet) (c : nat) (rows : list nat) : nat :=
  fold_left (fun mx r =>
               match ws_value ws r c with
               | None => mx
               | Some v => let ln := String.length v in if (mx <? ln)%nat then ln else mx
               end)
            rows 0%nat.

(** The width given to column [c]: [min(50, max(10, mx * 0.95))]. *)
Definition column_width (ws : Worksheet) (c : nat) : Q :=
  let mx := longest_value ws c (seq 1 (Nat.min (ws_max_row ws) 4000)) in
  Py.min2 50 (Py.max2 10 (inject_Z (Z.of_nat mx) * (95 # 100))).

(** The widths set by the autofit loop, column by column. *)
Definition autofit_widths (ws : Worksheet) : list (nat * Q) :=
  map (fun c => (c, column_width ws c)) (seq 1 (Nat.min (ws_max_column ws) 60)).

(** ** File names ([_safe_name]) *)

(** The characters that the pattern [[^a-zA-Z0-9_.-]+] leaves alone. *)
Definition name_char (c : ascii) : bool :=
  let n := nat_of_ascii c in
  ((97 <=? n) && (n <=? 122) || (65 <=? n) && (n <=? 90) || (48 <=? n) && (n <=? 57)
   || (n =? 95) || (n =? 46) || (n =? 45))%nat.

(** [re.sub(r"[^a-zA-Z0-9_.-]+", "_", s)]: each run of other characters
    becomes one underscore; [in_run] tells that the run has begun. *)
Fixpoint sub_runs (in_run : bool) (s : string) : string :=
  match s with
  | EmptyString => EmptyString
  | String c s' =>
      if name_char c then String c (sub_runs false s')
      else if in_run then sub_runs true s'
      else String "_" (sub_runs true s')
  end.

Definition dot_or_underscore (c : ascii) : bool :=
  (Ascii.eqb c "." || Ascii.eqb c "_")%bool.

Section SafeName.

(** [Path(name).stem], which depends on the platform's path syntax. *)
Variable path_stem : string -> string.

Definition _safe_name (name fallback : string) : string :=
  let base := if String.eqb name "" then fallback else path_stem name in
  let cleaned := PyStr.strip_chars dot_or_underscore (sub_runs false base) in
  if String.eqb cleaned "" then fallback else cleaned.

End SafeName.

(** ** Blank pages ([_page_content_size], [_is_blank_page],
       [/api/remove-blank]) *)

(** What [page.get_contents()] returns; the size of a stream is [None] when
    [get_data()] raises. *)
Inductive Contents : Type :=
| NoContents
| ContentArray (items : list (option nat))
| ContentStream (size : option nat).

(** What the blank-page test reads of a page; [None] stands for a call that
    raises. *)
Record PdfPage : Type := mkPdfPage {
  extract_text : option (option string);
  has_annots : bool;
  image_count : option nat;
  get_contents : option Contents
}.

Definition _page_content_size (page : PdfPage) : nat :=
  match get_contents page with
  | None => 0%nat
  | Some NoContents => 0%nat
  | Some (ContentArray items) =>
      fold_left (fun total item =>
                   match item with
                   | Some n => (total + n)%nat
                   | None => total
                   end)
                items 0%nat
  | Some (ContentStream (Some n)) => n
  | Some (ContentStream None) => 0%nat
  end.

Definition _is_blank_page (page : PdfPage) (content_threshold : Z) : bool :=
  let text :=
    match extract_text page with
    | Some (Some t) => Py.strip t
    | Some None => EmptyString
    | None => EmptyString
    end in
  let has_images :=
    match image_count page with
    | Some n => (0 <? n)%nat
    | None => false
    end in
  let content_size := _page_content_size page in
  String.eqb text "" && negb (has_annots page) && negb has_images
  && (Z.of_nat content_size <=? content_threshold)%Z.

Definition remove_blank_pages (doc : list PdfPage) (content_threshold : Z)
  : outcome (list PdfPage) :=
  if (content_threshold <? 0)%Z
  then Raise (HTTPException 400 "content_threshold doit etre >= 0.")
  else
    let kept := filter (fun page => negb (_is_blank_page page content_threshold)) doc in
    if (List.length kept =? 0)%nat
    then Raise (HTTPException 400 "Toutes les pages ont ete detectees comme blanches.")
    else Ok kept.

(** ** Vocabulary of the design document *)

(** *** Order and stability of a sort by key *)

Definition key_le {A : Type} (key : A -> Q) (a b : A) : Prop := key a <= key b.

(** The elements whose key is the number [v]. *)
Definition has_key {A : Type} (key : A -> Q) (v : Q) (a : A) : bool :=
  Qeq_bool (key a) v.

(** *** Boxes *)

Definition width (a : BBox) : Q := let '(ax0, _, ax1, _) := a in ax1 - ax0.
Definition height (a : BBox) : Q := let '(_, ay0, _, ay1) := a in ay1 - ay0.
Definition area (a : BBox) : Q := width a * height a.

Definition non_degenerate (a : BBox) : Prop := 0 < width a /\ 0 < height a.

(** Two boxes overlap when their open extents meet on both axes. *)
Definition overlaps (a b : BBox) : Prop :=
  let '(ax0, ay0, ax1, ay1) := a in
  let '(bx0, by0, bx1, by1) := b in
  ax0 < bx1 /\ bx0 < ax1 /\ ay0 < by1 /\ by0 < ay1.

(** The clamped length of the common part of [[a0, a1]] and [[b0, b1]]. *)
Definition span_overlap (a0 a1 b0 b1 : Q) : Q :=
  Py.max2 0 (Py.min2 a1 b1 - Py.max2 a0 b0).

(** *** Reference clustering ([cluster_1d] of the design document) *)

Definition arithmetic_mean (c : list Q) : Q := Py.sum c / Py.len c.

(** Greedy chaining over ascending values: [cur] is the cluster being built
    and [lastv] the value accepted last. *)
Fixpoint greedy_chain (tolerance : Q) (cur : list Q) (lastv : Q) (rest : list Q)
  : list (list Q) :=
  match rest with
  | [] => [cur]
  | v :: rest' =>
      if Qlt_le_dec tolerance (Qabs (v - lastv))
      then cur :: greedy_chain tolerance [v] v rest'
      else greedy_chain tolerance (cur ++ [v]) v rest'
  end.

Definition cluster_1d (values : list Q) (tolerance : Q) : list Q :=
  match Py.sorted values with
  | [] => []
  | v0 :: rest => map arithmetic_mean (greedy_chain tolerance [v0] v0 rest)
  end.

Definition ascending (l : list Q) : Prop := Sorted Qle l.

(** Neighbouring centers are further apart than the tolerance. *)
Fixpoint separated (tolerance : Q) (ms : list Q) : Prop :=
  match ms with
  | m :: ((m' :: _) as ms') => m <= m' /\ tolerance < m' - m /\ separated tolerance ms'
  | _ => True
  end.

(** *** Table candidates *)

(** The candidates of a page in strategy order; a strategy that fails
    contributes none. *)
Definition candidates (page : Page) : list Table :=
  List.concat (map (strategy_tables page) configs).

(** The candidates accepted by the de-duplication of a candidate sequence. *)
Definition accepted (cands : list Table) : list Table :=
  fst (fold_left dedup_table cands ([], [])).

(** [c] is a near-duplicate of one of [earlier]. *)
Definition near_duplicate (c : Table) (earlier : list Table) : Prop :=
  Exists (fun s => dedup_threshold < _bbox_iou (bbox c) (bbox s)) earlier.

Definition grid_rows (d : Grid) : nat := List.length d.
Definition grid_cols (d : Grid) : nat := list_max (map (@List.length Cell) d).
Definition grid_non_empty (d : Grid) : nat :=
  List.length (filter cell_non_empty (List.concat d)).

Definition shape_kept (d : Grid) : bool :=
  ((2 <=? grid_rows d) && (2 <=? grid_cols d) && (4 <=? grid_non_empty d))%nat.

Definition table_obj (t : Table) : TableObj :=
  {| tbbox := bbox t; data := table_data t |}.

(** *** Fragment merging *)

(** A text that [strip] leaves unchanged: no white space at either end. *)
Definition tidy (s : string) : Prop := Py.strip s = s.

(** The merge test in the words of the design document. *)
Definition merge_condition (prev w : Span) : Prop :=
  x0 w - x1 prev <= 12
  /\ ((String.length (text prev) <= 3)%nat
      \/ (String.length (text w) <= 3)%nat
      \/ (Py.isalpha (text prev) = true /\ Py.isalpha (text w) = true)).

(** The separator of the merge rule. *)
Definition separator (prev w : Span) : string :=
  if Py.isalpha (text prev) && Py.isalpha (text w) then "" else " ".

(** The token that stands for [prev] and [w] after a merge. *)
Definition joined (prev w : Span) : Span :=
  {| x0 := x0 prev;
     x1 := x1 w;
     y0 := y0 prev;
     text := text prev ++ separator prev w ++ text w |}.

(** The single left-to-right pass: [prev] is the token being built. *)
Fixpoint merge_from (prev : Span) (ws : list Span) : list Span :=
  match ws with
  | [] => [prev]
  | w :: ws' =>
      if should_merge prev w then merge_from (absorb prev w) ws'
      else prev :: merge_from w ws'
  end.

(** The texts of a token list, concatenated in order. *)
Fixpoint texts (ws : list Span) : string :=
  match ws with
  | [] => ""
  | w :: ws' => text w ++ texts ws'
  end.

(** [separated_copy out inp]: [out] is [inp] with single-space separators
    inserted, every character of [inp] kept in order. *)
Inductive separated_copy : string -> string -> Prop :=
| copy_end : separated_copy "" ""
| copy_char (c : ascii) (out inp : string) :
    separated_copy out inp -> separated_copy (String c out) (String c inp)
| copy_separator (out inp : string) :
    separated_copy out inp -> separated_copy (String " " out) inp.

(** The characters of a text that are not white space. *)
Fixpoint visible (s : string) : string :=
  match s with
  | EmptyString => EmptyString
  | String c s' => if Py.is_space c then visible s' else String c (visible s')
  end.

(** What the conservation property of the merger asks of one input. *)
Definition merger_conserves (ws : list Span) : Prop :=
  exists out,
    _merge_fragmented_words ws = Some out
    /\ (List.length out <= List.length ws)%nat
    /\ separated_copy (texts out) (texts ws).

(** *** Tokens, lines and table regions of a page *)

(** The free word the composer makes of a token. *)
Definition span_of (w : RawWord) : Span :=
  {| x0 := rx0 w; x1 := rx1 w; y0 := ry0 w; text := Py.strip (rtext w) |}.

(** A token whose text is empty once stripped. *)
Definition blank (w : RawWord) : bool := String.eqb (Py.strip (rtext w)) "".

Definition visible_tokens (words : list RawWord) : list RawWord :=
  filter (fun w => negb (blank w)) words.

(** The exclusion regions of a page: the boxes of its retained tables, each
    taken with the 1-unit margin by [in_region]. *)
Definition page_regions (page : Page) : list BBox := map tbbox (retained_tables page).

Definition center_in (b : BBox) (w : RawWord) : bool :=
  let '(cx, cy) := center w in in_region cx cy b.

(** The regions that contain the center of a token. *)
Definition regions_containing (regions : list BBox) (w : RawWord) : list BBox :=
  filter (fun b => center_in b w) regions.

Definition in_some_region (regions : list BBox) (w : RawWord) : bool :=
  let '(cx, cy) := center w in _inside_table regions cx cy.

(** The line centers of a page. *)
Definition page_centers (page : Page) : list Q :=
  cluster_1d (map y0 (page_free_words page)) line_tolerance.

(** The words the composer puts on each line, before they are sorted and
    merged: the entries of [lines_map]. *)
Definition page_line_groups (page : Page) : list (nat * list Span) :=
  build_lines_map (page_centers page) (page_free_words page).

(** What the merger returns. *)
Definition merged_words (ws : list Span) : list Span :=
  match ws with
  | [] => []
  | w0 :: rest => merge_from w0 rest
  end.

(** The line element made of one entry of [lines_map]. *)
Definition line_of (centers : list Q) (entry : nat * list Span) : Element :=
  LineEl (nth (fst entry) centers 0) (merged_words (Py.sort x0 (snd entry))).

Definition page_lines (page : Page) : list Element :=
  map (line_of (page_centers page)) (page_line_groups page).

Definition page_tables (page : Page) : list Element :=
  map table_element (retained_tables page).

Definition is_table (e : Element) : Prop :=
  match e with TableEl _ _ => True | LineEl _ _ => False end.

Definition is_line (e : Element) : Prop :=
  match e with TableEl _ _ => False | LineEl _ _ => True end.

(** [tokens] split in two: the tokens of the first part are the words of the
    page's lines, each in one place of one line, and lie in no exclusion
    region; the center of each token of the second part lies in as many
    exclusion regions as [table_count] allows. *)
Definition tokens_partitioned (page : Page) (tokens : list RawWord)
  (table_count : nat -> Prop) : Prop :=
  exists free tabled : list RawWord,
    Permutation tokens (free ++ tabled)
    /\ Permutation (map span_of free) (List.concat (map snd (page_line_groups page)))
    /\ NoDup (map fst (page_line_groups page))
    /\ Forall (fun w => regions_containing (page_regions page) w = []) free
    /\ Forall (fun w => table_count
                          (List.length (regions_containing (page_regions page) w)))
              tabled.

(** The partition invariant as the design document states it. *)
Definition token_partition (page : Page) : Prop :=
  tokens_partitioned page (get_words page) (fun n => n = 1%nat).

(** The page without its blank tokens. *)
Definition without_blank_tokens (page : Page) : Page :=
  {| find_tables := find_tables page;
     get_words := visible_tokens (get_words page) |}.

Definition sentinel_cell : CellWrite :=
  {| row := 1; column := 1; value := Some sentinel; bold := false |}.

(** *** Clusters *)

(** Neighbours inside one cluster are at most the tolerance apart. *)
Fixpoint chained (tolerance : Q) (c : list Q) : Prop :=
  match c with
  | x :: ((y :: _) as c') => Qabs (y - x) <= tolerance /\ chained tolerance c'
  | _ => True
  end.

(** The last value of a cluster and the first value of the next one are more
    than the tolerance apart. *)
Fixpoint gapped (tolerance : Q) (clusters : list (list Q)) : Prop :=
  match clusters with
  | a :: ((b :: _) as rest) =>
      (forall x y, Py.last_item a = Some x -> hd_error b = Some y ->
                   tolerance < Qabs (y - x))
      /\ gapped tolerance rest
  | _ => True
  end.

(** *** Tables *)

(** Two boxes that the de-duplication lets stand side by side. *)
Definition distinct_boxes (a b : BBox) : Prop :=
  _bbox_iou a b <= dedup_threshold /\ _bbox_iou b a <= dedup_threshold.

(** *** Lines and the sheet *)

(** The words stored under the key [k] of a [lines_map]. *)
Fixpoint entry_words (k : nat) (lines_map : list (nat * list Span)) : list Span :=
  match lines_map with
  | [] => []
  | (k', ws) :: m => if (k' =? k)%nat then ws else entry_words k m
  end.

(** A word that can be shown: its text is not empty and has no white space
    at its ends. *)
Definition presentable (w : Span) : Prop := text w <> ""%string /\ tidy (text w).

(** The cell [a] comes before the cell [b] in reading order. *)
Definition cell_before (a b : CellWrite) : Prop :=
  (row a < row b)%nat \/ (row a = row b /\ (column a < column b)%nat).

Definition coord (c : CellWrite) : nat * nat := (row c, column c).

(** The pairs of neighbours of a line that are more than the column gap
    apart. *)
Fixpoint wide_gaps (spans : list Span) : nat :=
  match spans with
  | sp :: ((next :: _) as rest) =>
      ((if Py.ltb column_gap (x0 next - x1 sp) then 1 else 0) + wide_gaps rest)%nat
  | _ => 0%nat
  end.

(** An element for which the grid writer writes at least one cell. *)
Definition has_cells (e : Element) : Prop :=
  match e with
  | TableEl _ t => List.concat (data t) <> []
  | LineEl _ spans => spans <> []
  end.

(** A line element as the composer should hand it to the grid writer: at
    least one word, the words presentable and ordered left to right, and the
    [y] one of the line centers. *)
Definition well_formed_line (centers : list Q) (e : Element) : Prop :=
  match e with
  | TableEl _ _ => False
  | LineEl y spans =>
      spans <> [] /\ Forall presentable spans
      /\ StronglySorted (key_le x0) spans /\ In y centers
  end.

(** *** Page selection and splitting *)

(** Every part but the last holds [chunk] pages. *)
Fixpoint full_but_last {A : Type} (chunk : nat) (parts : list (nat * list A)) : Prop :=
  match parts with
  | p :: ((_ :: _) as more) => List.length (snd p) = chunk /\ full_but_last chunk more
  | _ => True
  end.



(** A set of valid page indices, each held once. *)
Definition valid_indices (total_pages : nat) (s : list nat) : Prop :=
  NoDup s /\ Forall (fun i => (i < total_pages)%nat) s.

(** *** Worksheets *)

(** A cell of the worksheet's extent that holds a value with visible
    text. *)
Definition filled (ws : Worksheet) (r c : nat) : Prop :=
  (1 <= r <= ws_max_row ws)%nat /\ (1 <= c <= ws_max_column ws)%nat
  /\ cell_non_empty (ws_value ws r c) = true.

(** The cells of the extent in the order of the scan. *)
Definition extent_cells (ws : Worksheet) : list (nat * nat) :=
  flat_map (fun r => map (fun c => (r, c)) (seq 1 (ws_max_column ws)))
           (seq 1 (ws_max_row ws)).

Definition scan_cells (ws : Worksheet) (cells : list (nat * nat)) : Bounds :=
  fold_left (fun b rc => scan_cell ws (fst rc) b (snd rc)) cells
            {| min_row := None; max_row := 0; min_col := None; max_col := 0 |}.

(** The value found at a coordinate of a sheet. *)
Definition sheet_lookup (sheet : Sheet) (r c : nat) : Cell :=
  match find (fun x => (row x =? r)%nat && (column x =? c)%nat) sheet with
  | Some x => value x
  | None => None
  end.

(** The worksheet that holds the cells of [sheet]. *)
Definition sheet_worksheet (sheet : Sheet) : Worksheet :=
  {| ws_max_row := list_max (map row sheet);
     ws_max_column := list_max (map column sheet);
     ws_value := sheet_lookup sheet |}.

(** The borders drawn on the sheet of a page when its processing is over:
    none on the page that only gets the marker, [_apply_visible_borders] on
    the others; [None] if the processing raises before the border step. *)
Definition page_borders (refuses : string -> bool) (page : Page)
  : option (list (nat * nat)) :=
  sheet <- page_sheet refuses page ;;
  elements <- page_elements page ;;
  match elements with
  | [] => Some []
  | _ => Some (_apply_visible_borders (sheet_worksheet sheet))
  end.

(** *** Blank pages *)

(** What the blank-page test finds on a page: an annotation, an image in a
    listing that succeeds, or visible text in an extraction that succeeds.
    A listing or an extraction that raises finds nothing. *)
Definition detected_content (page : PdfPage) : Prop :=
  has_annots page = true
  \/ (exists n, image_count page = Some n /\ (0 < n)%nat)
  \/ (exists t, extract_text page = Some (Some t) /\ Py.strip t <> ""%string).
(** ** The numeric helpers in binary64

    [_cluster_positions] and [_bbox_iou] once more, on the numbers the
    program computes with: a Python [float] is an IEEE 754 binary64 number
    (the primitive [float]), and [+], [-], [*], [/] round to nearest, ties to
    even.  [sum] adds from the left, one rounded addition per element. *)

Module F64.

Local Open Scope float_scope.

(** [max(x, y)] / [min(x, y)]: the first argument unless the second is
    strictly better. *)
Definition max2 (x y : float) : float := if x <? y then y else x.
Definition min2 (x y : float) : float := if y <? x then y else x.

(** [sorted(values)]: a stable sort that compares with [<] only. *)
Fixpoint insert (x : float) (l : list float) : list float :=
  match l with
  | [] => [x]
  | y :: l' => if y <? x then y :: insert x l' else x :: l
  end.

Definition sorted (l : list float) : list float := fold_right insert [] l.

(** [sum(c)] starts from the integer [0] and adds from the left, each
    addition rounded.  (From version 3.12 CPython also carries a
    compensation term through the additions; the two sums agree on a list
    of one or two values and on the lists evaluated in this file.) *)
Definition sum (c : list float) : float := fold_left add c 0.

(** [len(c)] converted to a float for the division (a length is below
    [2^63]). *)
Definition len (c : list float) : float :=
  of_uint63 (Uint63.of_Z (Z.of_nat (List.length c))).

(** [sum(c) / len(c)]: [ZeroDivisionError] on an empty cluster. *)
Definition mean (c : list float) : option float :=
  match c with
  | [] => None
  | _ => Some (sum c / len c)
  end.

(** [_cluster_positions] *)
Definition cluster_append (tolerance : float) (clusters : list (list float)) (v : float)
  : option (list (list float)) :=
  cur <- Py.last_item clusters ;;
  lastv <- Py.last_item cur ;;
  if abs (v - lastv) <=? tolerance
  then Some (removelast clusters ++ [cur ++ [v]])
  else Some (clusters ++ [[v]]).

Fixpoint cluster_loop (tolerance : float) (clusters : list (list float)) (vs : list float)
  : option (list (list float)) :=
  match vs with
  | [] => Some clusters
  | v :: vs' =>
      clusters' <- cluster_append tolerance clusters v ;;
      cluster_loop tolerance clusters' vs'
  end.

Definition position_clusters (values : list float) (tolerance : float)
  : option (list (list float)) :=
  match values with
  | [] => Some []
  | _ =>
      match sorted values with
      | [] => None
      | v0 :: rest => cluster_loop tolerance [[v0]] rest
      end
  end.

Definition _cluster_positions (values : list float) (tolerance : float)
  : option (list float) :=
  match values with
  | [] => Some []
  | _ =>
      match sorted values with
      | [] => None
      | v0 :: rest =>
          clusters <- cluster_loop tolerance [[v0]] rest ;;
          Py.comprehension mean clusters
      end
  end.

(** [_bbox_iou] *)
Definition BBox : Type := (float * float * float * float)%type.

Definition _bbox_iou (a b : BBox) : float :=
  let '(ax0, ay0, ax1, ay1) := a in
  let '(bx0, by0, bx1, by1) := b in
  let ix0 := max2 ax0 bx0 in
  let iy0 := max2 ay0 by0 in
  let ix1 := min2 ax1 bx1 in
  let iy1 := min2 ay1 by1 in
  let iw := max2 0 (ix1 - ix0) in
  let ih := max2 0 (iy1 - iy0) in
  let inter := iw * ih in
  if inter <=? 0 then 0
  else
    let area_a := max2 0 ((ax1 - ax0) * (ay1 - ay0)) in
    let area_b := max2 0 ((bx1 - bx0) * (by1 - by0)) in
    let union := area_a + area_b - inter in
    if 0 <? union then inter / union else 0.

(** *** Vocabulary *)

(** A float that is a number: neither an infinity nor NaN. *)
Definition finite (x : float) : Prop := is_finite x = true.

(** The zero with the sign bit set, [-0.0]. *)
Definition negative_zero (x : float) : bool :=
  match classify x with
  | NZero => true
  | _ => false
  end.

Definition width (a : BBox) : float := let '(ax0, _, ax1, _) := a in ax1 - ax0.
Definition height (a : BBox) : float := let '(_, ay0, _, ay1) := a in ay1 - ay0.
Definition area (a : BBox) : float := width a * height a.

Definition non_degenerate (a : BBox) : Prop :=
  (0 <? width a) = true /\ (0 <? height a) = true.

(** The reference clustering of the design document, with the mean the
    program computes. *)
Definition arithmetic_mean (c : list float) : float := sum c / len c.

Fixpoint greedy_chain (tolerance : float) (cur : list float) (lastv : float)
  (rest : list float) : list (list float) :=
  match rest with
  | [] => [cur]
  | v :: rest' =>
      if tolerance <? abs (v - lastv)
      then cur :: greedy_chain tolerance [v] v rest'
      else greedy_chain tolerance (cur ++ [v]) v rest'
  end.

Definition cluster_1d (values : list float) (tolerance : float) : list float :=
  match sorted values with
  | [] => []
  | v0 :: rest => map arithmetic_mean (greedy_chain tolerance [v0] v0 rest)
  end.

Definition ascending (l : list float) : Prop := Sorted (fun x y => (x <=? y) = true) l.

(** Neighbouring centers are further apart than the tolerance. *)
Definition separated (tolerance : float) (l : list float) : Prop :=
  Sorted (fun x y => (tolerance <? abs (y - x)) = true) l.

End F64.


(** ** Sample inputs *)

Definition sample_grid : Grid :=
  [[Some "Name"; Some "Qty"]; [Some "Bolt"; Some "4"]]%string.

Definition sample_table (b : BBox) : Table :=
  {| bbox := b; extract := Some sample_grid |}.

(** A page on which the ruled-line strategy finds one table and the
    text-alignment strategy fails. *)
Definition sample_page : Page :=
  {| find_tables := fun cfg =>
       match cfg with
       | RuledLines => Some [sample_table (0, 0, 10, 10)]
       | TextAlignment => None
       end;
     get_words := [] |}.

(** Scenario D of the design document and two words that stay apart. *)
Definition fragment_Jo : Span := {| x0 := 0; x1 := 10; y0 := 0; text := "Jo" |}.
Definition fragment_hn : Span := {| x0 := 11; x1 := 20; y0 := 0; text := "hn" |}.
Definition word_John : Span := {| x0 := 0; x1 := 20; y0 := 0; text := "John" |}.
Definition word_hello : Span := {| x0 := 0; x1 := 30; y0 := 0; text := "hello" |}.
Definition word_world : Span := {| x0 := 120; x1 := 150; y0 := 0; text := "world" |}.

(** Two fragments, the first with a leading blank. *)
Definition padded_a : Span := {| x0 := 0; x1 := 10; y0 := 0; text := " a" |}.
Definition fragment_b : Span := {| x0 := 11; x1 := 20; y0 := 0; text := "b" |}.

(** A page with a single blank token and no table. *)
Definition blank_token_page : Page :=
  {| find_tables := fun _ => Some [];
     get_words := [{| rx0 := 0; ry0 := 0; rx1 := 10; ry1 := 10; rtext := " " |}] |}.

(** A page with two retained tables that overlap (intersection over union
    1/3) and one token whose center lies in both. *)
Definition overlapping_tables_page : Page :=
  {| find_tables := fun cfg =>
       match cfg with
       | RuledLines => Some [sample_table (0, 0, 10, 10); sample_table (5, 0, 15, 10)]
       | TextAlignment => None
       end;
     get_words := [{| rx0 := 6; ry0 := 4; rx1 := 8; ry1 := 6; rtext := "x" |}] |}.

(** A page with one table, two bands of text and a blank token. *)
Definition mixed_page : Page :=
  {| find_tables := fun cfg =>
       match cfg with
       | RuledLines => Some [sample_table (0, 100, 50, 150)]
       | TextAlignment => Some [sample_table (0, 100, 50, 149)]
       end;
     get_words :=
       [ {| rx0 := 0; ry0 := 10; rx1 := 10; ry1 := 20; rtext := "Jo" |};
         {| rx0 := 11; ry0 := 11; rx1 := 20; ry1 := 20; rtext := "hn" |};
         {| rx0 := 30; ry0 := 12; rx1 := 35; ry1 := 20; rtext := "  " |};
         {| rx0 := 5; ry0 := 110; rx1 := 25; ry1 := 120; rtext := "Bolt" |};
         {| rx0 := 0; ry0 := 500; rx1 := 40; ry1 := 510; rtext := "Total" |} ] |}.

(** Scenario A: two bands of text and no table. *)
Definition two_bands_page : Page :=
  {| find_tables := fun _ => Some [];
     get_words :=
       [ {| rx0 := 0; ry0 := 500; rx1 := 40; ry1 := 510; rtext := "lower" |};
         {| rx0 := 0; ry0 := 10; rx1 := 40; ry1 := 20; rtext := "upper" |};
         {| rx0 := 100; ry0 := 11; rx1 := 140; ry1 := 21; rtext := "band" |} ] |}.

(** Scenario C: a detection with one row of five cells. *)
Definition single_row_table : Table :=
  {| bbox := (0, 0, 100, 10);
     extract := Some [[Some "a"; Some "b"; Some "c"; Some "d"; Some "e"]]%string |}.

(** A worksheet that refuses the control characters other than TAB, LF and
    CR, and a page with such a character in a word. *)
Definition control_character (c : ascii) : bool :=
  let n := nat_of_ascii c in
  ((n <=? 8) || (n =? 11) || (n =? 12) || (14 <=? n) && (n <=? 31))%nat.

Definition refuses_control (s : string) : bool :=
  negb (Py.all_chars (fun c => negb (control_character c)) s).

Definition control_page : Page :=
  {| find_tables := fun _ => Some [];
     get_words :=
       [ {| rx0 := 0; ry0 := 10; rx1 := 10; ry1 := 20;
            rtext := String "a" (String (ascii_of_nat 1) "b") |} ] |}.

(** An interpreter that sets no limit on integer conversion. *)
Definition no_digit_limit (s : string) : bool := false.

(** A worksheet of 3 rows and 4 columns with text in B2 and C3 only. *)
Definition sample_worksheet : Worksheet :=
  {| ws_max_row := 3;
     ws_max_column := 4;
     ws_value := fun r c =>
       if ((r =? 2) && (c =? 2))%nat then Some "left"%string
       else if ((r =? 3) && (c =? 3))%nat then Some "right"%string
       else if ((r =? 1) && (c =? 1))%nat then Some "  "%string
       else None |}.

(** A path with no directory and no suffix is its own stem. *)
Definition plain_stem (name : string) : string := name.

(** A page with text, and a page with nothing but a short content stream. *)
Definition text_page : PdfPage :=
  {| extract_text := Some (Some "Total"%string); has_annots := false;
     image_count := Some 0%nat; get_contents := Some (ContentStream (Some 900%nat)) |}.

(** A page with text whose extraction and image listing raise. *)
Definition unreadable_page : PdfPage :=
  {| extract_text := None; has_annots := false;
     image_count := None; get_contents := Some (ContentStream (Some 40%nat)) |}.

Definition empty_pdf_page : PdfPage :=
  {| extract_text := Some None; has_annots := false;
     image_count := None; get_contents := Some (ContentArray [Some 30%nat; None]) |}.
(** *** Inputs on which the rounding shows *)

Module F64Samples.
#[local] Set Warnings "-inexact-float".
Local Open Scope float_scope.

(** Five values [0.21] and eleven values one step above. *)
Definition two_plateaus : list float := repeat 0.21 5 ++ repeat (next_up 0.21) 11.

(** Three values [0.1] and a value [0.4]; the tolerance is [0.3]. *)
Definition three_and_one : list float := [0.1; 0.1; 0.1; 0.4].

(** Squares of side [2^-600] and [2^600]. *)
Definition tiny_box : F64.BBox := (0, 0, 0x1p-600, 0x1p-600).
Definition huge_box : F64.BBox := (0, 0, 0x1p600, 0x1p600).

Definition unit_box : F64.BBox := (0, 0, 1, 1).
Definition scattered : list float := [3; 1; 1.5].
End F64Samples.


(** * Properties *)

(** ** Facts about the built-ins *)

Lemma max2_cases (x y : Q) :
  (x < y /\ Py.max2 x y = y) \/ (y <= x /\ Py.max2 x y = x).
Proof. unfold Py.max2. destruct (Qlt_le_dec x y); auto. Qed.

Lemma min2_cases (x y : Q) :
  (y < x /\ Py.min2 x y = y) \/ (x <= y /\ Py.min2 x y = x).
Proof. unfold Py.min2. destruct (Qlt_le_dec y x); auto. Qed.

Lemma leb_true (x y : Q) : Py.leb x y = true <-> x <= y.
Proof. apply Qle_bool_iff. Qed.

Lemma leb_false (x y : Q) : Py.leb x y = false <-> y < x.
Proof.
  unfold Py.leb. split; intro H.
  - apply Qnot_le_lt. intro Hle. apply Qle_bool_iff in Hle. congruence.
  - destruct (Qle_bool x y) eqn:E; auto. apply Qle_bool_iff in E. lra.
Qed.

Lemma ltb_true (x y : Q) : Py.ltb x y = true <-> x < y.
Proof. unfold Py.ltb. rewrite negb_true_iff. apply leb_false. Qed.

Lemma ltb_false (x y : Q) : Py.ltb x y = false <-> y <= x.
Proof. unfold Py.ltb. rewrite negb_false_iff. apply leb_true. Qed.

Lemma last_item_snoc {A : Type} (l : list A) (x : A) :
  Py.last_item (l ++ [x]) = Some x.
Proof.
  induction l as [|y l IH]; simpl; auto.
  rewrite IH. destruct (l ++ [x]) eqn:E; auto.
  destruct l; discriminate.
Qed.

Lemma removelast_snoc {A : Type} (l : list A) (x : A) :
  removelast (l ++ [x]) = l.
Proof. apply removelast_last. Qed.

Lemma comprehension_total {A B : Type} (f : A -> option B) (g : A -> B) (l : list A) :
  Forall (fun x => f x = Some (g x)) l ->
  Py.comprehension f l = Some (map g l).
Proof.
  induction 1 as [|x l Hx _ IH]; simpl; auto.
  rewrite Hx, IH. reflexivity.
Qed.

(** *** The stable sort *)

Section SortFacts.
Context {A : Type} (key : A -> Q).

Lemma insert_perm (x : A) (l : list A) : Permutation (Py.insert key x l) (x :: l).
Proof.
  induction l as [|y l IH]; simpl; auto.
  destruct (Py.leb (key x) (key y)); auto.
  rewrite IH. apply perm_swap.
Qed.

Lemma sort_perm (l : list A) : Permutation (Py.sort key l) l.
Proof.
  induction l as [|x l IH]; simpl; auto.
  rewrite insert_perm. auto.
Qed.

Lemma insert_sorted (x : A) (l : list A) :
  Sorted (key_le key) l -> Sorted (key_le key) (Py.insert key x l).
Proof.
  induction 1 as [|y l Hs IH Hhd]; simpl.
  - repeat constructor.
  - destruct (Py.leb (key x) (key y)) eqn:E.
    + apply leb_true in E. repeat constructor; auto.
    + apply leb_false in E. constructor; auto.
      destruct l as [|z l]; simpl.
      * constructor. unfold key_le. lra.
      * inversion Hhd; subst.
        destruct (Py.leb (key x) (key z)); constructor; unfold key_le in *; lra.
Qed.

Lemma sort_sorted (l : list A) : Sorted (key_le key) (Py.sort key l).
Proof.
  induction l as [|x l IH]; simpl; [constructor|].
  apply insert_sorted, IH.
Qed.

(** Sorting leaves an ordered list as it is. *)
Lemma sort_of_sorted (l : list A) : Sorted (key_le key) l -> Py.sort key l = l.
Proof.
  induction 1 as [|x l Hs IH Hhd]; simpl; auto.
  rewrite IH. destruct Hhd as [|y l Hxy]; simpl; auto.
  apply leb_true in Hxy. rewrite Hxy. reflexivity.
Qed.

(** Stability: the elements of one key keep the order of the input. *)
Lemma insert_stable (v : Q) (x : A) (l : list A) :
  filter (has_key key v) (Py.insert key x l) = filter (has_key key v) (x :: l).
Proof.
  induction l as [|y l IH]; simpl; auto.
  destruct (Py.leb (key x) (key y)) eqn:E; simpl; auto.
  apply leb_false in E. simpl in IH. rewrite IH.
  unfold has_key.
  destruct (Qeq_bool (key x) v) eqn:Ex, (Qeq_bool (key y) v) eqn:Ey; auto.
  apply Qeq_bool_iff in Ex, Ey. lra.
Qed.

Lemma sort_stable (v : Q) (l : list A) :
  filter (has_key key v) (Py.sort key l) = filter (has_key key v) l.
Proof.
  induction l as [|x l IH]; simpl; auto.
  rewrite insert_stable. simpl. rewrite IH. reflexivity.
Qed.

Lemma sort_nil_inv (l : list A) : Py.sort key l = [] -> l = [].
Proof.
  intro H. pose proof (sort_perm l) as P. rewrite H in P.
  apply Permutation_nil in P. exact P.
Qed.
End SortFacts.

(** ** Clustering *)

Lemma cluster_append_snoc (tol : Q) (done : list (list Q)) (cur : list Q) (lastv v : Q) :
  Py.last_item cur = Some lastv ->
  cluster_append tol (done ++ [cur]) v =
  Some (if Qlt_le_dec tol (Qabs (v - lastv))
        then (done ++ [cur]) ++ [[v]]
        else done ++ [cur ++ [v]]).
Proof.
  intro Hl. unfold cluster_append.
  rewrite last_item_snoc. cbn [Py.bind]. rewrite Hl. cbn [Py.bind].
  rewrite removelast_snoc. unfold Py.abs.
  destruct (Qlt_le_dec tol (Qabs (v - lastv))) as [H|H].
  - apply leb_false in H. rewrite H. reflexivity.
  - apply leb_true in H. rewrite H. reflexivity.
Qed.

(** The loop of [_cluster_positions] builds the greedy chain. *)
Lemma cluster_loop_chain (tol : Q) (rest : list Q) :
  forall (done : list (list Q)) (cur : list Q) (lastv : Q),
    Py.last_item cur = Some lastv ->
    cluster_loop tol (done ++ [cur]) rest
    = Some (done ++ greedy_chain tol cur lastv rest).
Proof.
  induction rest as [|v rest IH]; intros done cur lastv Hl;
    cbn [cluster_loop greedy_chain]; auto.
  rewrite (cluster_append_snoc tol done cur lastv v Hl). cbn [Py.bind].
  destruct (Qlt_le_dec tol (Qabs (v - lastv))).
  - rewrite (IH (done ++ [cur]) [v] v eq_refl).
    rewrite <- app_assoc. reflexivity.
  - apply IH. apply last_item_snoc.
Qed.

Lemma chain_nonempty (tol : Q) (rest : list Q) :
  forall (cur : list Q) (lastv : Q),
    cur <> [] -> Forall (fun c => c <> []) (greedy_chain tol cur lastv rest).
Proof.
  induction rest as [|v rest IH]; intros cur lastv Hc; cbn [greedy_chain].
  - repeat constructor; auto.
  - destruct (Qlt_le_dec tol (Qabs (v - lastv))).
    + constructor; auto. apply IH. discriminate.
    + apply IH. destruct cur; discriminate.
Qed.

Lemma len_cons {A : Type} (x : A) (c : list A) : Py.len (x :: c) == Py.len c + 1.
Proof.
  unfold Py.len. cbn [List.length]. rewrite Nat2Z.inj_succ, <- Z.add_1_r.
  rewrite inject_Z_plus. reflexivity.
Qed.

Lemma len_nonneg {A : Type} (c : list A) : 0 <= Py.len c.
Proof.
  unfold Py.len. change 0 with (inject_Z 0). rewrite <- Zle_Qle. lia.
Qed.

Lemma len_pos {A : Type} (c : list A) : c <> [] -> 0 < Py.len c.
Proof.
  destruct c as [|x c]; [congruence|]. intros _.
  rewrite len_cons. pose proof (len_nonneg c). lra.
Qed.

Lemma mean_nonempty (c : list Q) : c <> [] -> mean c = Some (arithmetic_mean c).
Proof.
  intro H. unfold mean, Py.div, arithmetic_mean.
  destruct (Qeq_bool (Py.len c) 0) eqn:E; auto.
  apply Qeq_bool_iff in E. pose proof (len_pos c H). lra.
Qed.

Lemma sum_from (c : list Q) : forall acc, fold_left Qplus c acc == acc + Py.sum c.
Proof.
  unfold Py.sum. induction c as [|x c IH]; intro acc; simpl.
  - lra.
  - rewrite IH, (IH (0 + x)). lra.
Qed.

Lemma sum_cons (x : Q) (c : list Q) : Py.sum (x :: c) == x + Py.sum c.
Proof. unfold Py.sum at 1. simpl. rewrite sum_from. lra. Qed.

Lemma sum_bounds (lo hi : Q) (c : list Q) :
  Forall (fun x => lo <= x <= hi) c ->
  lo * Py.len c <= Py.sum c <= hi * Py.len c.
Proof.
  induction 1 as [|x c Hx _ IH].
  - change (Py.sum []) with 0. change (Py.len (@nil Q)) with 0. lra.
  - rewrite sum_cons, len_cons. destruct IH, Hx. split; nra.
Qed.

Lemma mean_bounds (lo hi : Q) (c : list Q) :
  c <> [] -> Forall (fun x => lo <= x <= hi) c ->
  lo <= arithmetic_mean c <= hi.
Proof.
  intros Hne Hc. pose proof (len_pos c Hne) as Hl.
  pose proof (sum_bounds lo hi c Hc) as [H1 H2].
  unfold arithmetic_mean. split.
  - apply Qle_shift_div_l; auto.
  - apply Qle_shift_div_r; auto.
Qed.

Lemma chain_separated (tol : Q) (rest : list Q) :
  forall (cur : list Q) (lastv lo : Q),
    cur <> [] ->
    Forall (fun x => lo <= x <= lastv) cur ->
    Sorted Qle (lastv :: rest) ->
    exists m ms,
      map arithmetic_mean (greedy_chain tol cur lastv rest) = m :: ms
      /\ lo <= m /\ separated tol (m :: ms).
Proof.
  induction rest as [|v rest IH]; intros cur lastv lo Hne Hc Hs; cbn [greedy_chain].
  - exists (arithmetic_mean cur), []. cbn [map separated].
    destruct (mean_bounds lo lastv cur Hne Hc). auto.
  - apply Sorted_inv in Hs. destruct Hs as [Hs Hhd].
    apply HdRel_inv in Hhd.
    assert (Hlo : lo <= lastv).
    { destruct cur as [|x cur]; [congruence|].
      apply Forall_inv in Hc. lra. }
    destruct (Qlt_le_dec tol (Qabs (v - lastv))) as [Hgap|Hgap].
    + destruct (IH [v] v v) as (m & ms & E & Hm & Hsep); auto.
      { discriminate. }
      { repeat constructor; lra. }
      exists (arithmetic_mean cur), (m :: ms). cbn [map]. rewrite E.
      destruct (mean_bounds lo lastv cur Hne Hc) as [H1 H2].
      rewrite Qabs_pos in Hgap by lra.
      repeat split; auto; try lra.
    + apply IH; auto.
      * destruct cur; discriminate.
      * apply Forall_app. split.
        -- apply Forall_impl with (2 := Hc). intros; lra.
        -- repeat constructor; lra.
Qed.

Lemma separated_ascending (tol : Q) (ms : list Q) : separated tol ms -> ascending ms.
Proof.
  unfold ascending. induction ms as [|m ms IH]; intro H; [constructor|].
  destruct ms as [|m' ms]; [repeat constructor|].
  destruct H as (H1 & _ & H3). constructor; auto.
Qed.

Lemma separated_chain (tol : Q) (rest : list Q) :
  forall c0, separated tol (c0 :: rest) ->
             greedy_chain tol [c0] c0 rest = map (fun c => [c]) (c0 :: rest).
Proof.
  induction rest as [|v rest IH]; intros c0 H; cbn [greedy_chain]; auto.
  destruct H as (H1 & H2 & H3).
  destruct (Qlt_le_dec tol (Qabs (v - c0))) as [Hgap|Hgap].
  - rewrite (IH v H3). reflexivity.
  - rewrite Qabs_pos in Hgap by lra. lra.
Qed.

Lemma mean_singleton (c : Q) : mean [c] = Some c.
Proof.
  destruct c as [n d]. unfold mean, Py.div, Py.sum, Py.len.
  cbn [fold_left List.length Z.of_nat].
  replace (Qeq_bool (inject_Z (Z.of_nat 1)) 0) with false by reflexivity.
  f_equal. unfold Qdiv, Qmult, Qplus, Qinv. cbn.
  rewrite !Z.mul_1_r, ?Pos.mul_1_r. reflexivity.
Qed.

Lemma sorted_cases (values : list Q) :
  values <> [] -> exists v0 rest, Py.sorted values = v0 :: rest.
Proof.
  intro H. destruct (Py.sorted values) as [|v0 rest] eqn:E; eauto.
  apply sort_nil_inv in E. congruence.
Qed.

Lemma position_clusters_chain (values : list Q) (tol : Q) (v0 : Q) (rest : list Q) :
  Py.sorted values = v0 :: rest ->
  position_clusters values tol = Some (greedy_chain tol [v0] v0 rest).
Proof.
  intro E. unfold position_clusters.
  destruct values as [|x values]; [discriminate|].
  rewrite E. apply (cluster_loop_chain tol rest [] [v0] v0 eq_refl).
Qed.

Lemma cluster_positions_clusters (values : list Q) (tol : Q) :
  _cluster_positions values tol
  = (clusters <- position_clusters values tol ;; Py.comprehension mean clusters).
Proof.
  unfold _cluster_positions, position_clusters.
  destruct values as [|x values]; auto.
  destruct (Py.sorted (x :: values)); auto.
Qed.

Lemma cluster_positions_refines (values : list Q) (tol : Q) :
  _cluster_positions values tol = Some (cluster_1d values tol).
Proof.
  destruct values as [|x values]; [reflexivity|].
  destruct (sorted_cases (x :: values)) as (v0 & rest & E); [discriminate|].
  rewrite cluster_positions_clusters, (position_clusters_chain _ tol v0 rest E).
  unfold cluster_1d. rewrite E. cbn [Py.bind].
  apply comprehension_total.
  apply Forall_impl with (2 := chain_nonempty tol rest [v0] v0 ltac:(discriminate)).
  intros c Hc. apply mean_nonempty, Hc.
Qed.

Lemma cluster_1d_separated (values : list Q) (tol : Q) :
  separated tol (cluster_1d values tol).
Proof.
  unfold cluster_1d. destruct (Py.sorted values) as [|v0 rest] eqn:E; [exact I|].
  pose proof (sort_sorted (fun v => v) values) as Hs.
  fold (Py.sorted values) in Hs. rewrite E in Hs.
  destruct (chain_separated tol rest [v0] v0 v0) as (m & ms & Em & _ & Hsep); auto.
  - discriminate.
  - repeat constructor; lra.
  - rewrite Em. exact Hsep.
Qed.

(** ** Intersection over union *)

Lemma span_overlap_bounds (a0 a1 b0 b1 : Q) :
  0 <= span_overlap a0 a1 b0 b1 /\
  (0 < span_overlap a0 a1 b0 b1 ->
     span_overlap a0 a1 b0 b1 <= a1 - a0 /\ span_overlap a0 a1 b0 b1 <= b1 - b0
     /\ a0 < b1 /\ b0 < a1).
Proof.
  unfold span_overlap.
  destruct (max2_cases a0 b0) as [[? ->]|[? ->]];
  destruct (min2_cases a1 b1) as [[? ->]|[? ->]];
  match goal with |- context [Py.max2 0 ?t] =>
    destruct (max2_cases 0 t) as [[? ->]|[? ->]] end;
  split; intros; try lra.
Qed.

Lemma span_overlap_self (a0 a1 : Q) : a0 < a1 -> span_overlap a0 a1 a0 a1 == a1 - a0.
Proof.
  intro H. unfold span_overlap.
  destruct (max2_cases a0 a0) as [[? ->]|[? ->]];
  destruct (min2_cases a1 a1) as [[? ->]|[? ->]];
  match goal with |- context [Py.max2 0 ?t] =>
    destruct (max2_cases 0 t) as [[? ->]|[? ->]] end; lra.
Qed.

Lemma iou_unfold (a b : BBox) :
  _bbox_iou a b =
  let '(ax0, ay0, ax1, ay1) := a in
  let '(bx0, by0, bx1, by1) := b in
  let inter := span_overlap ax0 ax1 bx0 bx1 * span_overlap ay0 ay1 by0 by1 in
  if Py.leb inter 0 then 0
  else
    let union := Py.max2 0 (area a) + Py.max2 0 (area b) - inter in
    if Py.ltb 0 union then inter / union else 0.
Proof. destruct a as [[[? ?] ?] ?], b as [[[? ?] ?] ?]. reflexivity. Qed.

Lemma iou_range (a b : BBox) : 0 <= _bbox_iou a b <= 1.
Proof.
  rewrite iou_unfold.
  destruct a as [[[ax0 ay0] ax1] ay1], b as [[[bx0 by0] bx1] by1].
  cbv zeta. unfold area, width, height.
  destruct (span_overlap_bounds ax0 ax1 bx0 bx1) as [Hw0 Hw].
  destruct (span_overlap_bounds ay0 ay1 by0 by1) as [Hh0 Hh].
  set (iw := span_overlap ax0 ax1 bx0 bx1) in *.
  set (ih := span_overlap ay0 ay1 by0 by1) in *.
  destruct (Py.leb (iw * ih) 0) eqn:Ei; [lra|].
  apply leb_false in Ei.
  assert (Hiw : 0 < iw) by nra.
  assert (Hih : 0 < ih) by nra.
  specialize (Hw Hiw). specialize (Hh Hih).
  destruct (max2_cases 0 ((ax1 - ax0) * (ay1 - ay0))) as [[? ->]|[? ->]]; [|nra].
  destruct (max2_cases 0 ((bx1 - bx0) * (by1 - by0))) as [[? ->]|[? ->]]; [|nra].
  match goal with |- context [Py.ltb 0 ?u] => set (union := u) end.
  assert (Hu : iw * ih <= union) by (unfold union; nra).
  destruct (Py.ltb 0 union) eqn:Eu; [|lra].
  apply ltb_true in Eu. split.
  - apply Qle_shift_div_l; lra.
  - apply Qle_shift_div_r; lra.
Qed.

Lemma iou_self (a : BBox) : non_degenerate a -> _bbox_iou a a == 1.
Proof.
  rewrite iou_unfold.
  destruct a as [[[ax0 ay0] ax1] ay1].
  unfold non_degenerate, area, width, height. intros [Hw Hh]. cbv zeta.
  pose proof (span_overlap_self ax0 ax1 ltac:(lra)) as Ew.
  pose proof (span_overlap_self ay0 ay1 ltac:(lra)) as Eh.
  set (iw := span_overlap ax0 ax1 ax0 ax1) in *.
  set (ih := span_overlap ay0 ay1 ay0 ay1) in *.
  assert (Ei : iw * ih == (ax1 - ax0) * (ay1 - ay0)) by (rewrite Ew, Eh; reflexivity).
  assert (Hpos : 0 < (ax1 - ax0) * (ay1 - ay0)) by nra.
  destruct (Py.leb (iw * ih) 0) eqn:E0; [apply leb_true in E0; lra|].
  destruct (max2_cases 0 ((ax1 - ax0) * (ay1 - ay0))) as [[? ->]|[? ->]]; [|lra].
  match goal with |- context [Py.ltb 0 ?u] => set (union := u) end.
  assert (Hu : union == iw * ih) by (unfold union; lra).
  destruct (Py.ltb 0 union) eqn:Eu; [|apply ltb_false in Eu; lra].
  rewrite Hu. field. lra.
Qed.

Lemma iou_zero (a b : BBox) :
  ~ overlaps a b \/ area a <= 0 \/ area b <= 0 -> _bbox_iou a b == 0.
Proof.
  rewrite iou_unfold.
  destruct a as [[[ax0 ay0] ax1] ay1], b as [[[bx0 by0] bx1] by1].
  unfold overlaps, area, width, height. cbv zeta. intro H.
  destruct (span_overlap_bounds ax0 ax1 bx0 bx1) as [Hw0 Hw].
  destruct (span_overlap_bounds ay0 ay1 by0 by1) as [Hh0 Hh].
  set (iw := span_overlap ax0 ax1 bx0 bx1) in *.
  set (ih := span_overlap ay0 ay1 by0 by1) in *.
  destruct (Py.leb (iw * ih) 0) eqn:Ei; [reflexivity|].
  exfalso. apply leb_false in Ei.
  assert (Hiw : 0 < iw) by nra.
  assert (Hih : 0 < ih) by nra.
  specialize (Hw Hiw). specialize (Hh Hih).
  destruct H as [H|[H|H]].
  - apply H. repeat split; lra.
  - nra.
  - nra.
Qed.

(** ** Table de-duplication and the shape filter *)

Lemma dedup_seen (cands : list Table) :
  forall st, snd st = map bbox (fst st) ->
             snd (fold_left dedup_table cands st)
             = map bbox (fst (fold_left dedup_table cands st)).
Proof.
  induction cands as [|c cands IH]; intros [found seen] H; cbn [fold_left]; auto.
  apply IH. cbn [fst snd] in H. subst seen. unfold dedup_table.
  destruct (duplicate (bbox c) (map bbox found)); cbn [fst snd]; auto.
  rewrite map_app. reflexivity.
Qed.

Lemma extract_tables_accepted (page : Page) :
  _extract_tables_with_fallback page = accepted (candidates page).
Proof.
  unfold _extract_tables_with_fallback, accepted, candidates, dedup_strategy.
  generalize (@nil Table, @nil BBox).
  induction configs as [|cfg cfgs IH]; intro st; cbn [fold_left map List.concat]; auto.
  rewrite fold_left_app. apply IH.
Qed.

Lemma duplicate_iff (c : Table) (found : list Table) :
  duplicate (bbox c) (map bbox found) = true <-> near_duplicate c found.
Proof.
  unfold duplicate, near_duplicate. rewrite existsb_exists, Exists_exists. split.
  - intros (sb & Hin & H). apply in_map_iff in Hin. destruct Hin as (s & <- & Hin).
    exists s. split; auto. apply ltb_true, H.
  - intros (s & Hin & H). exists (bbox s). split; [apply in_map, Hin|].
    apply ltb_true, H.
Qed.

Lemma accepted_snoc (cs : list Table) (c : Table) :
  accepted (cs ++ [c])
  = if duplicate (bbox c) (map bbox (accepted cs)) then accepted cs
    else accepted cs ++ [c].
Proof.
  unfold accepted. rewrite fold_left_app. cbn [fold_left].
  pose proof (dedup_seen cs ([], []) eq_refl) as Hseen.
  destruct (fold_left dedup_table cs ([], [])) as [found seen].
  cbn [fst snd] in *. subst seen. unfold dedup_table.
  destruct (duplicate (bbox c) (map bbox found)); reflexivity.
Qed.

Lemma fold_max_list_max (l : list nat) :
  forall n, fold_left Nat.max l n = Nat.max n (list_max l).
Proof.
  induction l as [|x l IH]; intro n; cbn [fold_left list_max fold_right].
  - lia.
  - rewrite IH. fold (list_max l). lia.
Qed.

Lemma count_row (r : list Cell) :
  forall n, fold_left (fun n c => if cell_non_empty c then S n else n) r n
            = (n + List.length (filter cell_non_empty r))%nat.
Proof.
  induction r as [|c r IH]; intro n; cbn [fold_left filter].
  - cbn. lia.
  - rewrite IH. destruct (cell_non_empty c); cbn [List.length]; lia.
Qed.

Lemma count_grid (d : Grid) :
  forall n,
    fold_left (fun n r => fold_left (fun n c => if cell_non_empty c then S n else n) r n)
              d n
    = (n + grid_non_empty d)%nat.
Proof.
  unfold grid_non_empty.
  induction d as [|r d IH]; intro n; cbn [fold_left List.concat].
  - cbn. lia.
  - rewrite IH, count_row, filter_app, length_app. lia.
Qed.

Lemma table_shape_quality_spec (d : Grid) :
  _table_shape_quality d = (grid_rows d, grid_cols d, grid_non_empty d).
Proof.
  unfold _table_shape_quality. rewrite fold_max_list_max, count_grid. reflexivity.
Qed.

Lemma shape_ok_kept (d : Grid) : shape_ok d = shape_kept d.
Proof.
  unfold shape_ok, shape_kept. rewrite table_shape_quality_spec.
  destruct (Nat.ltb_spec (grid_rows d) 2), (Nat.ltb_spec (grid_cols d) 2),
    (Nat.ltb_spec (grid_non_empty d) 4);
    destruct (Nat.leb_spec 2 (grid_rows d)), (Nat.leb_spec 2 (grid_cols d)),
    (Nat.leb_spec 4 (grid_non_empty d)); cbn; auto; lia.
Qed.

Lemma retain_tables_filter (raw : list Table) :
  retain_tables raw
  = map table_obj (filter (fun t => shape_kept (table_data t)) raw).
Proof.
  induction raw as [|t raw IH]; cbn [retain_tables filter map]; auto.
  rewrite shape_ok_kept, IH. destruct (shape_kept (table_data t)); reflexivity.
Qed.

(** ** Strings *)

Section StringFacts.
Local Open Scope string_scope.

Lemma lstrip_length (s : string) : (String.length (Py.lstrip s) <= String.length s)%nat.
Proof.
  induction s as [|c s IH]; cbn [Py.lstrip String.length]; auto.
  destruct (Py.is_space c); cbn [String.length]; lia.
Qed.

Lemma rstrip_length (s : string) : (String.length (Py.rstrip s) <= String.length s)%nat.
Proof.
  induction s as [|c s IH]; cbn [Py.rstrip String.length]; auto.
  destruct (Py.rstrip s); [destruct (Py.is_space c)|]; cbn [String.length] in *; lia.
Qed.

Lemma lstrip_fixed (c : ascii) (s : string) :
  Py.lstrip (String c s) = String c s <-> Py.is_space c = false.
Proof.
  cbn [Py.lstrip]. destruct (Py.is_space c); split; auto; try discriminate.
  intro H. pose proof (lstrip_length s) as L. rewrite H in L. cbn in L. lia.
Qed.

Lemma tidy_ends (s : string) : tidy s -> Py.lstrip s = s /\ Py.rstrip s = s.
Proof.
  unfold tidy, Py.strip. intro H.
  assert (E : Py.lstrip s = s).
  { destruct s as [|c s]; auto. apply lstrip_fixed.
    destruct (Py.is_space c) eqn:Ec; auto. exfalso.
    cbn [Py.lstrip] in H. rewrite Ec in H.
    pose proof (rstrip_length (Py.lstrip s)) as L1.
    pose proof (lstrip_length s) as L2. rewrite H in L1. cbn in L1. lia. }
  split; auto. rewrite E in H. exact H.
Qed.

Lemma ends_tidy (s : string) : Py.lstrip s = s -> Py.rstrip s = s -> tidy s.
Proof. unfold tidy, Py.strip. intros -> ->. reflexivity. Qed.

Lemma lstrip_app (a b : string) :
  Py.lstrip a = a -> a <> "" -> Py.lstrip (a ++ b) = a ++ b.
Proof.
  destruct a as [|c a]; [congruence|]. intros H _.
  apply lstrip_fixed in H. cbn [append Py.lstrip]. rewrite H. reflexivity.
Qed.

Lemma app_empty_inv (a b : string) : a ++ b = "" -> a = "" /\ b = "".
Proof. destruct a; cbn; [auto|discriminate]. Qed.

Lemma rstrip_app (a b : string) :
  Py.rstrip b <> "" -> Py.rstrip (a ++ b) = a ++ Py.rstrip b.
Proof.
  intro Hb. induction a as [|c a IH]; cbn [append Py.rstrip]; auto.
  rewrite IH. destruct (a ++ Py.rstrip b) eqn:E; auto.
  apply app_empty_inv in E. destruct E. contradiction.
Qed.

Lemma rstrip_app_blank (a b : string) :
  Py.rstrip b = "" -> Py.rstrip (a ++ b) = Py.rstrip a.
Proof.
  intro Hb. induction a as [|c a IH]; cbn [append Py.rstrip]; auto.
  rewrite IH. reflexivity.
Qed.

Lemma rstrip_cons (c : ascii) (s : string) :
  Py.rstrip (String c s)
  = match Py.rstrip s with
    | "" => if Py.is_space c then "" else String c ""
    | r => String c r
    end.
Proof. reflexivity. Qed.

Lemma rstrip_idem (s : string) : Py.rstrip (Py.rstrip s) = Py.rstrip s.
Proof.
  induction s as [|c s IH]; auto. rewrite rstrip_cons.
  destruct (Py.rstrip s) as [|d r] eqn:E.
  - destruct (Py.is_space c) eqn:Ec; auto.
    rewrite rstrip_cons. cbn [Py.rstrip]. rewrite Ec. reflexivity.
  - rewrite rstrip_cons, IH. reflexivity.
Qed.

Lemma lstrip_rstrip (s : string) :
  Py.lstrip s = s -> Py.lstrip (Py.rstrip s) = Py.rstrip s.
Proof.
  destruct s as [|c s]; auto. intro H. apply lstrip_fixed in H.
  cbn [Py.rstrip]. destruct (Py.rstrip s); [rewrite H|];
    cbn [Py.lstrip]; rewrite H; reflexivity.
Qed.

Lemma lstrip_idem (s : string) : Py.lstrip (Py.lstrip s) = Py.lstrip s.
Proof.
  induction s as [|c s IH]; auto. cbn [Py.lstrip].
  destruct (Py.is_space c) eqn:E; auto. cbn [Py.lstrip]. rewrite E. reflexivity.
Qed.

Lemma strip_tidy (s : string) : tidy (Py.strip s).
Proof.
  apply ends_tidy; unfold Py.strip.
  - apply lstrip_rstrip, lstrip_idem.
  - apply rstrip_idem.
Qed.

Lemma append_nil_r (s : string) : s ++ "" = s.
Proof. induction s as [|c s IH]; cbn; congruence. Qed.

Lemma append_assoc (a b c : string) : (a ++ b) ++ c = a ++ b ++ c.
Proof. induction a as [|x a IH]; cbn; congruence. Qed.

(** [strip] leaves the join of two tidy, non-empty texts as it is. *)
Lemma strip_join (p j w : string) :
  tidy p -> p <> "" -> tidy w -> w <> "" -> Py.strip (p ++ j ++ w) = p ++ j ++ w.
Proof.
  intros Hp Hpn Hw Hwn.
  apply tidy_ends in Hp, Hw. destruct Hp as [Hp _], Hw as [_ Hw].
  unfold Py.strip. rewrite lstrip_app by auto.
  rewrite <- append_assoc, rstrip_app by congruence. rewrite Hw. reflexivity.
Qed.

Lemma isalpha_nonempty (s : string) : Py.isalpha s = true -> s <> "".
Proof. destruct s; [discriminate|discriminate]. Qed.

End StringFacts.

(** ** The fragment merger *)

Section MergeFacts.
Local Open Scope string_scope.

Lemma merge_loop_from (ws : list Span) :
  forall (done : list Span) (prev : Span),
    merge_loop (done ++ [prev])%list ws = Some (done ++ merge_from prev ws)%list.
Proof.
  induction ws as [|w ws IH]; intros done prev; cbn [merge_loop merge_from]; auto.
  unfold merge_word. rewrite last_item_snoc. cbn [Py.bind].
  rewrite removelast_snoc.
  destruct (should_merge prev w); cbn [Py.bind].
  - apply IH.
  - rewrite IH, <- app_assoc. reflexivity.
Qed.

Lemma merge_words_from (w0 : Span) (rest : list Span) :
  _merge_fragmented_words (w0 :: rest) = Some (merge_from w0 rest).
Proof. apply (merge_loop_from rest [] w0). Qed.

Lemma should_merge_iff (prev w : Span) :
  should_merge prev w = true <-> merge_condition prev w.
Proof.
  unfold should_merge, merge_condition, fragment_gap.
  rewrite andb_true_iff, !orb_true_iff, andb_true_iff, leb_true, !Nat.leb_le.
  tauto.
Qed.

Lemma absorb_joined (prev w : Span) :
  tidy (text prev) -> text prev <> "" -> tidy (text w) -> text w <> "" ->
  absorb prev w = joined prev w.
Proof.
  intros. unfold absorb, joined. f_equal.
  change (joiner prev w) with (separator prev w). apply strip_join; auto.
Qed.

Lemma merge_from_length (ws : list Span) :
  forall prev, (List.length (merge_from prev ws) <= S (List.length ws))%nat.
Proof.
  induction ws as [|w ws IH]; intro prev; cbn [merge_from List.length]; auto.
  destruct (should_merge prev w); cbn [List.length].
  - specialize (IH (absorb prev w)). lia.
  - specialize (IH w). lia.
Qed.

(** *** Characters that survive a merge *)

Lemma visible_app (a b : string) : visible (a ++ b) = visible a ++ visible b.
Proof.
  induction a as [|c a IH]; cbn [append visible]; auto.
  destruct (Py.is_space c); cbn [append]; congruence.
Qed.

Lemma visible_lstrip (s : string) : visible (Py.lstrip s) = visible s.
Proof.
  induction s as [|c s IH]; cbn [Py.lstrip visible]; auto.
  destruct (Py.is_space c) eqn:E; auto. cbn [visible]. rewrite E. reflexivity.
Qed.

Lemma visible_rstrip (s : string) : visible (Py.rstrip s) = visible s.
Proof.
  induction s as [|c s IH]; auto. rewrite rstrip_cons. cbn [visible].
  rewrite <- IH. destruct (Py.rstrip s) as [|d r].
  - destruct (Py.is_space c) eqn:E; cbn [visible]; auto. rewrite E. reflexivity.
  - reflexivity.
Qed.

Lemma visible_strip (s : string) : visible (Py.strip s) = visible s.
Proof. unfold Py.strip. rewrite visible_rstrip. apply visible_lstrip. Qed.

Lemma visible_joiner (prev w : Span) : visible (joiner prev w) = "".
Proof. unfold joiner. destruct (_ && _); reflexivity. Qed.

Lemma visible_absorb (prev w : Span) :
  visible (text (absorb prev w)) = visible (text prev) ++ visible (text w).
Proof.
  cbn [absorb text]. rewrite visible_strip, !visible_app, visible_joiner.
  reflexivity.
Qed.

Lemma visible_merge_from (ws : list Span) :
  forall prev,
    visible (texts (merge_from prev ws)) = visible (text prev ++ texts ws).
Proof.
  induction ws as [|w ws IH]; intro prev; cbn [merge_from texts]; auto.
  destruct (should_merge prev w).
  - rewrite IH, !visible_app, visible_absorb, append_assoc. reflexivity.
  - cbn [texts]. rewrite !visible_app, IH, visible_app. reflexivity.
Qed.

(** *** Copies with separators *)

Lemma copy_refl (s : string) : separated_copy s s.
Proof. induction s; constructor; auto. Qed.

Lemma copy_app (a a' b b' : string) :
  separated_copy a a' -> separated_copy b b' -> separated_copy (a ++ b) (a' ++ b').
Proof. induction 1; intro Hb; cbn [append]; auto; constructor; auto. Qed.

Lemma copy_trans (x y : string) :
  separated_copy x y -> forall z, separated_copy y z -> separated_copy x z.
Proof.
  induction 1 as [|c x y Hxy IH|x y Hxy IH]; intros z Hz; auto.
  - remember (String c y) as cy eqn:E.
    induction Hz as [|d y' z Hz _|y' z Hz IHz]; try discriminate.
    + injection E as -> ->. constructor. apply IH, Hz.
    + injection E as <- ->. constructor. apply IH, Hz.
  - constructor. apply IH, Hz.
Qed.

(** The text of a merged token copies the two texts it was made of. *)
Lemma absorb_copy (prev w : Span) :
  tidy (text prev) -> tidy (text w) ->
  separated_copy (text (absorb prev w)) (text prev ++ text w).
Proof.
  intros Hp Hw. cbn [absorb text]. unfold joiner.
  destruct (Py.isalpha (text prev) && Py.isalpha (text w)) eqn:Ea.
  - apply andb_true_iff in Ea. destruct Ea as [Ep Ew].
    apply isalpha_nonempty in Ep, Ew.
    rewrite strip_join by auto. apply copy_refl.
  - destruct (text prev) as [|c p] eqn:Ep.
    + cbn [append]. unfold Py.strip. cbn [Py.lstrip].
      change (Py.is_space " ") with true. cbv iota.
      fold (Py.strip (text w)). rewrite Hw. apply copy_refl.
    + destruct (text w) as [|d q] eqn:Ew.
      * destruct (tidy_ends _ Hp) as [Hl Hr].
        unfold Py.strip. rewrite lstrip_app by (auto; discriminate).
        rewrite rstrip_app_blank by reflexivity.
        rewrite Hr, append_nil_r. apply copy_refl.
      * rewrite strip_join by (auto; discriminate).
        apply copy_app; [apply copy_refl|].
        cbn [append]. apply copy_separator, copy_refl.
Qed.

Lemma copy_merge_from (ws : list Span) :
  forall prev,
    tidy (text prev) -> Forall (fun w => tidy (text w)) ws ->
    separated_copy (texts (merge_from prev ws)) (text prev ++ texts ws).
Proof.
  induction ws as [|w ws IH]; intros prev Hp Hws; cbn [merge_from texts].
  - apply copy_refl.
  - apply Forall_cons_iff in Hws. destruct Hws as [Hw Hws].
    destruct (should_merge prev w).
    + apply copy_trans with (y := text (absorb prev w) ++ texts ws).
      * apply IH; auto. apply strip_tidy.
      * rewrite <- append_assoc. apply copy_app; [|apply copy_refl].
        apply absorb_copy; auto.
    + cbn [texts]. apply copy_app; [apply copy_refl|]. apply IH; auto.
Qed.

End MergeFacts.

(** ** The layout composer *)

Lemma nearest_loop_bound (value : Q) (rest : list Q) :
  forall (i best_idx : nat) (best_dist : Q),
    (best_idx < i)%nat ->
    (nearest_loop value rest i best_idx best_dist < i + List.length rest)%nat.
Proof.
  induction rest as [|c rest IH]; intros i best_idx best_dist H;
    cbn [nearest_loop List.length].
  - lia.
  - destruct (Py.ltb (Py.abs (value - c)) best_dist).
    + specialize (IH (S i) i (Py.abs (value - c))). lia.
    + specialize (IH (S i) best_idx best_dist). lia.
Qed.

Lemma nearest_index_bound (value : Q) (centers : list Q) :
  centers <> [] -> (_nearest_index value centers < List.length centers)%nat.
Proof.
  destruct centers as [|c0 rest]; [congruence|]. intros _.
  unfold _nearest_index. cbn [List.length].
  pose proof (nearest_loop_bound value rest 1 0 (Py.abs (value - c0))). lia.
Qed.

Lemma chain_not_nil (tol : Q) (rest : list Q) :
  forall cur lastv, greedy_chain tol cur lastv rest <> [].
Proof.
  induction rest as [|v rest IH]; intros cur lastv; cbn [greedy_chain].
  - discriminate.
  - destruct (Qlt_le_dec tol (Qabs (v - lastv))); [discriminate|apply IH].
Qed.

Lemma cluster_1d_nonempty (values : list Q) (tol : Q) :
  values <> [] -> cluster_1d values tol <> [].
Proof.
  intro H. destruct (sorted_cases values H) as (v0 & rest & E).
  unfold cluster_1d. rewrite E. intro Hm. apply map_eq_nil in Hm.
  exact (chain_not_nil tol rest [v0] v0 Hm).
Qed.

(** *** The dict [lines_map] *)

Lemma setdefault_keys (k : nat) (w : Span) (m : list (nat * list Span)) :
  forall k', In k' (map fst (setdefault_append k w m))
             <-> k' = k \/ In k' (map fst m).
Proof.
  induction m as [|[k0 ws] m IH]; intro k'; cbn [setdefault_append map fst In].
  - intuition.
  - destruct (Nat.eqb_spec k0 k) as [->|Hne]; cbn [map fst In].
    + intuition.
    + rewrite IH. intuition.
Qed.

Lemma setdefault_nodup (k : nat) (w : Span) (m : list (nat * list Span)) :
  NoDup (map fst m) -> NoDup (map fst (setdefault_append k w m)).
Proof.
  induction m as [|[k0 ws] m IH]; intro H; cbn [setdefault_append map fst].
  - repeat constructor. intros [].
  - apply NoDup_cons_iff in H. destruct H as [Hin Hnd].
    destruct (Nat.eqb_spec k0 k) as [->|Hne]; cbn [map fst].
    + constructor; auto.
    + constructor; auto. rewrite setdefault_keys. intuition.
Qed.

Lemma setdefault_words (k : nat) (w : Span) (m : list (nat * list Span)) :
  Permutation (List.concat (map snd (setdefault_append k w m)))
              (w :: List.concat (map snd m)).
Proof.
  induction m as [|[k0 ws] m IH]; cbn [setdefault_append map snd List.concat].
  - reflexivity.
  - destruct (k0 =? k)%nat; cbn [map snd List.concat].
    + change (w :: ws ++ List.concat (map snd m))
        with ((w :: ws) ++ List.concat (map snd m)).
      apply Permutation_app_tail. symmetry. apply Permutation_cons_append.
    + rewrite IH. symmetry. apply Permutation_middle.
Qed.

Lemma lines_map_from (centers : list Q) (free_words : list Span) :
  forall m,
    NoDup (map fst m) ->
    Forall (fun k => (k < List.length centers)%nat) (map fst m) ->
    centers <> [] ->
    let m' :=
      fold_left (fun m w => setdefault_append (_nearest_index (y0 w) centers) w m)
                free_words m in
    NoDup (map fst m')
    /\ Forall (fun k => (k < List.length centers)%nat) (map fst m')
    /\ Permutation (List.concat (map snd m'))
                   (List.concat (map snd m) ++ free_words).
Proof.
  induction free_words as [|w ws IH]; intros m Hnd Hk Hc; cbn [fold_left].
  - rewrite app_nil_r. auto.
  - destruct (IH (setdefault_append (_nearest_index (y0 w) centers) w m))
      as (H1 & H2 & H3); auto.
    + apply setdefault_nodup, Hnd.
    + apply Forall_forall. intros k Hin. apply setdefault_keys in Hin.
      destruct Hin as [->|Hin].
      * apply nearest_index_bound, Hc.
      * rewrite Forall_forall in Hk. auto.
    + repeat split; auto. rewrite H3.
      rewrite setdefault_words. apply Permutation_middle.
Qed.

Lemma build_lines_map_spec (centers : list Q) (free_words : list Span) :
  centers <> [] ->
  NoDup (map fst (build_lines_map centers free_words))
  /\ Forall (fun k => (k < List.length centers)%nat)
            (map fst (build_lines_map centers free_words))
  /\ Permutation (List.concat (map snd (build_lines_map centers free_words)))
                 free_words.
Proof.
  intro Hc. apply (lines_map_from centers free_words []); auto; constructor.
Qed.

(** *** Free words *)

Lemma free_words_filter (regions : list BBox) (words : list RawWord) :
  free_words_of regions words
  = map span_of
      (filter (fun w => negb (blank w) && negb (in_some_region regions w)) words).
Proof.
  induction words as [|w words IH]; cbn [free_words_of filter map]; auto.
  unfold blank at 1, in_some_region at 1.
  destruct (String.eqb (Py.strip (rtext w)) "") eqn:Eb; cbn [negb andb]; auto.
  destruct (center w) as [cx cy].
  destruct (_inside_table regions cx cy); cbn [negb map]; auto.
  rewrite IH. reflexivity.
Qed.

Lemma free_words_visible (regions : list BBox) (words : list RawWord) :
  free_words_of regions (visible_tokens words) = free_words_of regions words.
Proof.
  rewrite !free_words_filter. f_equal. unfold visible_tokens.
  induction words as [|w words IH]; cbn [filter]; auto.
  destruct (blank w) eqn:E; cbn [negb andb filter]; auto.
  rewrite E. cbn [negb andb]. rewrite IH. reflexivity.
Qed.

Lemma free_words_texts (regions : list BBox) (words : list RawWord) :
  Forall (fun s => text s <> ""%string /\ tidy (text s)) (free_words_of regions words).
Proof.
  rewrite free_words_filter. apply Forall_map, Forall_forall.
  intros w Hin. apply filter_In in Hin. destruct Hin as [_ H].
  apply andb_true_iff in H. destruct H as [H _].
  cbn [span_of text]. split; [|apply strip_tidy].
  unfold blank in H. apply negb_true_iff in H.
  apply String.eqb_neq in H. exact H.
Qed.

(** *** Lines *)

Lemma merge_words_total (ws : list Span) :
  _merge_fragmented_words ws = Some (merged_words ws).
Proof. destruct ws; [reflexivity|apply merge_words_from]. Qed.

Lemma line_element_of (centers : list Q) (entry : nat * list Span) :
  (fst entry < List.length centers)%nat ->
  line_element centers entry = Some (line_of centers entry).
Proof.
  destruct entry as [ridx ws]. cbn [fst]. intro H.
  unfold line_element, line_of. rewrite merge_words_total. cbn [Py.bind fst snd].
  unfold Py.item. rewrite (nth_error_nth' centers 0 H). reflexivity.
Qed.

Lemma line_elements_spec (free_words : list Span) :
  let centers := cluster_1d (map y0 free_words) line_tolerance in
  line_elements free_words
  = Some (map (line_of centers) (build_lines_map centers free_words)).
Proof.
  destruct free_words as [|w ws]; [reflexivity|].
  cbv zeta. set (fw := w :: ws). unfold line_elements.
  change (match fw with [] => Some [] | _ :: _ => ?r end) with r.
  rewrite cluster_positions_refines. cbn [Py.bind].
  apply comprehension_total.
  destruct (build_lines_map_spec (cluster_1d (map y0 fw) line_tolerance) fw)
    as (_ & Hk & _).
  { apply cluster_1d_nonempty. discriminate. }
  rewrite Forall_map in Hk. apply Forall_impl with (2 := Hk).
  intros entry. apply line_element_of.
Qed.

Lemma page_lines_spec (page : Page) :
  line_elements (page_free_words page) = Some (page_lines page).
Proof. apply line_elements_spec. Qed.

Lemma page_elements_spec (page : Page) :
  page_elements page = Some (Py.sort el_y (page_tables page ++ page_lines page)).
Proof. unfold page_elements. rewrite page_lines_spec. reflexivity. Qed.

Lemma page_tables_are_tables (page : Page) : Forall is_table (page_tables page).
Proof.
  apply Forall_map, Forall_forall. intros t _. unfold table_element.
  destruct (tbbox t) as [[[? ?] ?] ?]. exact I.
Qed.

Lemma page_lines_are_lines (page : Page) : Forall is_line (page_lines page).
Proof. apply Forall_map, Forall_forall. intros g _. exact I. Qed.

(** *** Tokens and regions *)

Lemma filter_split {A : Type} (p q : A -> bool) (l : list A) :
  Permutation (filter p l)
              (filter (fun x => p x && negb (q x)) l ++ filter (fun x => p x && q x) l).
Proof.
  induction l as [|x l IH]; cbn [filter]; auto.
  destruct (p x), (q x); cbn [andb negb app]; auto.
  rewrite IH. apply Permutation_middle.
Qed.

Lemma in_some_region_exists (regions : list BBox) (w : RawWord) :
  in_some_region regions w = existsb (fun b => center_in b w) regions.
Proof.
  unfold in_some_region, center_in, _inside_table.
  destruct (center w) as [cx cy]. reflexivity.
Qed.

Lemma outside_no_region (regions : list BBox) (w : RawWord) :
  in_some_region regions w = false -> regions_containing regions w = [].
Proof.
  rewrite in_some_region_exists. unfold regions_containing.
  induction regions as [|b regions IH]; cbn [existsb filter]; auto.
  destruct (center_in b w); cbn [orb]; [discriminate|auto].
Qed.

Lemma inside_some_region (regions : list BBox) (w : RawWord) :
  in_some_region regions w = true ->
  (1 <= List.length (regions_containing regions w))%nat.
Proof.
  rewrite in_some_region_exists. unfold regions_containing.
  induction regions as [|b regions IH]; cbn [existsb filter]; [discriminate|].
  destruct (center_in b w); cbn [orb List.length]; [lia|auto].
Qed.

Lemma page_line_groups_spec (page : Page) :
  NoDup (map fst (page_line_groups page))
  /\ Permutation (List.concat (map snd (page_line_groups page))) (page_free_words page).
Proof.
  unfold page_line_groups, page_centers.
  destruct (page_free_words page) as [|w ws] eqn:E.
  - cbn. split; constructor.
  - destruct (build_lines_map_spec
                (cluster_1d (map y0 (w :: ws)) line_tolerance) (w :: ws))
      as (H1 & _ & H3); auto.
    apply cluster_1d_nonempty. discriminate.
Qed.

(** *** Order of the sorted elements *)

Lemma sorted_before {A : Type} (key : A -> Q) (pre mid post : list A) (a b : A) :
  Sorted (key_le key) (pre ++ a :: mid ++ b :: post) -> key a <= key b.
Proof.
  intro H. apply Sorted_StronglySorted in H.
  - induction pre as [|x pre IH]; cbn [app] in H.
    + apply StronglySorted_inv in H. destruct H as [_ H].
      rewrite Forall_forall in H. apply (H b).
      apply in_or_app. right. left. reflexivity.
    + apply StronglySorted_inv in H. destruct H as [H _]. auto.
  - intros x y z Hxy Hyz. unfold key_le in *. lra.
Qed.

(** In a list made of tables followed by lines, what follows a line is a
    line. *)
Lemma tables_then_lines (ts ls pre rest : list Element) (a b : Element) :
  Forall is_table ts -> Forall is_line ls ->
  pre ++ a :: rest = ts ++ ls -> In b rest -> is_line a -> is_line b.
Proof.
  intros Ht Hl E Hb Ha. rewrite Forall_forall in Ht, Hl.
  apply app_eq_app in E. destruct E as (l & [[-> E]|[-> E]]).
  - apply Hl. rewrite E. apply in_or_app. right. right. exact Hb.
  - destruct l as [|x l]; cbn [app] in E.
    + apply Hl. rewrite <- E. right. exact Hb.
    + injection E as <- E. exfalso.
      assert (Hx : is_table a) by (apply Ht, in_or_app; right; left; reflexivity).
      destruct a; contradiction.
Qed.

Lemma filter_middle {A : Type} (p : A -> bool) (pre mid post : list A) (a b : A) :
  p a = true -> p b = true ->
  exists rest,
    filter p (pre ++ a :: mid ++ b :: post) = filter p pre ++ a :: rest /\ In b rest.
Proof.
  intros Ha Hb. exists (filter p mid ++ b :: filter p post).
  rewrite filter_app. cbn [filter]. rewrite Ha, filter_app. cbn [filter]. rewrite Hb.
  split; auto. apply in_or_app. right. left. reflexivity.
Qed.
(** ** Binary64 arithmetic *)

Section Binary64.
Local Open Scope float_scope.

(** *** Comparisons *)

Lemma SFcompare_antisym (x y : spec_float) :
  SFcompare y x = match SFcompare x y with Some c => Some (CompOpp c) | None => None end.
Proof.
  destruct x as [sx|sx| |sx mx ex], y as [sy|sy| |sy my ey]; simpl; try reflexivity;
    try (destruct sx; reflexivity); try (destruct sy; reflexivity);
    try (destruct sx, sy; reflexivity).
  destruct sx, sy; try reflexivity.
  - rewrite (Z.compare_antisym ey ex).
    destruct (ey ?= ex)%Z eqn:E; simpl; try reflexivity.
    rewrite (Pos.compare_cont_antisym mx my Eq). reflexivity.
  - rewrite (Z.compare_antisym ey ex).
    destruct (ey ?= ex)%Z eqn:E; simpl; try reflexivity.
    rewrite (Pos.compare_cont_antisym mx my Eq). reflexivity.
Qed.

Lemma SFcompare_defined (x y : spec_float) :
  x <> S754_nan -> y <> S754_nan -> SFcompare x y <> None.
Proof.
  destruct x, y; simpl; congruence.
Qed.

(** [x < y] excludes [y <= x]. *)
Lemma f64_ltb_not_leb (x y : float) : (x <? y) = true -> (y <=? x) = false.
Proof.
  rewrite ltb_spec, leb_spec. unfold SFltb, SFleb.
  rewrite (SFcompare_antisym (Prim2SF x) (Prim2SF y)).
  destruct (SFcompare (Prim2SF x) (Prim2SF y)) as [[]|]; simpl; congruence.
Qed.

Lemma f64_ltb_leb (x y : float) : (x <? y) = true -> (x <=? y) = true.
Proof.
  rewrite ltb_spec, leb_spec. unfold SFltb, SFleb.
  destruct (SFcompare (Prim2SF x) (Prim2SF y)) as [[]|]; simpl; congruence.
Qed.

Lemma f64_leb_not_ltb (x y : float) : (x <=? y) = true -> (y <? x) = false.
Proof.
  intro H. destruct (y <? x) eqn:E; auto.
  apply f64_ltb_not_leb in E. congruence.
Qed.

(** Between two numbers, [x <= y] is the negation of [y < x]. *)
Lemma f64_leb_negb_ltb (x y : float) :
  Prim2SF x <> S754_nan -> Prim2SF y <> S754_nan -> (x <=? y) = negb (y <? x).
Proof.
  intros Hx Hy. rewrite ltb_spec, leb_spec. unfold SFltb, SFleb.
  rewrite (SFcompare_antisym (Prim2SF x) (Prim2SF y)).
  pose proof (SFcompare_defined _ _ Hx Hy) as D.
  destruct (SFcompare (Prim2SF x) (Prim2SF y)) as [[]|]; simpl; congruence.
Qed.

Lemma f64_not_nan (x : float) : is_nan x = false -> Prim2SF x <> S754_nan.
Proof.
  unfold is_nan. rewrite eqb_spec. intros H E. rewrite E in H. discriminate H.
Qed.

Lemma f64_finite_cases (x : float) :
  F64.finite x ->
  (exists s, Prim2SF x = S754_zero s) \/ (exists s m e, Prim2SF x = S754_finite s m e).
Proof.
  unfold F64.finite, is_finite, is_nan, is_infinity.
  rewrite !eqb_spec, abs_spec. intro H.
  destruct (Prim2SF x) as [s|s| |s m e]; eauto.
  - destruct s; vm_compute in H; discriminate H.
  - vm_compute in H. discriminate H.
Qed.

(** *** Rounding never invents a NaN *)

Lemma shr_1_nonneg (mrs : shr_record) : (0 <= shr_m mrs)%Z -> (0 <= shr_m (shr_1 mrs))%Z.
Proof.
  destruct mrs as [m r s]. destruct m as [|[p|p|]|[p|p|]]; simpl; lia.
Qed.

Lemma iter_shr_1_nonneg (p : positive) :
  forall mrs, (0 <= shr_m mrs)%Z -> (0 <= shr_m (iter_pos shr_1 p mrs))%Z.
Proof.
  induction p as [p IH|p IH|]; intros mrs H; cbn [iter_pos].
  - apply IH, IH, shr_1_nonneg, H.
  - apply IH, IH, H.
  - apply shr_1_nonneg, H.
Qed.

Lemma shr_fexp_nonneg (m e : Z) (l : location) :
  (0 <= m)%Z -> (0 <= shr_m (fst (shr_fexp prec emax m e l)))%Z.
Proof.
  intro H. unfold shr_fexp, shr.
  assert (H0 : (0 <= shr_m (shr_record_of_loc m l))%Z).
  { destruct l as [|[]]; exact H. }
  destruct (fexp prec emax (Zdigits2 m + e) - e)%Z; cbn [fst]; auto.
  apply iter_shr_1_nonneg, H0.
Qed.

Lemma round_nearest_even_nonneg (m : Z) (l : location) :
  (0 <= m)%Z -> (0 <= round_nearest_even m l)%Z.
Proof.
  intro H. destruct l as [|[]]; cbn [round_nearest_even]; try lia.
  destruct (Z.even m); lia.
Qed.

Lemma binary_round_aux_not_nan (s : bool) (m e : Z) (l : location) :
  (0 <= m)%Z -> binary_round_aux prec emax s m e l <> S754_nan.
Proof.
  intro H. unfold binary_round_aux.
  pose proof (shr_fexp_nonneg m e l H) as H1.
  destruct (shr_fexp prec emax m e l) as [mrs' e']. cbn [fst] in H1.
  pose proof (shr_fexp_nonneg _ e' loc_Exact
                (round_nearest_even_nonneg _ (loc_of_shr_record mrs') H1)) as H2.
  destruct (shr_fexp prec emax (round_nearest_even (shr_m mrs') (loc_of_shr_record mrs'))
              e' loc_Exact) as [mrs'' e'']. cbn [fst] in H2.
  destruct (shr_m mrs''); try discriminate; try lia.
  destruct (e'' <=? emax - prec)%Z; discriminate.
Qed.

Lemma binary_normalize_not_nan (m e : Z) (s : bool) :
  binary_normalize prec emax m e s <> S754_nan.
Proof.
  unfold binary_normalize, binary_round. destruct m; try discriminate.
  - destruct (shl_align p e _). apply binary_round_aux_not_nan. lia.
  - destruct (shl_align p e _). apply binary_round_aux_not_nan. lia.
Qed.

(** The difference of two numbers is a number or an infinity. *)
Lemma f64_sub_not_nan (x y : float) :
  F64.finite x -> F64.finite y -> Prim2SF (abs (x - y)) <> S754_nan.
Proof.
  intros Hx Hy. rewrite abs_spec, sub_spec.
  destruct (f64_finite_cases x Hx) as [(sx & Ex)|(sx & mx & ex & Ex)];
  destruct (f64_finite_cases y Hy) as [(sy & Ey)|(sy & my & ey & Ey)];
  rewrite Ex, Ey.
  - destruct sx, sy; discriminate.
  - discriminate.
  - discriminate.
  - unfold SF64sub, SFsub.
    match goal with |- SFabs ?t <> _ =>
      pose proof (binary_normalize_not_nan
        (cond_Zopp sx (Zpos (fst (shl_align mx ex (Z.min ex ey))))
         - cond_Zopp sy (Zpos (fst (shl_align my ey (Z.min ex ey)))))%Z
        (Z.min ex ey) false) as N
    end.
    destruct (binary_normalize _ _ _ _ _); try discriminate. congruence.
Qed.

(** *** Exact operations *)

(** The canonical form of a finite binary64 number. *)
Lemma bounded_canonical (m : positive) (e : Z) :
  bounded prec emax m e = true ->
  (Z.max (Zpos (digits2_pos m) + e - 53) (-1074) = e /\ e <= 971)%Z.
Proof.
  unfold bounded, canonical_mantissa, fexp, emin, prec, emax.
  intros H. apply andb_prop in H. destruct H as [H1 H2].
  apply Z.eqb_eq in H1. apply Z.leb_le in H2. simpl in *. lia.
Qed.

Lemma shr_fexp_canonical (m : positive) (e : Z) :
  (Z.max (Zpos (digits2_pos m) + e - 53) (-1074) = e)%Z ->
  shr_fexp prec emax (Zpos m) e loc_Exact
  = ({| shr_m := Zpos m; shr_r := false; shr_s := false |}, e).
Proof.
  intros H. unfold shr_fexp, fexp, emin, prec, emax. simpl Zdigits2.
  replace (Z.max (Zpos (digits2_pos m) + e - 53) (3 - 1024 - 53) - e)%Z with 0%Z by lia.
  reflexivity.
Qed.

Lemma binary_round_aux_canonical (s : bool) (m : positive) (e : Z) :
  bounded prec emax m e = true ->
  binary_round_aux prec emax s (Zpos m) e loc_Exact = S754_finite s m e.
Proof.
  intros H. destruct (bounded_canonical m e H) as [Hc He].
  unfold binary_round_aux. rewrite (shr_fexp_canonical m e Hc).
  cbn [shr_m loc_of_shr_record round_nearest_even].
  rewrite (shr_fexp_canonical m e Hc). cbn [shr_m].
  unfold prec, emax. replace (e <=? 1024 - 53)%Z with true; [reflexivity|].
  symmetry. apply Z.leb_le. lia.
Qed.

Lemma div_eucl_exact (a b : Z) : (0 < b)%Z -> Z.div_eucl (a * b) b = (a, 0%Z).
Proof.
  intros Hb.
  assert (E : Z.div_eucl (a * b) b = ((a * b) / b, (a * b) mod b)%Z).
  { unfold Z.div, Z.modulo. destruct (Z.div_eucl (a * b) b). reflexivity. }
  rewrite E, Z.div_mul, Z.mod_mul by lia. reflexivity.
Qed.

Lemma new_location_exact (n : Z) : new_location n 0 = loc_Exact.
Proof.
  unfold new_location, new_location_even, new_location_odd.
  destruct (Z.even n); reflexivity.
Qed.

(** [x / x] is [1] for a finite non-zero [x]. *)
Lemma SFdiv_self (s : bool) (m : positive) (e : Z) :
  SFdiv prec emax (S754_finite s m e) (S754_finite s m e) = Prim2SF 1.
Proof.
  unfold SFdiv, SFdiv_core_binary.
  replace (Zdigits2 (Zpos m) + e - (Zdigits2 (Zpos m) + e))%Z with 0%Z by lia.
  replace (e - e)%Z with 0%Z by lia.
  change (Z.min (fexp prec emax 0) 0) with (-53)%Z.
  change (0 - -53)%Z with 53%Z. cbv iota beta.
  rewrite Z.shiftl_mul_pow2 by lia.
  replace (Zpos m * 2 ^ 53)%Z with (2 ^ 53 * Zpos m)%Z by lia.
  rewrite div_eucl_exact by lia.
  rewrite new_location_exact. rewrite xorb_nilpotent.
  reflexivity.
Qed.

Lemma f64_div_self (x : float) (s : bool) (m : positive) (e : Z) :
  Prim2SF x = S754_finite s m e -> x / x = 1.
Proof.
  intros E. apply Prim2SF_inj. rewrite div_spec, E. apply SFdiv_self.
Qed.

(** [x / 1] is [x]. *)
Lemma SFdiv_one (s : bool) (m : positive) (e : Z) :
  bounded prec emax m e = true ->
  SFdiv prec emax (S754_finite s m e) (Prim2SF 1) = S754_finite s m e.
Proof.
  intros H. destruct (bounded_canonical m e H) as [Hc He].
  change (Prim2SF 1) with (S754_finite false 4503599627370496 (-52)).
  unfold SFdiv, SFdiv_core_binary. rewrite xorb_false_r.
  change (Zdigits2 4503599627370496 + -52)%Z with 1%Z.
  cbn [Zdigits2]. unfold fexp, emin, prec, emax.
  destruct (Z.eq_dec e (-1074)) as [Ee|Ee].
  - replace (Z.min (Z.max (Zpos (digits2_pos m) + e - 1 - 53) (3 - 1024 - 53)) (e - -52))%Z
      with e by lia.
    replace (e - -52 - e)%Z with 52%Z by lia. cbv iota beta.
    rewrite Z.shiftl_mul_pow2 by lia.
    change (2 ^ 52)%Z with 4503599627370496%Z.
    rewrite div_eucl_exact by lia. rewrite new_location_exact.
    apply binary_round_aux_canonical. exact H.
  - replace (Z.min (Z.max (Zpos (digits2_pos m) + e - 1 - 53) (3 - 1024 - 53)) (e - -52))%Z
      with (e - 1)%Z by lia.
    replace (e - -52 - (e - 1))%Z with 53%Z by lia. cbv iota beta.
    rewrite Z.shiftl_mul_pow2 by lia.
    replace (Zpos m * 2 ^ 53)%Z with (Zpos m~0 * 4503599627370496)%Z by lia.
    rewrite div_eucl_exact by lia. rewrite new_location_exact.
    unfold binary_round_aux, shr_fexp, fexp, emin, prec, emax. cbn [Zdigits2 digits2_pos].
    replace (Z.max (Zpos (Pos.succ (digits2_pos m)) + (e - 1) - 53) (3 - 1024 - 53) - (e - 1))%Z
      with 1%Z by lia.
    cbn [shr shr_record_of_loc iter_pos shr_1 shr_m loc_of_shr_record round_nearest_even Zdigits2 orb].
    replace (e - 1 + 1)%Z with e by lia.
    replace (Z.max (Zpos (digits2_pos m) + e - 53) (3 - 1024 - 53) - e)%Z with 0%Z by lia.
    cbn [shr shr_m].
    replace (e <=? 1024 - 53)%Z with true; [reflexivity|].
    symmetry. apply Z.leb_le. lia.
Qed.

Lemma f64_div_one (x : float) : x / 1 = x.
Proof.
  apply Prim2SF_inj. rewrite div_spec.
  pose proof (Prim2SF_valid x) as V.
  destruct (Prim2SF x) as [s|s| |s m e] eqn:E.
  - destruct s; reflexivity.
  - destruct s; reflexivity.
  - reflexivity.
  - apply SFdiv_one. exact V.
Qed.

Lemma shl_align_same (m : positive) (e : Z) : shl_align m e e = (m, e).
Proof. unfold shl_align. rewrite Z.sub_diag. reflexivity. Qed.

(** [x + x] for a positive finite [x]: the exponent goes up by one, or the
    mantissa doubles below the normal range, or the sum overflows. *)
Lemma SFadd_self (m : positive) (e : Z) :
  bounded prec emax m e = true ->
  SFadd prec emax (S754_finite false m e) (S754_finite false m e)
  = if Z.eq_dec e (-1074)
    then (if (Zpos (digits2_pos m) <? 53)%Z
          then S754_finite false (xO m) e
          else S754_finite false m (e + 1))
    else if (e + 1 <=? 971)%Z then S754_finite false m (e + 1)
         else S754_infinity false.
Proof.
  intros H. destruct (bounded_canonical m e H) as [Hc He].
  unfold SFadd. rewrite Z.min_id, shl_align_same. cbn [fst cond_Zopp].
  replace (Zpos m + Zpos m)%Z with (Zpos m~0) by lia.
  unfold binary_normalize, binary_round. cbn [digits2_pos].
  unfold fexp, emin, prec, emax.
  assert (S : shl_align (xO m) e (Z.max (Zpos (Pos.succ (digits2_pos m)) + e - 53) (3 - 1024 - 53))
              = (xO m, e)).
  { unfold shl_align.
    destruct (Z.max (Zpos (Pos.succ (digits2_pos m)) + e - 53) (3 - 1024 - 53) - e)%Z eqn:E;
      try reflexivity. lia. }
  rewrite S. clear S.
  unfold binary_round_aux, shr_fexp, fexp, emin, prec, emax. cbn [Zdigits2 digits2_pos].
  destruct (Z.eq_dec e (-1074)) as [Ee|Ee].
  - destruct (Zpos (digits2_pos m) <? 53)%Z eqn:Ed.
    + apply Z.ltb_lt in Ed.
      replace (Z.max (Zpos (Pos.succ (digits2_pos m)) + e - 53) (3 - 1024 - 53) - e)%Z
        with 0%Z by lia.
      cbn [shr shr_record_of_loc shr_m loc_of_shr_record round_nearest_even Zdigits2 digits2_pos orb].
      replace (Z.max (Zpos (Pos.succ (digits2_pos m)) + e - 53) (3 - 1024 - 53) - e)%Z
        with 0%Z by lia.
      cbn [shr shr_m].
      replace (e <=? 1024 - 53)%Z with true; [reflexivity|].
      symmetry. apply Z.leb_le. lia.
    + apply Z.ltb_ge in Ed.
      replace (Z.max (Zpos (Pos.succ (digits2_pos m)) + e - 53) (3 - 1024 - 53) - e)%Z
        with 1%Z by lia.
      cbn [shr shr_record_of_loc iter_pos shr_1 shr_m loc_of_shr_record round_nearest_even Zdigits2 orb].
      replace (Z.max (Zpos (digits2_pos m) + (e + 1) - 53) (3 - 1024 - 53) - (e + 1))%Z
        with 0%Z by lia.
      cbn [shr shr_m].
      replace (e + 1 <=? 1024 - 53)%Z with true; [reflexivity|].
      symmetry. apply Z.leb_le. lia.
  - replace (Z.max (Zpos (Pos.succ (digits2_pos m)) + e - 53) (3 - 1024 - 53) - e)%Z
      with 1%Z by lia.
    cbn [shr shr_record_of_loc iter_pos shr_1 shr_m loc_of_shr_record round_nearest_even Zdigits2 orb].
    replace (Z.max (Zpos (digits2_pos m) + (e + 1) - 53) (3 - 1024 - 53) - (e + 1))%Z
      with 0%Z by lia.
    cbn [shr shr_m]. reflexivity.
Qed.

Lemma SFsub_double (m : positive) (e : Z) :
  bounded prec emax m e = true ->
  SFsub prec emax (S754_finite false (xO m) e) (S754_finite false m e) = S754_finite false m e.
Proof.
  intros H. unfold SFsub. rewrite Z.min_id, !shl_align_same. cbn [fst cond_Zopp].
  replace (Zpos m~0 - Zpos m)%Z with (Zpos m) by lia.
  unfold binary_normalize, binary_round.
  destruct (bounded_canonical m e H) as [Hc He].
  unfold fexp, emin, prec, emax.
  replace (Z.max (Zpos (digits2_pos m) + e - 53) (3 - 1024 - 53))%Z with e by lia.
  rewrite shl_align_same. apply binary_round_aux_canonical. exact H.
Qed.

Lemma SFsub_next (m : positive) (e : Z) :
  bounded prec emax m e = true ->
  SFsub prec emax (S754_finite false m (e + 1)) (S754_finite false m e) = S754_finite false m e.
Proof.
  intros H. unfold SFsub.
  replace (Z.min (e + 1) e) with e by lia.
  rewrite shl_align_same.
  assert (S : shl_align m (e + 1) e = (xO m, e)).
  { unfold shl_align. replace (e - (e + 1))%Z with (-1)%Z by lia. reflexivity. }
  rewrite S. cbn [fst cond_Zopp].
  replace (Zpos m~0 - Zpos m)%Z with (Zpos m) by lia.
  unfold binary_normalize, binary_round.
  destruct (bounded_canonical m e H) as [Hc He].
  unfold fexp, emin, prec, emax.
  replace (Z.max (Zpos (digits2_pos m) + e - 53) (3 - 1024 - 53))%Z with e by lia.
  rewrite shl_align_same. apply binary_round_aux_canonical. exact H.
Qed.

(** A number above zero is finite and positive, or [+infinity]. *)
Lemma f64_positive_cases (x : float) :
  (0 <? x) = true ->
  (exists m e, Prim2SF x = S754_finite false m e) \/ Prim2SF x = S754_infinity false.
Proof.
  rewrite ltb_spec. change (Prim2SF 0) with (S754_zero false). unfold SFltb.
  destruct (Prim2SF x) as [s|s| |s m e]; simpl; try discriminate.
  - destruct s; [discriminate|]. right. reflexivity.
  - destruct s; [discriminate|]. left. eauto.
Qed.

(** [(x + x) - x] is [x] for a positive [x] whose double is finite. *)
Lemma f64_add_self_sub (x : float) :
  (0 <? x) = true -> (x + x <? infinity) = true -> x + x - x = x.
Proof.
  intros Hp Hf. apply Prim2SF_inj.
  rewrite ltb_spec, add_spec in Hf. rewrite sub_spec, add_spec.
  pose proof (Prim2SF_valid x) as V.
  destruct (f64_positive_cases x Hp) as [(m & e & E)|E]; rewrite E in *.
  - unfold SF64add in *. rewrite (SFadd_self m e V) in *.
    destruct (Z.eq_dec e (-1074)).
    + destruct (Zpos (digits2_pos m) <? 53)%Z.
      * apply SFsub_double. exact V.
      * apply SFsub_next. exact V.
    + destruct (e + 1 <=? 971)%Z.
      * apply SFsub_next. exact V.
      * discriminate Hf.
  - discriminate Hf.
Qed.

(** [0.0 + x] is [x], except that [0.0 + -0.0] is [0.0]. *)
Lemma f64_zero_add (c : float) : c <> neg_zero -> 0 + c = c.
Proof.
  intros H. apply Prim2SF_inj. rewrite add_spec.
  change (Prim2SF 0) with (S754_zero false).
  destruct (Prim2SF c) as [s|s| |s m e] eqn:E; try reflexivity.
  destruct s; try reflexivity.
  exfalso. apply H. apply Prim2SF_inj. rewrite E. reflexivity.
Qed.

Lemma f64_not_negative_zero (c : float) : F64.negative_zero c = false -> c <> neg_zero.
Proof. intros H E. rewrite E in H. discriminate H. Qed.

(** The mean of a cluster of one value is that value. *)
Lemma f64_mean_singleton (c : float) : F64.negative_zero c = false -> F64.mean [c] = Some c.
Proof.
  intro H. unfold F64.mean, F64.sum, F64.len. cbn [fold_left List.length].
  change (of_uint63 (Uint63.of_Z (Z.of_nat 1))) with 1.
  rewrite (f64_zero_add c (f64_not_negative_zero c H)), f64_div_one. reflexivity.
Qed.

End Binary64.

(** ** Clustering in binary64 *)

Section ClusterBinary64.
Local Open Scope float_scope.

Lemma f64_insert_perm (x : float) (l : list float) : Permutation (F64.insert x l) (x :: l).
Proof.
  induction l as [|y l IH]; simpl; auto.
  destruct (y <? x); auto.
  rewrite IH. apply perm_swap.
Qed.

Lemma f64_sorted_perm (l : list float) : Permutation (F64.sorted l) l.
Proof.
  induction l as [|x l IH]; simpl; auto.
  rewrite f64_insert_perm. auto.
Qed.

Lemma f64_sorted_nil_inv (l : list float) : F64.sorted l = [] -> l = [].
Proof.
  intro H. apply Permutation_nil. rewrite <- H. apply f64_sorted_perm.
Qed.

Lemma f64_finite_leb (x y : float) :
  F64.finite x -> F64.finite y -> (y <? x) = false -> (x <=? y) = true.
Proof.
  intros Hx Hy H. rewrite f64_leb_negb_ltb, H; auto.
  - destruct (f64_finite_cases x Hx) as [(s & E)|(s & m & e & E)]; rewrite E; discriminate.
  - destruct (f64_finite_cases y Hy) as [(s & E)|(s & m & e & E)]; rewrite E; discriminate.
Qed.

Lemma f64_insert_sorted (x : float) (l : list float) :
  F64.finite x -> Forall F64.finite l ->
  F64.ascending l -> F64.ascending (F64.insert x l).
Proof.
  unfold F64.ascending. intros Hx Hl Hs.
  induction l as [|y l IH]; simpl.
  - repeat constructor.
  - apply Forall_cons_iff in Hl. destruct Hl as [Hy Hl].
    apply Sorted_inv in Hs. destruct Hs as [Hs Hhd].
    destruct (y <? x) eqn:E.
    + constructor; [apply IH; auto|].
      destruct l as [|z l]; simpl.
      * constructor. apply f64_ltb_leb, E.
      * destruct (z <? x); constructor.
        -- apply HdRel_inv in Hhd. exact Hhd.
        -- apply f64_ltb_leb, E.
    + constructor; [constructor; auto|]. constructor. apply f64_finite_leb; auto.
Qed.

Lemma f64_sorted_ascending (l : list float) :
  Forall F64.finite l -> F64.ascending (F64.sorted l).
Proof.
  induction 1 as [|x l Hx Hl IH]; simpl.
  - constructor.
  - apply f64_insert_sorted; auto.
    apply (Permutation_Forall (Permutation_sym (f64_sorted_perm l))), Hl.
Qed.

(** Sorting an ascending list changes nothing. *)
Lemma f64_sorted_of_ascending (l : list float) : F64.ascending l -> F64.sorted l = l.
Proof.
  unfold F64.ascending. induction l as [|x l IH]; intro Hs; simpl; auto.
  apply Sorted_inv in Hs. destruct Hs as [Hs Hhd].
  rewrite (IH Hs). destruct l as [|y l]; simpl; auto.
  apply HdRel_inv in Hhd. rewrite (f64_leb_not_ltb _ _ Hhd). reflexivity.
Qed.

(** *** The loop and the greedy chain *)

Lemma f64_within_tolerance (tol v lastv : float) :
  is_nan tol = false -> F64.finite v -> F64.finite lastv ->
  (abs (v - lastv) <=? tol) = negb (tol <? abs (v - lastv)).
Proof.
  intros Ht Hv Hl. apply f64_leb_negb_ltb.
  - apply f64_sub_not_nan; auto.
  - apply f64_not_nan, Ht.
Qed.

Lemma f64_cluster_append_snoc (tol : float) (done : list (list float))
  (cur : list float) (lastv v : float) :
  is_nan tol = false -> F64.finite v -> F64.finite lastv ->
  Py.last_item cur = Some lastv ->
  F64.cluster_append tol (done ++ [cur]) v =
  Some (if tol <? abs (v - lastv)
        then (done ++ [cur]) ++ [[v]]
        else done ++ [cur ++ [v]]).
Proof.
  intros Ht Hv Hf Hl. unfold F64.cluster_append.
  rewrite last_item_snoc. cbn [Py.bind]. rewrite Hl. cbn [Py.bind].
  rewrite removelast_snoc, (f64_within_tolerance tol v lastv Ht Hv Hf).
  destruct (tol <? abs (v - lastv)); reflexivity.
Qed.

Lemma f64_cluster_loop_chain (tol : float) (rest : list float) :
  is_nan tol = false ->
  forall (done : list (list float)) (cur : list float) (lastv : float),
    Forall F64.finite (lastv :: rest) ->
    Py.last_item cur = Some lastv ->
    F64.cluster_loop tol (done ++ [cur]) rest
    = Some (done ++ F64.greedy_chain tol cur lastv rest).
Proof.
  intro Ht.
  induction rest as [|v rest IH]; intros done cur lastv Hf Hl;
    cbn [F64.cluster_loop F64.greedy_chain]; auto.
  apply Forall_cons_iff in Hf. destruct Hf as [Hlast Hf].
  pose proof Hf as Hf'. apply Forall_cons_iff in Hf'. destruct Hf' as [Hv _].
  rewrite (f64_cluster_append_snoc tol done cur lastv v Ht Hv Hlast Hl). cbn [Py.bind].
  destruct (tol <? abs (v - lastv)).
  - rewrite (IH (done ++ [cur]) [v] v Hf eq_refl).
    rewrite <- app_assoc. reflexivity.
  - apply IH; auto. apply last_item_snoc.
Qed.

Lemma f64_chain_nonempty (tol : float) (rest : list float) :
  forall (cur : list float) (lastv : float),
    cur <> [] -> Forall (fun c => c <> []) (F64.greedy_chain tol cur lastv rest).
Proof.
  induction rest as [|v rest IH]; intros cur lastv Hc; cbn [F64.greedy_chain].
  - repeat constructor; auto.
  - destruct (tol <? abs (v - lastv)).
    + constructor; auto. apply IH. discriminate.
    + apply IH. destruct cur; discriminate.
Qed.

Lemma f64_mean_nonempty (c : list float) :
  c <> [] -> F64.mean c = Some (F64.arithmetic_mean c).
Proof. destruct c; [congruence|reflexivity]. Qed.

Lemma f64_cluster_positions_clusters (values : list float) (tol : float) :
  F64._cluster_positions values tol
  = (clusters <- F64.position_clusters values tol ;; Py.comprehension F64.mean clusters).
Proof.
  unfold F64._cluster_positions, F64.position_clusters.
  destruct values as [|x values]; auto.
  destruct (F64.sorted (x :: values)); auto.
Qed.

Lemma f64_cluster_positions_refines (values : list float) (tol : float) :
  is_nan tol = false -> Forall F64.finite values ->
  F64._cluster_positions values tol = Some (F64.cluster_1d values tol).
Proof.
  intros Ht Hf. destruct values as [|x values]; [reflexivity|].
  unfold F64._cluster_positions, F64.cluster_1d.
  pose proof (f64_sorted_perm (x :: values)) as P.
  destruct (F64.sorted (x :: values)) as [|v0 rest] eqn:E.
  { apply f64_sorted_nil_inv in E. discriminate. }
  change [[v0]] with ([] ++ [[v0]]).
  rewrite (f64_cluster_loop_chain tol rest Ht [] [v0] v0).
  - cbn [Py.bind app]. apply comprehension_total.
    apply Forall_impl with (2 := f64_chain_nonempty tol rest [v0] v0 ltac:(discriminate)).
    intros c Hc. apply f64_mean_nonempty, Hc.
  - apply (Permutation_Forall (Permutation_sym P)), Hf.
  - reflexivity.
Qed.

(** On centers further apart than the tolerance the loop opens a cluster
    for each. *)
Lemma f64_cluster_loop_separated (tol : float) (rest : list float) :
  forall (done : list (list float)) (c0 : float),
    F64.separated tol (c0 :: rest) ->
    F64.cluster_loop tol (done ++ [[c0]]) rest
    = Some (done ++ map (fun c => [c]) (c0 :: rest)).
Proof.
  unfold F64.separated.
  induction rest as [|v rest IH]; intros done c0 H; cbn [F64.cluster_loop map]; auto.
  apply Sorted_inv in H. destruct H as [Hs Hhd]. apply HdRel_inv in Hhd.
  unfold F64.cluster_append.
  rewrite last_item_snoc. cbn [Py.bind Py.last_item].
  rewrite (f64_ltb_not_leb _ _ Hhd). cbn [Py.bind].
  rewrite (IH (done ++ [[c0]]) v Hs). cbn [map].
  rewrite <- app_assoc. reflexivity.
Qed.
End ClusterBinary64.

(** ** Intersection over union in binary64 *)

Section IouBinary64.
Local Open Scope float_scope.

Lemma f64_max2_same (x : float) : F64.max2 x x = x.
Proof. unfold F64.max2. destruct (x <? x); reflexivity. Qed.

Lemma f64_min2_same (x : float) : F64.min2 x x = x.
Proof. unfold F64.min2. destruct (x <? x); reflexivity. Qed.

Lemma f64_max2_positive (x : float) : (0 <? x) = true -> F64.max2 0 x = x.
Proof. unfold F64.max2. intros ->. reflexivity. Qed.

(** A box whose width, height and area are computed positive, the doubled
    area finite, has intersection over union 1 with itself. *)
Lemma f64_iou_self (a : F64.BBox) :
  F64.non_degenerate a ->
  (0 <? F64.area a) = true ->
  (F64.area a + F64.area a <? infinity) = true ->
  F64._bbox_iou a a = 1.
Proof.
  destruct a as [[[ax0 ay0] ax1] ay1].
  unfold F64.non_degenerate, F64.area, F64.width, F64.height.
  intros [Hw Hh] Ha Hd. unfold F64._bbox_iou.
  rewrite !f64_max2_same, !f64_min2_same.
  rewrite (f64_max2_positive _ Hw), (f64_max2_positive _ Hh).
  rewrite (f64_ltb_not_leb _ _ Ha), (f64_max2_positive _ Ha).
  rewrite (f64_add_self_sub _ Ha Hd), Ha.
  destruct (f64_positive_cases _ Ha) as [(m & e & E)|E].
  - apply (f64_div_self _ false m e E).
  - rewrite ltb_spec, add_spec, E in Hd. discriminate Hd.
Qed.
End IouBinary64.


(** ** Further facts on the geometry utilities *)

Lemma nearest_loop_spec (value : Q) (rest : list Q) :
  forall (pre : list Q) (best_idx : nat) (best_dist cb : Q),
    nth_error pre best_idx = Some cb ->
    best_dist = Py.abs (value - cb) ->
    (forall j c, nth_error pre j = Some c -> best_dist <= Py.abs (value - c)) ->
    (forall j c, (j < best_idx)%nat -> nth_error pre j = Some c ->
                 best_dist < Py.abs (value - c)) ->
    let r := nearest_loop value rest (List.length pre) best_idx best_dist in
    exists c,
      nth_error (pre ++ rest) r = Some c
      /\ (forall j c', nth_error (pre ++ rest) j = Some c' ->
                       Py.abs (value - c) <= Py.abs (value - c'))
      /\ (forall j c', (j < r)%nat -> nth_error (pre ++ rest) j = Some c' ->
                       Py.abs (value - c) < Py.abs (value - c')).
Proof.
  induction rest as [|c rest IH]; intros pre bi bd cb Hb Hd Hmin Hfirst;
    cbn [nearest_loop].
  - rewrite app_nil_r. exists cb. subst bd. auto.
  - assert (Hlen : List.length (pre ++ [c]) = S (List.length pre))
      by (rewrite length_app; cbn; lia).
    assert (Hc : nth_error (pre ++ [c]) (List.length pre) = Some c)
      by (rewrite nth_error_app2, Nat.sub_diag by lia; reflexivity).
    assert (Hsplit : forall j x, nth_error (pre ++ [c]) j = Some x ->
                                 nth_error pre j = Some x \/ x = c).
    { intros j x Hj. destruct (Nat.lt_ge_cases j (List.length pre)) as [Hlt|Hge].
      - left. rewrite nth_error_app1 in Hj by lia. exact Hj.
      - right. rewrite nth_error_app2 in Hj by lia.
        destruct (j - List.length pre)%nat as [|n]; cbn in Hj.
        + congruence.
        + destruct n; discriminate. }
    replace (pre ++ c :: rest) with ((pre ++ [c]) ++ rest)
      by (rewrite <- app_assoc; reflexivity).
    rewrite <- Hlen.
    destruct (Py.ltb (Py.abs (value - c)) bd) eqn:E.
    + apply ltb_true in E.
      apply (IH (pre ++ [c]) (List.length pre) (Py.abs (value - c)) c); auto.
      * intros j x Hj. destruct (Hsplit j x Hj) as [Hp| ->]; [|lra].
        specialize (Hmin j x Hp). lra.
      * intros j x Hlt Hj. rewrite nth_error_app1 in Hj by lia.
        specialize (Hmin j x Hj). lra.
    + apply ltb_false in E.
      apply (IH (pre ++ [c]) bi bd cb); auto.
      * rewrite nth_error_app1; auto. apply nth_error_Some. congruence.
      * intros j x Hj. destruct (Hsplit j x Hj) as [Hp| ->]; eauto.
      * intros j x Hlt Hj. apply (Hfirst j x Hlt).
        rewrite nth_error_app1 in Hj; auto.
        assert (bi < List.length pre)%nat by (apply nth_error_Some; congruence).
        lia.
Qed.

Lemma span_overlap_sym (a0 a1 b0 b1 : Q) :
  span_overlap a0 a1 b0 b1 == span_overlap b0 b1 a0 a1.
Proof.
  unfold span_overlap.
  destruct (max2_cases a0 b0) as [[? ->]|[? ->]];
  destruct (max2_cases b0 a0) as [[? ->]|[? ->]];
  destruct (min2_cases a1 b1) as [[? ->]|[? ->]];
  destruct (min2_cases b1 a1) as [[? ->]|[? ->]];
  repeat match goal with |- context [Py.max2 0 ?t] =>
    destruct (max2_cases 0 t) as [[? ->]|[? ->]] end; lra.
Qed.

Lemma iou_sym (a b : BBox) : _bbox_iou a b == _bbox_iou b a.
Proof.
  rewrite !iou_unfold.
  destruct a as [[[ax0 ay0] ax1] ay1], b as [[[bx0 by0] bx1] by1]. cbv zeta.
  pose proof (span_overlap_sym ax0 ax1 bx0 bx1) as Ew.
  pose proof (span_overlap_sym ay0 ay1 by0 by1) as Eh.
  set (iw := span_overlap ax0 ax1 bx0 bx1) in *.
  set (ih := span_overlap ay0 ay1 by0 by1) in *.
  set (iw' := span_overlap bx0 bx1 ax0 ax1) in *.
  set (ih' := span_overlap by0 by1 ay0 ay1) in *.
  set (A := Py.max2 0 (area (ax0, ay0, ax1, ay1))).
  set (B := Py.max2 0 (area (bx0, by0, bx1, by1))).
  assert (Ei : iw * ih == iw' * ih') by (rewrite Ew, Eh; reflexivity).
  assert (Eu : A + B - iw * ih == B + A - iw' * ih') by lra.
  destruct (Py.leb (iw * ih) 0) eqn:E1, (Py.leb (iw' * ih') 0) eqn:E2;
    try apply leb_true in E1; try apply leb_true in E2;
    try apply leb_false in E1; try apply leb_false in E2; try lra.
  destruct (Py.ltb 0 (A + B - iw * ih)) eqn:E3, (Py.ltb 0 (B + A - iw' * ih')) eqn:E4;
    try apply ltb_true in E3; try apply ltb_true in E4;
    try apply ltb_false in E3; try apply ltb_false in E4; try lra.
  rewrite Eu, Ei. reflexivity.
Qed.

(** *** The clusters of [_cluster_positions] *)

Lemma chain_concat (tol : Q) (rest : list Q) :
  forall cur lastv, List.concat (greedy_chain tol cur lastv rest) = cur ++ rest.
Proof.
  induction rest as [|v rest IH]; intros cur lastv; cbn [greedy_chain].
  - cbn. rewrite !app_nil_r. reflexivity.
  - destruct (Qlt_le_dec tol (Qabs (v - lastv))).
    + cbn [List.concat]. rewrite IH. reflexivity.
    + rewrite IH, <- app_assoc. reflexivity.
Qed.

Lemma chain_head (tol : Q) (rest : list Q) :
  forall cur lastv,
    exists more clusters, greedy_chain tol cur lastv rest = (cur ++ more) :: clusters.
Proof.
  induction rest as [|v rest IH]; intros cur lastv; cbn [greedy_chain].
  - exists [], []. rewrite app_nil_r. reflexivity.
  - destruct (Qlt_le_dec tol (Qabs (v - lastv))).
    + exists [], (greedy_chain tol [v] v rest). rewrite app_nil_r. reflexivity.
    + destruct (IH (cur ++ [v]) v) as (more & clusters & E).
      exists (v :: more), clusters. rewrite E, <- app_assoc. reflexivity.
Qed.

Lemma chained_snoc (tol : Q) (cur : list Q) (lastv v : Q) :
  chained tol cur -> Py.last_item cur = Some lastv -> Qabs (v - lastv) <= tol ->
  chained tol (cur ++ [v]).
Proof.
  intros Hc Hl Hv. induction cur as [|x cur IH]; [discriminate|].
  destruct cur as [|y cur].
  - cbn in Hl. injection Hl as ->. cbn. auto.
  - destruct Hc as [Hxy Hc]. split; [exact Hxy|].
    apply IH; auto.
Qed.

Lemma chain_chained (tol : Q) (rest : list Q) :
  forall cur lastv,
    chained tol cur -> Py.last_item cur = Some lastv ->
    Forall (chained tol) (greedy_chain tol cur lastv rest).
Proof.
  induction rest as [|v rest IH]; intros cur lastv Hc Hl; cbn [greedy_chain].
  - repeat constructor. exact Hc.
  - destruct (Qlt_le_dec tol (Qabs (v - lastv))).
    + constructor; auto. apply IH; [exact I|reflexivity].
    + apply IH; [eapply chained_snoc; eauto|apply last_item_snoc].
Qed.

Lemma chain_gapped (tol : Q) (rest : list Q) :
  forall cur lastv,
    Py.last_item cur = Some lastv -> gapped tol (greedy_chain tol cur lastv rest).
Proof.
  induction rest as [|v rest IH]; intros cur lastv Hl; cbn [greedy_chain].
  - exact I.
  - destruct (Qlt_le_dec tol (Qabs (v - lastv))) as [Hgap|Hgap].
    + pose proof (IH [v] v eq_refl) as Hrest.
      destruct (chain_head tol rest [v] v) as (more & clusters & E).
      rewrite E in *. split; [|exact Hrest].
      intros x y Hx Hy. cbn in Hy. congruence.
    + apply IH, last_item_snoc.
Qed.

Lemma concat_length_nonempty {A : Type} (ls : list (list A)) :
  Forall (fun l => l <> []) ls -> (List.length ls <= List.length (List.concat ls))%nat.
Proof.
  induction 1 as [|l ls Hl _ IH]; cbn [List.concat List.length]; auto.
  rewrite length_app. destruct l; [congruence|]. cbn [List.length]. lia.
Qed.

(** ** Further facts on table detection *)

Lemma ordpairs_snoc {A : Type} (R : A -> A -> Prop) (l : list A) (c : A) :
  ForallOrdPairs R (l ++ [c]) <-> ForallOrdPairs R l /\ Forall (fun a => R a c) l.
Proof.
  induction l as [|x l IH]; cbn [app].
  - split; intros; repeat constructor.
  - split.
    + intro H. inversion H as [|? ? Hx Hl]; subst.
      apply IH in Hl. destruct Hl as [Hl Hc].
      apply Forall_app in Hx. destruct Hx as [Hx Hxc].
      split; constructor; auto. apply Forall_inv in Hxc. exact Hxc.
    + intros [H Hc]. inversion H as [|? ? Hx Hl]; subst.
      apply Forall_cons_iff in Hc. destruct Hc as [Hxc Hc].
      constructor.
      * apply Forall_app. split; auto.
      * apply IH. auto.
Qed.

Lemma ordpairs_impl {A : Type} (R R' : A -> A -> Prop) (l : list A) :
  (forall x y, R x y -> R' x y) -> ForallOrdPairs R l -> ForallOrdPairs R' l.
Proof.
  intro H. induction 1 as [|x l Hx _ IH]; constructor; auto.
  apply Forall_impl with (2 := Hx). apply H.
Qed.

Lemma ordpairs_filter {A : Type} (R : A -> A -> Prop) (p : A -> bool) (l : list A) :
  ForallOrdPairs R l -> ForallOrdPairs R (filter p l).
Proof.
  induction 1 as [|x l Hx _ IH]; cbn [filter]; [constructor|].
  destruct (p x); auto. constructor; auto.
  apply incl_Forall with (2 := Hx). intros y Hy. apply filter_In in Hy. tauto.
Qed.

Lemma ordpairs_map {A B : Type} (R : B -> B -> Prop) (f : A -> B) (l : list A) :
  ForallOrdPairs (fun x y => R (f x) (f y)) l -> ForallOrdPairs R (map f l).
Proof.
  induction 1 as [|x l Hx _ IH]; cbn [map]; constructor; auto.
  apply Forall_map. exact Hx.
Qed.

Lemma duplicate_false (c : Table) (found : list Table) :
  duplicate (bbox c) (map bbox found) = false
  <-> Forall (fun s => _bbox_iou (bbox c) (bbox s) <= dedup_threshold) found.
Proof.
  unfold duplicate. rewrite <- not_true_iff_false, existsb_exists, Forall_forall.
  split.
  - intros H s Hs. apply ltb_false.
    destruct (Py.ltb dedup_threshold (_bbox_iou (bbox c) (bbox s))) eqn:E; auto.
    exfalso. apply H. exists (bbox s). split; [apply in_map, Hs|exact E].
  - intros H (sb & Hin & E). apply in_map_iff in Hin.
    destruct Hin as (s & <- & Hs). apply ltb_true in E.
    specialize (H s Hs). lra.
Qed.

Lemma accepted_distinct (cs : list Table) :
  ForallOrdPairs (fun s t => _bbox_iou (bbox t) (bbox s) <= dedup_threshold)
                 (accepted cs).
Proof.
  induction cs as [|c cs IH] using rev_ind; [constructor|].
  rewrite accepted_snoc.
  destruct (duplicate (bbox c) (map bbox (accepted cs))) eqn:E; auto.
  apply ordpairs_snoc. split; auto. apply duplicate_false, E.
Qed.

Lemma accepted_fixed (l : list Table) :
  ForallOrdPairs (fun s t => _bbox_iou (bbox t) (bbox s) <= dedup_threshold) l ->
  accepted l = l.
Proof.
  induction l as [|c l IH] using rev_ind; [reflexivity|].
  intro H. apply ordpairs_snoc in H. destruct H as [Hl Hc].
  rewrite accepted_snoc, (IH Hl).
  apply duplicate_false in Hc. rewrite Hc. reflexivity.
Qed.

Lemma accepted_incl (cs : list Table) : incl (accepted cs) cs.
Proof.
  induction cs as [|c cs IH] using rev_ind; [intros x []|].
  rewrite accepted_snoc.
  destruct (duplicate (bbox c) (map bbox (accepted cs))).
  - apply incl_appl, IH.
  - apply incl_app; [apply incl_appl, IH|apply incl_appr, incl_refl].
Qed.

Lemma concat_length_cols (d : Grid) :
  (List.length (List.concat d) <= grid_rows d * grid_cols d)%nat.
Proof.
  unfold grid_rows, grid_cols.
  induction d as [|r d IH]; cbn [List.concat List.length map]; auto.
  rewrite length_app. cbn [list_max fold_right]. fold (list_max (map (@List.length Cell) d)).
  nia.
Qed.

Lemma filter_length_le {A : Type} (p : A -> bool) (l : list A) :
  (List.length (filter p l) <= List.length l)%nat.
Proof.
  induction l as [|x l IH]; cbn [filter List.length]; auto.
  destruct (p x); cbn [List.length]; lia.
Qed.

(** ** Further facts on lines and merging *)

Lemma entry_words_setdefault (k k' : nat) (w : Span) (m : list (nat * list Span)) :
  entry_words k' (setdefault_append k w m)
  = if (k =? k')%nat then entry_words k' m ++ [w] else entry_words k' m.
Proof.
  induction m as [|[k0 ws] m IH]; cbn [setdefault_append entry_words].
  - destruct (Nat.eqb_spec k k'); reflexivity.
  - destruct (Nat.eqb_spec k0 k) as [->|Hne]; cbn [entry_words].
    + destruct (Nat.eqb_spec k k'); reflexivity.
    + destruct (Nat.eqb_spec k0 k') as [->|Hne'].
      * destruct (Nat.eqb_spec k k'); [congruence|reflexivity].
      * exact IH.
Qed.

Lemma entry_words_in (k : nat) (ws : list Span) (m : list (nat * list Span)) :
  NoDup (map fst m) -> In (k, ws) m -> entry_words k m = ws.
Proof.
  induction m as [|[k0 ws0] m IH]; intros Hnd Hin; [destruct Hin|].
  cbn [map fst] in Hnd. apply NoDup_cons_iff in Hnd. destruct Hnd as [Hk0 Hnd].
  cbn [entry_words]. destruct Hin as [E|Hin].
  - injection E as -> ->. rewrite Nat.eqb_refl. reflexivity.
  - destruct (Nat.eqb_spec k0 k) as [->|Hne]; auto.
    exfalso. apply Hk0. apply in_map_iff. exists (k, ws). auto.
Qed.

Lemma lines_map_fold (centers : list Q) (free_words : list Span) :
  forall m,
    NoDup (map fst m) ->
    let m' :=
      fold_left (fun m w => setdefault_append (_nearest_index (y0 w) centers) w m)
                free_words m in
    NoDup (map fst m')
    /\ (forall k, entry_words k m'
                  = entry_words k m
                    ++ filter (fun w => (_nearest_index (y0 w) centers =? k)%nat)
                              free_words)
    /\ (forall k, In k (map fst m') ->
                  In k (map fst m)
                  \/ exists w, In w free_words /\ _nearest_index (y0 w) centers = k).
Proof.
  induction free_words as [|w ws IH]; intros m Hnd; cbn [fold_left].
  - split; auto. split; [intro k; cbn; rewrite app_nil_r; reflexivity|auto].
  - destruct (IH (setdefault_append (_nearest_index (y0 w) centers) w m))
      as (H1 & H2 & H3); [apply setdefault_nodup, Hnd|].
    split; [exact H1|]. split.
    + intro k. rewrite H2, entry_words_setdefault. cbn [filter].
      destruct (_nearest_index (y0 w) centers =? k)%nat;
        [rewrite <- app_assoc|]; reflexivity.
    + intros k Hk. destruct (H3 k Hk) as [Hin|(w' & Hw' & E)].
      * apply setdefault_keys in Hin. destruct Hin as [->|Hin]; auto.
        right. exists w. split; [left|]; reflexivity.
      * right. exists w'. split; [right|]; auto.
Qed.

(** *** What the merger keeps *)

Lemma merge_from_head (ws : list Span) :
  forall prev, exists w rest, merge_from prev ws = w :: rest /\ x0 w = x0 prev.
Proof.
  induction ws as [|w ws IH]; intro prev; cbn [merge_from].
  - eauto.
  - destruct (should_merge prev w); [|eauto].
    destruct (IH (absorb prev w)) as (w' & rest & E & Hx). eauto.
Qed.

Lemma merge_from_sorted (ws : list Span) :
  forall prev,
    StronglySorted (key_le x0) (prev :: ws) ->
    StronglySorted (key_le x0) (merge_from prev ws).
Proof.
  induction ws as [|w ws IH]; intros prev H; cbn [merge_from].
  - exact H.
  - apply StronglySorted_inv in H. destruct H as [Hws Hprev].
    apply Forall_cons_iff in Hprev. destruct Hprev as [Hpw Hprev].
    destruct (should_merge prev w).
    + apply IH. apply StronglySorted_inv in Hws. destruct Hws as [Hws _].
      constructor; auto.
    + constructor; [apply IH, Hws|].
      pose proof (IH w Hws) as Hs.
      destruct (merge_from_head ws w) as (w' & rest & E & Hx).
      rewrite E in *. apply StronglySorted_inv in Hs. destruct Hs as [_ Hs].
      unfold key_le in *. constructor; [rewrite Hx; exact Hpw|].
      rewrite Hx in Hs. apply Forall_impl with (2 := Hs). intros a Ha. lra.
Qed.

Lemma merge_from_unchanged (ws : list Span) :
  forall prev,
    Sorted (fun p w => ~ merge_condition p w) (prev :: ws) ->
    merge_from prev ws = prev :: ws.
Proof.
  induction ws as [|w ws IH]; intros prev H; cbn [merge_from]; auto.
  apply Sorted_inv in H. destruct H as [Hws Hhd]. apply HdRel_inv in Hhd.
  destruct (should_merge prev w) eqn:E.
  - apply should_merge_iff in E. contradiction.
  - rewrite (IH w Hws). reflexivity.
Qed.

Lemma merge_from_presentable (ws : list Span) :
  forall prev,
    presentable prev -> Forall presentable ws ->
    Forall presentable (merge_from prev ws).
Proof.
  induction ws as [|w ws IH]; intros prev Hp Hws; cbn [merge_from].
  - constructor; [exact Hp|constructor].
  - apply Forall_cons_iff in Hws. destruct Hws as [Hw Hws].
    destruct (should_merge prev w).
    + apply IH; auto. destruct Hp as [Hpn Hpt], Hw as [Hwn Hwt].
      split; [|apply strip_tidy].
      rewrite (absorb_joined prev w Hpt Hpn Hwt Hwn). cbn [joined text].
      intro E. apply app_empty_inv in E. destruct E. contradiction.
    + constructor; auto.
Qed.

Lemma entry_words_found (k : nat) (m : list (nat * list Span)) :
  entry_words k m <> [] -> In (k, entry_words k m) m.
Proof.
  induction m as [|[k0 ws] m IH]; cbn [entry_words]; [congruence|].
  destruct (Nat.eqb_spec k0 k) as [->|Hne]; intro H.
  - left. reflexivity.
  - right. apply IH, H.
Qed.

Lemma build_lines_map_entries (centers : list Q) (free_words : list Span) :
  NoDup (map fst (build_lines_map centers free_words))
  /\ (forall k, entry_words k (build_lines_map centers free_words)
                = filter (fun w => (_nearest_index (y0 w) centers =? k)%nat)
                         free_words)
  /\ (forall k, In k (map fst (build_lines_map centers free_words)) ->
                exists w, In w free_words /\ _nearest_index (y0 w) centers = k).
Proof.
  destruct (lines_map_fold centers free_words []) as (H1 & H2 & H3); [constructor|].
  split; [exact H1|]. split; [exact H2|].
  intros k Hk. destruct (H3 k Hk) as [[]|H]. exact H.
Qed.

Lemma merged_words_nonempty (ws : list Span) : ws <> [] -> merged_words ws <> [].
Proof.
  destruct ws as [|w ws]; [congruence|]. intros _. cbn [merged_words].
  destruct (merge_from_head ws w) as (w' & rest & E & _). rewrite E. discriminate.
Qed.

Lemma sort_strongly_sorted {A : Type} (key : A -> Q) (l : list A) :
  StronglySorted (key_le key) (Py.sort key l).
Proof.
  apply Sorted_StronglySorted; [|apply sort_sorted].
  intros x y z Hxy Hyz. unfold key_le in *. lra.
Qed.

Lemma merged_words_sorted (ws : list Span) :
  StronglySorted (key_le x0) ws -> StronglySorted (key_le x0) (merged_words ws).
Proof.
  destruct ws as [|w ws]; [constructor|]. apply merge_from_sorted.
Qed.

Lemma merged_words_presentable (ws : list Span) :
  Forall presentable ws -> Forall presentable (merged_words ws).
Proof.
  destruct ws as [|w ws]; [constructor|]. intro H.
  apply Forall_cons_iff in H. destruct H. apply merge_from_presentable; auto.
Qed.

Lemma lines_map_entry (centers : list Q) (free_words : list Span)
  (k : nat) (ws : list Span) :
  In (k, ws) (build_lines_map centers free_words) ->
  ws <> []
  /\ ws = filter (fun w => (_nearest_index (y0 w) centers =? k)%nat) free_words.
Proof.
  destruct (build_lines_map_entries centers free_words) as (Hnd & Hwords & Hkeys).
  intro Hin.
  pose proof (entry_words_in k ws _ Hnd Hin) as E. rewrite Hwords in E.
  split; [|symmetry; exact E].
  destruct (Hkeys k) as (w & Hw & Hk).
  { apply in_map_iff. exists (k, ws). auto. }
  intros ->. assert (Hf : In w []); [|destruct Hf].
  rewrite <- E. apply filter_In. split; [exact Hw|].
  apply Nat.eqb_eq, Hk.
Qed.

Lemma page_line_group_facts (page : Page) (k : nat) (ws : list Span) :
  In (k, ws) (page_line_groups page) ->
  ws <> [] /\ incl ws (page_free_words page)
  /\ (k < List.length (page_centers page))%nat.
Proof.
  unfold page_line_groups. intro Hin.
  destruct (lines_map_entry _ _ k ws Hin) as [Hne E].
  assert (Hsub : incl ws (page_free_words page)).
  { intros w Hw. rewrite E in Hw. apply filter_In in Hw. tauto. }
  split; [exact Hne|]. split; [exact Hsub|].
  assert (Hc : page_centers page <> []).
  { apply cluster_1d_nonempty. intro Hm. apply map_eq_nil in Hm.
    destruct ws as [|w ws']; [congruence|].
    specialize (Hsub w (or_introl eq_refl)). rewrite Hm in Hsub. destruct Hsub. }
  destruct (build_lines_map_spec (page_centers page) (page_free_words page) Hc)
    as (_ & Hk & _).
  rewrite Forall_forall in Hk. apply Hk. apply in_map_iff. exists (k, ws). auto.
Qed.

(** ** Further facts on the grid writer *)

Lemma strongly_sorted_app {A : Type} (R : A -> A -> Prop) (l1 l2 : list A) :
  StronglySorted R l1 -> StronglySorted R l2 ->
  (forall a b, In a l1 -> In b l2 -> R a b) ->
  StronglySorted R (l1 ++ l2).
Proof.
  induction 1 as [|x l1 Hl1 IH Hx]; intros H2 H12; cbn [app]; auto.
  constructor.
  - apply IH; auto. intros a b Ha Hb. apply H12; [right|]; auto.
  - apply Forall_app. split; auto.
    apply Forall_forall. intros b Hb. apply H12; [left; reflexivity|exact Hb].
Qed.

Lemma cell_before_nodup (sheet : Sheet) :
  StronglySorted cell_before sheet -> NoDup (map coord sheet).
Proof.
  induction 1 as [|c sheet Hs IH Hc]; cbn [map]; constructor; auto.
  intro Hin. apply in_map_iff in Hin. destruct Hin as (c' & E & Hin).
  rewrite Forall_forall in Hc. specialize (Hc c' Hin).
  unfold coord in E. injection E as Er Ec. unfold cell_before in Hc. lia.
Qed.

Lemma write_spans_cells (spans : list Span) :
  forall row_cursor col,
    Forall (fun c => row c = row_cursor /\ (col <= column c)%nat)
           (write_spans row_cursor col spans)
    /\ StronglySorted cell_before (write_spans row_cursor col spans).
Proof.
  induction spans as [|sp rest IH]; intros rc col; cbn [write_spans].
  - split; constructor.
  - set (col' := match rest with
                 | [] => S col
                 | next :: _ =>
                     if Py.ltb column_gap (x0 next - x1 sp) then S (S col) else S col
                 end).
    assert (Hcol : (S col <= col')%nat).
    { unfold col'. destruct rest; [lia|].
      destruct (Py.ltb column_gap (x0 s - x1 sp)); lia. }
    destruct (IH rc col') as [Hall Hsorted].
    split.
    + constructor; [cbn; split; [reflexivity|lia]|].
      apply Forall_impl with (2 := Hall). intros c [Hr Hc]. split; [exact Hr|lia].
    + constructor; [exact Hsorted|].
      apply Forall_impl with (2 := Hall). intros c [Hr Hc].
      right. cbn [row column]. split; [congruence|lia].
Qed.

Lemma write_row_cells (row_vals : list Cell) :
  forall r cidx header,
    Forall (fun c => row c = r /\ (cidx <= column c)%nat)
           (write_row r cidx header row_vals)
    /\ StronglySorted cell_before (write_row r cidx header row_vals).
Proof.
  induction row_vals as [|raw rest IH]; intros r cidx header; cbn [write_row].
  - split; constructor.
  - destruct (IH r (S cidx) header) as [Hall Hsorted].
    split.
    + constructor; [cbn; split; [reflexivity|lia]|].
      apply Forall_impl with (2 := Hall). intros c [Hr Hc]. split; [exact Hr|lia].
    + constructor; [exact Hsorted|].
      apply Forall_impl with (2 := Hall). intros c [Hr Hc].
      right. cbn [row column]. split; [congruence|lia].
Qed.

Lemma write_grid_cells (d : Grid) :
  forall row_cursor ridx,
    Forall (fun c => (row_cursor + ridx <= row c < row_cursor + ridx + List.length d)%nat
                     /\ (1 <= column c)%nat)
           (write_grid row_cursor ridx d)
    /\ StronglySorted cell_before (write_grid row_cursor ridx d).
Proof.
  induction d as [|row_vals rest IH]; intros rc ridx; cbn [write_grid List.length].
  - split; constructor.
  - destruct (IH rc (S ridx)) as [Hall Hsorted].
    destruct (write_row_cells row_vals (rc + ridx) 1 (ridx =? 0)%nat) as [Hrow Hrs].
    split.
    + apply Forall_app. split.
      * apply Forall_impl with (2 := Hrow). intros c [Hr Hc]. lia.
      * apply Forall_impl with (2 := Hall). intros c [Hr Hc]. lia.
    + apply strongly_sorted_app; auto.
      intros a b Ha Hb. rewrite Forall_forall in Hrow, Hall.
      destruct (Hrow a Ha) as [Hra _]. destruct (Hall b Hb) as [Hrb _].
      left. lia.
Qed.

Lemma write_elements_cells (elements : list Element) :
  forall row_cursor,
    Forall (fun c => (row_cursor <= row c)%nat /\ (1 <= column c)%nat)
           (write_elements row_cursor elements)
    /\ StronglySorted cell_before (write_elements row_cursor elements).
Proof.
  induction elements as [|e rest IH]; intro rc; cbn [write_elements].
  - split; constructor.
  - destruct e as [y t|y spans].
    + destruct (IH (rc + (Nat.max 1 (List.length (data t)) + 1))%nat) as [Hall Hsorted].
      destruct (write_grid_cells (data t) rc 0) as [Hg Hgs].
      rewrite Forall_forall in Hg, Hall.
      split.
      * apply Forall_app. split; apply Forall_forall; intros c Hc.
        -- destruct (Hg c Hc). lia.
        -- destruct (Hall c Hc). lia.
      * apply strongly_sorted_app; auto.
        intros a b Ha Hb. destruct (Hg a Ha), (Hall b Hb). left. lia.
    + destruct (IH (rc + 1)%nat) as [Hall Hsorted].
      destruct (write_spans_cells spans rc 1) as [Hl Hls].
      rewrite Forall_forall in Hl, Hall.
      split.
      * apply Forall_app. split; apply Forall_forall; intros c Hc.
        -- destruct (Hl c Hc). lia.
        -- destruct (Hall c Hc). lia.
      * apply strongly_sorted_app; auto.
        intros a b Ha Hb. destruct (Hl a Ha), (Hall b Hb). left. lia.
Qed.

Lemma write_grid_nonempty (d : Grid) :
  forall row_cursor ridx, List.concat d <> [] -> write_grid row_cursor ridx d <> [].
Proof.
  induction d as [|row_vals rest IH]; intros rc ridx H; cbn [write_grid List.concat] in *.
  - congruence.
  - destruct row_vals as [|raw row_vals]; cbn [app write_row] in *.
    + apply IH, H.
    + discriminate.
Qed.

Lemma write_elements_nonempty (e : Element) (rest : list Element) (row_cursor : nat) :
  has_cells e -> write_elements row_cursor (e :: rest) <> [].
Proof.
  destruct e as [y t|y spans]; cbn [has_cells write_elements]; intros H E;
    apply app_eq_nil in E; destruct E as [E _].
  - apply (write_grid_nonempty (data t) row_cursor 0 H E).
  - destruct spans; [congruence|discriminate].
Qed.

Lemma shape_kept_cells (d : Grid) : shape_kept d = true -> List.concat d <> [].
Proof.
  unfold shape_kept, grid_non_empty. rewrite !andb_true_iff, !Nat.leb_le.
  intros [_ H] E. rewrite E in H. cbn in H. lia.
Qed.

Lemma page_elements_have_cells (page : Page) :
  Forall has_cells (page_tables page ++ page_lines page).
Proof.
  apply Forall_app. split.
  - unfold page_tables, retained_tables. rewrite retain_tables_filter, map_map.
    apply Forall_map, Forall_forall. intros t Ht. apply filter_In in Ht.
    destruct Ht as [_ Ht]. unfold table_element, table_obj. cbn [tbbox].
    destruct (bbox t) as [[[? ?] ?] ?]. cbn [has_cells data].
    apply shape_kept_cells, Ht.
  - unfold page_lines. apply Forall_map, Forall_forall. intros [k ws] Hin.
    destruct (page_line_group_facts page k ws Hin) as (Hne & _ & _).
    cbn [line_of has_cells snd]. apply merged_words_nonempty.
    intro E. apply sort_nil_inv in E. contradiction.
Qed.

Lemma write_spans_nth (spans : list Span) :
  forall row_cursor col i sp,
    nth_error spans i = Some sp ->
    nth_error (write_spans row_cursor col spans) i
    = Some {| row := row_cursor;
              column := col + i + wide_gaps (firstn (S i) spans);
              value := Some (text sp);
              bold := false |}.
Proof.
  induction spans as [|sp0 rest IH]; intros rc col i sp Hi.
  - destruct i; discriminate.
  - destruct i as [|j]; cbn [nth_error] in Hi.
    + injection Hi as <-. cbn [write_spans nth_error firstn wide_gaps].
      rewrite !Nat.add_0_r. reflexivity.
    + cbn [write_spans nth_error].
      destruct rest as [|next rest']; [destruct j; discriminate|].
      rewrite (IH rc _ j sp Hi). f_equal.
      cbn [firstn wide_gaps].
      destruct (Py.ltb column_gap (x0 next - x1 sp0)); f_equal; lia.
Qed.

Lemma write_spans_length (spans : list Span) :
  forall row_cursor col,
    List.length (write_spans row_cursor col spans) = List.length spans.
Proof.
  induction spans as [|sp rest IH]; intros rc col; cbn [write_spans List.length]; auto.
Qed.

Lemma write_row_in (row_vals : list Cell) :
  forall r cidx header c,
    In c (write_row r cidx header row_vals)
    <-> exists i raw,
          nth_error row_vals i = Some raw
          /\ c = {| row := r; column := cidx + i; value := cell_value raw;
                    bold := header |}.
Proof.
  induction row_vals as [|raw0 rest IH]; intros r cidx header c; cbn [write_row In].
  - split; [intros []|intros (i & raw & H & _); destruct i; discriminate].
  - rewrite IH. split.
    + intros [<-|(i & raw & Hi & ->)].
      * exists 0%nat, raw0. rewrite Nat.add_0_r. auto.
      * exists (S i), raw. split; [exact Hi|]. f_equal. lia.
    + intros ([|i] & raw & Hi & ->); cbn [nth_error] in Hi.
      * left. injection Hi as ->. rewrite Nat.add_0_r. reflexivity.
      * right. exists i, raw. split; [exact Hi|]. f_equal. lia.
Qed.

Lemma write_grid_in (d : Grid) :
  forall row_cursor ridx0 c,
    In c (write_grid row_cursor ridx0 d)
    <-> exists i j r raw,
          nth_error d i = Some r /\ nth_error r j = Some raw
          /\ c = {| row := row_cursor + (ridx0 + i); column := S j;
                    value := cell_value raw; bold := (ridx0 + i =? 0)%nat |}.
Proof.
  induction d as [|r0 rest IH]; intros rc ridx0 c; cbn [write_grid].
  - split; [intros []|intros (i & j & r & raw & H & _); destruct i; discriminate].
  - rewrite in_app_iff, IH, write_row_in. split.
    + intros [(j & raw & Hj & ->)|(i & j & r & raw & Hi & Hj & ->)].
      * exists 0%nat, j, r0, raw. rewrite Nat.add_0_r. auto.
      * exists (S i), j, r, raw. split; [exact Hi|]. split; [exact Hj|].
        replace (ridx0 + S i)%nat with (S ridx0 + i)%nat by lia. reflexivity.
    + intros ([|i] & j & r & raw & Hi & Hj & ->); cbn [nth_error] in Hi.
      * left. injection Hi as ->. exists j, raw. rewrite Nat.add_0_r. auto.
      * right. exists i, j, r, raw. split; [exact Hi|]. split; [exact Hj|].
        replace (ridx0 + S i)%nat with (S ridx0 + i)%nat by lia. reflexivity.
Qed.

(** ** Facts on page selection and splitting *)

Lemma set_add_in (x y : nat) (s : list nat) :
  In y (set_add x s) <-> y = x \/ In y s.
Proof.
  unfold set_add. destruct (existsb (Nat.eqb x) s) eqn:E.
  - apply existsb_exists in E. destruct E as (z & Hz & E).
    apply Nat.eqb_eq in E. subst z. intuition congruence.
  - rewrite in_app_iff. cbn. intuition.
Qed.

Lemma set_add_nodup (x : nat) (s : list nat) : NoDup s -> NoDup (set_add x s).
Proof.
  intro H. unfold set_add. destruct (existsb (Nat.eqb x) s) eqn:E; auto.
  apply NoDup_app; auto.
  - repeat constructor. intros [].
  - intros y Hy [->|[]].
    assert (Ht : existsb (Nat.eqb y) s = true)
      by (apply existsb_exists; exists y; split; [exact Hy|apply Nat.eqb_refl]).
    congruence.
Qed.

Lemma set_add_nonempty (x : nat) (s : list nat) : set_add x s <> [].
Proof.
  intro E. assert (H : In x (set_add x s)) by (apply set_add_in; auto).
  rewrite E in H. destruct H.
Qed.

Lemma insert_int_perm (x : nat) (l : list nat) : Permutation (insert_int x l) (x :: l).
Proof.
  induction l as [|y l IH]; cbn [insert_int]; auto.
  destruct (x <=? y)%nat; auto. rewrite IH. apply perm_swap.
Qed.

Lemma sorted_ints_perm (s : list nat) : Permutation (sorted_ints s) s.
Proof.
  induction s as [|x s IH]; cbn [sorted_ints fold_right]; auto.
  rewrite insert_int_perm. constructor. exact IH.
Qed.

Lemma insert_int_sorted (x : nat) (l : list nat) :
  StronglySorted le l -> StronglySorted le (insert_int x l).
Proof.
  induction 1 as [|y l Hs IH Hy]; cbn [insert_int].
  - repeat constructor.
  - destruct (Nat.leb_spec x y).
    + constructor; [constructor; auto|].
      constructor; auto. apply Forall_impl with (2 := Hy). intros; lia.
    + constructor; auto.
      apply Forall_forall. intros z Hz.
      apply (Permutation_in _ (insert_int_perm x l)) in Hz.
      destruct Hz as [<-|Hz]; [lia|].
      rewrite Forall_forall in Hy. auto.
Qed.

Lemma sorted_ints_sorted (s : list nat) : StronglySorted le (sorted_ints s).
Proof.
  induction s as [|x s IH]; cbn [sorted_ints fold_right]; [constructor|].
  apply insert_int_sorted, IH.
Qed.

Lemma sorted_nodup_strict (l : list nat) :
  StronglySorted le l -> NoDup l -> StronglySorted lt l.
Proof.
  induction 1 as [|x l Hs IH Hx]; intro Hnd; constructor.
  - apply IH. apply NoDup_cons_iff in Hnd. tauto.
  - apply NoDup_cons_iff in Hnd. destruct Hnd as [Hnot _].
    rewrite Forall_forall in Hx |- *. intros y Hy.
    specialize (Hx y Hy). assert (x <> y) by congruence. lia.
Qed.

Section PageSpecFacts.
Variable exceeds_digit_limit : string -> bool.

Lemma set_add_valid (total_pages p : nat) (s : list nat) :
  valid_indices total_pages s -> out_of_range p total_pages = false ->
  valid_indices total_pages (set_add (p - 1) s).
Proof.
  intros [Hnd Hall] Hp. split; [apply set_add_nodup, Hnd|].
  unfold out_of_range in Hp. apply orb_false_iff in Hp. destruct Hp as [H1 H2].
  apply Nat.ltb_ge in H1, H2.
  apply Forall_forall. intros i Hi. apply set_add_in in Hi.
  destruct Hi as [->|Hi]; [lia|]. rewrite Forall_forall in Hall. auto.
Qed.

Lemma add_pages_valid (total_pages : nat) (ps : list nat) :
  forall s s',
    add_pages total_pages ps s = Ok s' ->
    valid_indices total_pages s ->
    valid_indices total_pages s' /\ (ps <> [] \/ s <> [] -> s' <> []).
Proof.
  induction ps as [|p ps IH]; intros s s' E Hs; cbn [add_pages] in E.
  - injection E as <-. split; auto. intros [H|H]; congruence.
  - destruct (out_of_range p total_pages) eqn:Hp; [discriminate|].
    destruct (IH _ _ E (set_add_valid _ _ _ Hs Hp)) as [Hv Hne].
    split; auto. intros _. apply Hne. right. apply set_add_nonempty.
Qed.

Lemma add_chunk_valid (total_pages : nat) (chunk : string) (s s' : list nat) :
  add_chunk exceeds_digit_limit total_pages chunk s = Ok s' ->
  valid_indices total_pages s ->
  valid_indices total_pages s' /\ s' <> [].
Proof.
  unfold add_chunk. intros E Hs.
  destruct (PyStr.contains "-" chunk).
  - destruct (map Py.strip (PyStr.split_once "-" chunk)) as [|a_str [|b_str [|? ?]]];
      try discriminate.
    destruct (negb (PyStr.isdigit a_str && PyStr.isdigit b_str)); [discriminate|].
    destruct (int_of exceeds_digit_limit a_str) as [a|]; [|discriminate].
    destruct (int_of exceeds_digit_limit b_str) as [b|]; [|discriminate].
    cbn [and_then] in E.
    destruct (Nat.ltb_spec b a) as [Hlt|Hge];
      destruct (add_pages_valid _ _ _ _ E Hs) as [Hv Hne];
      (split; [exact Hv|]); apply Hne; left; intro Hnil;
      apply (f_equal (@List.length nat)) in Hnil; rewrite length_seq in Hnil;
      cbn in Hnil; lia.
  - destruct (negb (PyStr.isdigit chunk)); [discriminate|].
    destruct (int_of exceeds_digit_limit chunk) as [p|]; [|discriminate].
    cbn [and_then] in E.
    destruct (out_of_range p total_pages) eqn:Hp; [discriminate|].
    injection E as <-. split; [apply set_add_valid; auto|apply set_add_nonempty].
Qed.

Lemma add_chunks_valid (total_pages : nat) (chunks : list string) :
  forall s s',
    add_chunks exceeds_digit_limit total_pages chunks s = Ok s' ->
    valid_indices total_pages s ->
    valid_indices total_pages s' /\ (chunks <> [] -> s' <> []).
Proof.
  induction chunks as [|chunk rest IH]; intros s s' E Hs; cbn [add_chunks] in E.
  - injection E as <-. split; auto; congruence.
  - destruct (add_chunk exceeds_digit_limit total_pages chunk s) as [s1|] eqn:E1;
      [|discriminate].
    cbn [and_then] in E.
    destruct (add_chunk_valid _ _ _ _ E1 Hs) as [Hv1 Hne1].
    destruct (IH _ _ E Hv1) as [Hv Hne]. split; auto. intros _.
    destruct rest as [|c rest'].
    + cbn in E. injection E as <-. exact Hne1.
    + apply Hne. discriminate.
Qed.

Lemma parse_page_spec_valid (spec : string) (total_pages : nat) (pages : list nat) :
  _parse_page_spec exceeds_digit_limit spec total_pages = Ok pages ->
  pages <> []
  /\ StronglySorted lt pages
  /\ Forall (fun i => (i < total_pages)%nat) pages.
Proof.
  unfold _parse_page_spec. intro E.
  destruct (spec_chunks spec) as [|chunk rest] eqn:Ec; [discriminate|].
  destruct (add_chunks exceeds_digit_limit total_pages (chunk :: rest) [])
    as [s|] eqn:Es; [|discriminate].
  cbn [and_then] in E. injection E as <-.
  destruct (add_chunks_valid _ _ _ _ Es) as [[Hnd Hall] Hne].
  { split; constructor. }
  pose proof (sorted_ints_perm s) as Hperm.
  split.
  { intro Hnil. rewrite Hnil in Hperm. apply Permutation_nil in Hperm.
    apply Hne; [discriminate|exact Hperm]. }
  split.
  { apply sorted_nodup_strict; [apply sorted_ints_sorted|].
    apply (Permutation_NoDup (Permutation_sym Hperm)), Hnd. }
  rewrite Forall_forall in Hall |- *. intros i Hi.
  apply Hall, (Permutation_in _ Hperm), Hi.
Qed.

End PageSpecFacts.

(** *** Reading pages by index *)

Lemma pages_at_valid {A : Type} (doc : list A) (indices : list nat) :
  Forall (fun i => (i < List.length doc)%nat) indices ->
  exists out,
    pages_at doc indices = Ok out
    /\ List.length out = List.length indices
    /\ forall k i, nth_error indices k = Some i -> nth_error out k = nth_error doc i.
Proof.
  induction 1 as [|i rest Hi _ IH]; cbn [pages_at].
  - exists []. repeat split. intros [|k] i H; discriminate.
  - destruct IH as (more & E & Hlen & Hnth).
    destruct (nth_error doc i) as [page|] eqn:Ep.
    + rewrite E. cbn [and_then]. exists (page :: more).
      split; [reflexivity|]. split; [cbn; congruence|].
      intros [|k] j Hk; cbn [nth_error] in *.
      * injection Hk as <-. symmetry. exact Ep.
      * apply Hnth, Hk.
    + apply nth_error_None in Ep. lia.
Qed.

Lemma skipn_nth {A : Type} (doc : list A) :
  forall start page,
    nth_error doc start = Some page -> skipn start doc = page :: skipn (S start) doc.
Proof.
  induction doc as [|x doc IH]; intros [|start] page H; cbn [nth_error] in H;
    try discriminate.
  - injection H as ->. reflexivity.
  - cbn [skipn]. apply IH, H.
Qed.

Lemma pages_at_seq {A : Type} (doc : list A) (n : nat) :
  forall start,
    (start + n <= List.length doc)%nat ->
    pages_at doc (seq start n) = Ok (firstn n (skipn start doc)).
Proof.
  induction n as [|n IH]; intros start H; cbn [seq pages_at].
  - reflexivity.
  - destruct (nth_error doc start) as [page|] eqn:Ep.
    + rewrite IH by lia. cbn [and_then].
      rewrite (skipn_nth doc start page Ep). reflexivity.
    + apply nth_error_None in Ep. lia.
Qed.

(** *** Splitting *)

Lemma range_loop_done (turns start stop step : nat) :
  (stop <= start)%nat -> range_loop turns start stop step = [].
Proof.
  intro H. destruct turns; cbn [range_loop]; auto.
  destruct (Nat.ltb_spec start stop); [lia|reflexivity].
Qed.

Lemma split_parts_spec {A : Type} (doc : list A) (step : nat) :
  (1 <= step)%nat ->
  forall turns start part_idx,
    (start <= List.length doc)%nat ->
    (List.length doc - start <= turns)%nat ->
    exists parts,
      split_parts_from doc step (range_loop turns start (List.length doc) step) part_idx
      = Ok parts
      /\ List.concat (map snd parts) = skipn start doc
      /\ map fst parts = seq part_idx (List.length parts)
      /\ Forall (fun p => (1 <= List.length (snd p) <= step)%nat) parts
      /\ full_but_last step parts
      /\ (parts = [] <-> start = List.length doc).
Proof.
  intros Hstep turns.
  induction turns as [|turns IH]; intros start idx Hstart Hturns.
  - assert (start = List.length doc) by lia. subst start.
    exists []. cbn. rewrite skipn_all. repeat split; auto; constructor.
  - cbn [range_loop]. destruct (Nat.ltb_spec start (List.length doc)) as [Hlt|Hge].
    + cbn [split_parts_from].
      set (stop := Nat.min (start + step) (List.length doc)).
      assert (Hstop : (start < stop <= List.length doc)%nat) by (unfold stop; lia).
      rewrite pages_at_seq by lia. cbn [and_then].
      set (part := firstn (stop - start) (skipn start doc)).
      assert (Hpart : List.length part = (stop - start)%nat).
      { unfold part. rewrite length_firstn, length_skipn. lia. }
      destruct (Nat.le_gt_cases (List.length doc) (start + step)) as [Hend|Hmore].
      * rewrite range_loop_done by lia. cbn [split_parts_from and_then].
        exists [(idx, part)]. split; [reflexivity|].
        split.
        { cbn. rewrite app_nil_r. unfold part. apply firstn_all2.
          rewrite length_skipn. unfold stop. lia. }
        split; [reflexivity|].
        split; [repeat constructor; cbn [snd]; unfold stop in *; lia|].
        split; [exact I|]. split; [discriminate|lia].
      * destruct (IH (start + step)%nat (S idx)) as
          (more & E & Hcat & Hidx & Hsizes & Hfull & Hnil); [lia|lia|].
        rewrite E. cbn [and_then].
        exists ((idx, part) :: more). split; [reflexivity|].
        assert (Hstop' : stop = (start + step)%nat) by (unfold stop; lia).
        split.
        { cbn [map snd List.concat]. rewrite Hcat. unfold part.
          rewrite Hstop'. replace (start + step - start)%nat with step by lia.
          replace (skipn (start + step) doc) with (skipn step (skipn start doc))
            by (rewrite skipn_skipn; f_equal; lia).
          apply firstn_skipn. }
        split; [cbn [map fst List.length seq]; rewrite Hidx; reflexivity|].
        split; [constructor; [cbn [snd]; lia|exact Hsizes]|].
        split.
        { destruct more as [|m more'].
          - exfalso. assert (start + step = List.length doc)%nat by (apply Hnil; auto). lia.
          - cbn [full_but_last snd]. split; [lia|exact Hfull]. }
        split; [discriminate|lia].
    + assert (start = List.length doc) by lia. subst start.
      exists []. cbn. rewrite skipn_all. repeat split; auto; constructor.
Qed.

(** *** Characters of the chunks *)

Section CharFacts.
Variable p : ascii -> bool.






End CharFacts.



Section PageSpecErrors.
Variable exceeds_digit_limit : string -> bool.
Hypothesis no_limit : forall s, exceeds_digit_limit s = false.









End PageSpecErrors.

(** *** The pages a chunk stands for *)

Section ChunkFacts.
Variable exceeds_digit_limit : string -> bool.
Variable total_pages : nat.

Lemma add_pages_members (ps : list nat) :
  forall s s',
    add_pages total_pages ps s = Ok s' ->
    forall i, In i s' <-> In i s \/ In i (map (fun p => p - 1)%nat ps).
Proof.
  induction ps as [|p ps IH]; intros s s' E i; cbn [add_pages map In] in *.
  - injection E as <-. tauto.
  - destruct (out_of_range p total_pages); [discriminate|].
    rewrite (IH _ _ E i), set_add_in. intuition.
Qed.

Lemma add_pages_any_set (ps : list nat) :
  forall s s', add_pages total_pages ps s = Ok s' ->
               forall s0, exists s0', add_pages total_pages ps s0 = Ok s0'.
Proof.
  induction ps as [|p ps IH]; intros s s' E s0; cbn [add_pages] in *; [eauto|].
  destruct (out_of_range p total_pages); [discriminate|]. eapply IH, E.
Qed.

(** Whatever the set, a chunk either raises or adds the pages of one list. *)
Lemma add_chunk_normal (chunk : string) :
  (exists e, forall s, add_chunk exceeds_digit_limit total_pages chunk s = Raise e)
  \/ (exists ps, forall s, add_chunk exceeds_digit_limit total_pages chunk s
                           = add_pages total_pages ps s).
Proof.
  unfold add_chunk. destruct (PyStr.contains "-" chunk).
  - destruct (map Py.strip (PyStr.split_once "-" chunk)) as [|a [|b [|? ?]]]; eauto.
    destruct (negb (PyStr.isdigit a && PyStr.isdigit b)); eauto.
    destruct (int_of exceeds_digit_limit a) as [x|]; cbn [and_then]; eauto.
    destruct (int_of exceeds_digit_limit b) as [y|]; cbn [and_then]; eauto.
    destruct (y <? x)%nat; eauto.
  - destruct (negb (PyStr.isdigit chunk)); eauto.
    destruct (int_of exceeds_digit_limit chunk) as [q|]; cbn [and_then]; eauto.
    right. exists [q]. intro s. cbn [add_pages].
    destruct (out_of_range q total_pages); reflexivity.
Qed.

Lemma add_chunk_members (chunk : string) (s s' : list nat) :
  add_chunk exceeds_digit_limit total_pages chunk s = Ok s' ->
  exists d,
    add_chunk exceeds_digit_limit total_pages chunk [] = Ok d
    /\ forall i, In i s' <-> In i s \/ In i d.
Proof.
  intro E. destruct (add_chunk_normal chunk) as [(e & H)|(ps & H)].
  - rewrite H in E. discriminate.
  - rewrite H in E. destruct (add_pages_any_set ps _ _ E []) as (d & Ed).
    exists d. split; [rewrite H; exact Ed|].
    intro i. rewrite (add_pages_members ps _ _ E i), (add_pages_members ps _ _ Ed i).
    cbn [In]. tauto.
Qed.

Lemma add_chunk_any_set (chunk : string) (d : list nat) :
  add_chunk exceeds_digit_limit total_pages chunk [] = Ok d ->
  forall s, exists s', add_chunk exceeds_digit_limit total_pages chunk s = Ok s'.
Proof.
  intros E s. destruct (add_chunk_normal chunk) as [(e & H)|(ps & H)].
  - rewrite H in E. discriminate.
  - rewrite H in E |- *. eapply add_pages_any_set, E.
Qed.

Lemma add_chunks_members (chunks : list string) :
  forall s s',
    add_chunks exceeds_digit_limit total_pages chunks s = Ok s' ->
    Forall (fun chunk =>
              exists d, add_chunk exceeds_digit_limit total_pages chunk [] = Ok d)
           chunks
    /\ forall i,
         In i s'
         <-> In i s
             \/ exists chunk d,
                  In chunk chunks
                  /\ add_chunk exceeds_digit_limit total_pages chunk [] = Ok d
                  /\ In i d.
Proof.
  induction chunks as [|chunk rest IH]; intros s s' E; cbn [add_chunks] in E.
  - injection E as <-. split; [constructor|].
    intro i. split; [auto|]. intros [H|(c & d & [] & _)]. exact H.
  - destruct (add_chunk exceeds_digit_limit total_pages chunk s) as [s1|] eqn:E1;
      cbn [and_then] in E; [|discriminate].
    destruct (add_chunk_members _ _ _ E1) as (d & Ed & Hd).
    destruct (IH _ _ E) as [Hall Hmem].
    split; [constructor; eauto|].
    intro i. rewrite Hmem, Hd. split.
    + intros [[H|H]|(c & d' & Hc & Ec & Hi)]; auto.
      * right. exists chunk, d. cbn [In]. auto.
      * right. exists c, d'. cbn [In]. auto.
    + intros [H|(c & d' & [<-|Hc] & Ec & Hi)]; auto.
      * rewrite Ed in Ec. injection Ec as <-. auto.
      * right. exists c, d'. auto.
Qed.

Lemma add_chunks_succeed (chunks : list string) :
  Forall (fun chunk =>
            exists d, add_chunk exceeds_digit_limit total_pages chunk [] = Ok d)
         chunks ->
  forall s, exists s', add_chunks exceeds_digit_limit total_pages chunks s = Ok s'.
Proof.
  induction 1 as [|chunk rest (d & Ed) _ IH]; intro s; cbn [add_chunks]; [eauto|].
  destruct (add_chunk_any_set chunk d Ed s) as (s1 & ->). cbn [and_then]. apply IH.
Qed.

End ChunkFacts.

Lemma strictly_sorted_unique (l1 : list nat) :
  forall l2,
    StronglySorted lt l1 -> StronglySorted lt l2 ->
    (forall i, In i l1 <-> In i l2) -> l1 = l2.
Proof.
  induction l1 as [|x l1 IH]; intros l2 H1 H2 Hmem.
  - destruct l2 as [|y l2]; auto. destruct (proj2 (Hmem y) (or_introl eq_refl)).
  - destruct l2 as [|y l2]; [destruct (proj1 (Hmem x) (or_introl eq_refl))|].
    apply StronglySorted_inv in H1, H2.
    destruct H1 as [H1 Hx], H2 as [H2 Hy].
    rewrite Forall_forall in Hx, Hy.
    assert (x = y).
    { destruct (proj1 (Hmem x) (or_introl eq_refl)) as [E|Hin]; auto.
      destruct (proj2 (Hmem y) (or_introl eq_refl)) as [E|Hin']; auto.
      specialize (Hx y Hin'). specialize (Hy x Hin). lia. }
    subst y. f_equal. apply IH; auto.
    intro i. split; intro Hi.
    + destruct (proj1 (Hmem i) (or_intror Hi)) as [E|Hin]; auto.
      subst i. specialize (Hx x Hi). lia.
    + destruct (proj2 (Hmem i) (or_intror Hi)) as [E|Hin]; auto.
      subst i. specialize (Hy x Hi). lia.
Qed.

(** *** Chunks made of digits *)

Section DigitChunks.
Local Open Scope string_scope.

Lemma digit_plain (c : ascii) :
  PyStr.is_digit c = true ->
  Py.is_space c = false /\ Ascii.eqb c "," = false /\ Ascii.eqb c "-" = false.
Proof.
  destruct c as [[] [] [] [] [] [] [] []]; vm_compute; intro H;
    try discriminate H; repeat split.
Qed.

Lemma all_chars_app (q : ascii -> bool) (a b : string) :
  Py.all_chars q (a ++ b) = Py.all_chars q a && Py.all_chars q b.
Proof.
  induction a as [|c a IH]; cbn [append Py.all_chars]; auto.
  rewrite IH, andb_assoc. reflexivity.
Qed.

Lemma all_chars_impl (q q' : ascii -> bool) (s : string) :
  (forall c, q c = true -> q' c = true) ->
  Py.all_chars q s = true -> Py.all_chars q' s = true.
Proof.
  intro H. induction s as [|c s IH]; cbn [Py.all_chars]; auto.
  intro E. apply andb_true_iff in E. destruct E as [Ec Es].
  rewrite (H c Ec), (IH Es). reflexivity.
Qed.

Lemma split_no_separator (sep : ascii) (s : string) :
  Py.all_chars (fun c => negb (Ascii.eqb c sep)) s = true -> PyStr.split sep s = [s].
Proof.
  induction s as [|c s IH]; cbn [PyStr.split Py.all_chars]; auto.
  intro H. apply andb_true_iff in H. destruct H as [Hc Hs].
  apply negb_true_iff in Hc. rewrite Hc, (IH Hs). reflexivity.
Qed.

Lemma split_once_first (sep : ascii) (a b : string) :
  Py.all_chars (fun c => negb (Ascii.eqb c sep)) a = true ->
  PyStr.split_once sep (a ++ String sep b) = [a; b]
  /\ PyStr.contains sep (a ++ String sep b) = true.
Proof.
  induction a as [|c a IH]; cbn [append PyStr.split_once PyStr.contains Py.all_chars].
  - intros _. rewrite Ascii.eqb_refl. auto.
  - intro H. apply andb_true_iff in H. destruct H as [Hc Ha].
    apply negb_true_iff in Hc. rewrite Hc. destruct (IH Ha) as [-> ->]. auto.
Qed.

Lemma strip_no_space (s : string) :
  Py.all_chars (fun c => negb (Py.is_space c)) s = true -> Py.strip s = s.
Proof.
  intro H. unfold Py.strip.
  assert (Hl : Py.lstrip s = s).
  { destruct s as [|c s]; auto. cbn [Py.all_chars] in H.
    apply andb_true_iff in H. destruct H as [Hc _].
    apply negb_true_iff in Hc. cbn [Py.lstrip]. rewrite Hc. reflexivity. }
  rewrite Hl. clear Hl. induction s as [|c s IH]; auto.
  cbn [Py.all_chars] in H. apply andb_true_iff in H. destruct H as [Hc Hs].
  apply negb_true_iff in Hc. rewrite rstrip_cons, (IH Hs), Hc.
  destruct s; reflexivity.
Qed.

Lemma isdigit_chars (s : string) :
  PyStr.isdigit s = true -> s <> "" /\ Py.all_chars PyStr.is_digit s = true.
Proof. destruct s; [discriminate|]. intro H. split; [discriminate|exact H]. Qed.

Variable exceeds_digit_limit : string -> bool.
Variable total_pages : nat.

Lemma range_chunk (a b : string) :
  PyStr.isdigit a = true -> PyStr.isdigit b = true ->
  spec_chunks (a ++ "-" ++ b) = [a ++ "-" ++ b]
  /\ forall s,
       add_chunk exceeds_digit_limit total_pages (a ++ "-" ++ b) s
       = (x <~ int_of exceeds_digit_limit a ;;
          y <~ int_of exceeds_digit_limit b ;;
          add_pages total_pages
            (seq (Nat.min x y) (Nat.max x y + 1 - Nat.min x y)) s).
Proof.
  intros Ha Hb.
  destruct (isdigit_chars a Ha) as [Hane Hda], (isdigit_chars b Hb) as [Hbne Hdb].
  assert (Hplain : forall (q : ascii -> bool),
             (forall c, PyStr.is_digit c = true -> q c = true) ->
             Py.all_chars q a = true /\ Py.all_chars q b = true).
  { intros q Hq. split; eapply all_chars_impl; eauto. }
  destruct (Hplain (fun c => negb (Py.is_space c))) as [Hsa Hsb].
  { intros c Hc. destruct (digit_plain c Hc) as (-> & _). reflexivity. }
  destruct (Hplain (fun c => negb (Ascii.eqb c ","))) as [Hca Hcb].
  { intros c Hc. destruct (digit_plain c Hc) as (_ & -> & _). reflexivity. }
  destruct (Hplain (fun c => negb (Ascii.eqb c "-"))) as [Hma Hmb].
  { intros c Hc. destruct (digit_plain c Hc) as (_ & _ & ->). reflexivity. }
  split.
  - unfold spec_chunks. rewrite split_no_separator.
    + cbn [map filter]. rewrite strip_no_space.
      * destruct a; [congruence|reflexivity].
      * rewrite all_chars_app. cbn [append Py.all_chars]. rewrite Hsa, Hsb. reflexivity.
    + rewrite all_chars_app. cbn [append Py.all_chars]. rewrite Hca, Hcb. reflexivity.
  - intro s. unfold add_chunk. cbn [append].
    destruct (split_once_first "-" a b Hma) as [-> ->]. cbn [map].
    rewrite (strip_no_space a Hsa), (strip_no_space b Hsb), Ha, Hb. cbn [andb negb].
    destruct (int_of exceeds_digit_limit a) as [x|]; cbn [and_then]; auto.
    destruct (int_of exceeds_digit_limit b) as [y|]; cbn [and_then]; auto.
    destruct (Nat.ltb_spec y x).
    + rewrite Nat.min_r, Nat.max_l by lia. reflexivity.
    + rewrite Nat.min_l, Nat.max_r by lia. reflexivity.
Qed.

End DigitChunks.



Lemma int_of_raises (exceeds_digit_limit : string -> bool) (s : string) (e : Failure) :
  int_of exceeds_digit_limit s = Raise e -> e = ValueError.
Proof.
  unfold int_of. destruct (_ && _); [discriminate|]. congruence.
Qed.

(** ** Facts on finishing a sheet *)

Lemma fold_left_flat_map {A B C : Type} (f : A -> C -> A) (g : B -> list C) (l : list B) :
  forall a, fold_left f (flat_map g l) a = fold_left (fun a x => fold_left f (g x) a) l a.
Proof.
  induction l as [|x l IH]; intro a; cbn [flat_map fold_left]; auto.
  rewrite fold_left_app. apply IH.
Qed.

Lemma fold_left_map {A B C : Type} (f : A -> C -> A) (g : B -> C) (l : list B) :
  forall a, fold_left f (map g l) a = fold_left (fun a x => f a (g x)) l a.
Proof. induction l as [|x l IH]; intro a; cbn [map fold_left]; auto. Qed.

Lemma fold_left_same {A B : Type} (f g : A -> B -> A) (l : list B) :
  (forall a x, f a x = g a x) -> forall a, fold_left f l a = fold_left g l a.
Proof.
  intro H. induction l as [|x l IH]; intro a; cbn [fold_left]; auto.
  rewrite H. apply IH.
Qed.

Lemma scan_sheet_cells (ws : Worksheet) : scan_sheet ws = scan_cells ws (extent_cells ws).
Proof.
  unfold scan_sheet, scan_cells, extent_cells. rewrite fold_left_flat_map.
  apply fold_left_same. intros b r. unfold scan_row. rewrite fold_left_map. reflexivity.
Qed.

Lemma extent_cells_in (ws : Worksheet) (r c : nat) :
  In (r, c) (extent_cells ws)
  <-> (1 <= r <= ws_max_row ws)%nat /\ (1 <= c <= ws_max_column ws)%nat.
Proof.
  unfold extent_cells. rewrite in_flat_map. split.
  - intros (r' & Hr & Hc). apply in_map_iff in Hc. destruct Hc as (c' & E & Hc).
    injection E as -> ->. apply in_seq in Hr, Hc. lia.
  - intros [Hr Hc]. exists r. split; [apply in_seq; lia|].
    apply in_map_iff. exists c. split; [reflexivity|apply in_seq; lia].
Qed.

Lemma scan_nothing (ws : Worksheet) (cells : list (nat * nat)) :
  (forall r c, In (r, c) cells -> cell_non_empty (ws_value ws r c) = false) ->
  forall b0,
    fold_left (fun b rc => scan_cell ws (fst rc) b (snd rc)) cells b0 = b0.
Proof.
  induction cells as [|[r c] cells IH]; intros Hempty b0; cbn [fold_left fst snd]; auto.
  unfold scan_cell at 2. rewrite (Hempty r c (or_introl eq_refl)).
  apply IH. intros r' c' H'. apply Hempty. right. exact H'.
Qed.

(** The bounds after a scan are the bounding box of the cells with text. *)
Lemma scan_cells_spec (ws : Worksheet) (cells : list (nat * nat)) :
  let b := scan_cells ws cells in
  (min_row b = None <-> min_col b = None)
  /\ (min_row b = None ->
      forall r c, In (r, c) cells -> cell_non_empty (ws_value ws r c) = false)
  /\ (forall r0 c0,
        min_row b = Some r0 -> min_col b = Some c0 ->
        (forall r c, In (r, c) cells -> cell_non_empty (ws_value ws r c) = true ->
                     (r0 <= r <= max_row b)%nat /\ (c0 <= c <= max_col b)%nat)
        /\ (exists c, In (r0, c) cells /\ cell_non_empty (ws_value ws r0 c) = true)
        /\ (exists c, In (max_row b, c) cells
                      /\ cell_non_empty (ws_value ws (max_row b) c) = true)
        /\ (exists r, In (r, c0) cells /\ cell_non_empty (ws_value ws r c0) = true)
        /\ (exists r, In (r, max_col b) cells
                      /\ cell_non_empty (ws_value ws r (max_col b)) = true)).
Proof.
  induction cells as [|[r1 c1] cells IH] using rev_ind.
  - cbn. split; [tauto|]. split; [intros _ r c []|]. intros r0 c0 H. discriminate.
  - unfold scan_cells in *. rewrite fold_left_app. cbn [fold_left fst snd].
    set (b := fold_left _ cells _) in *. cbv zeta in IH.
    destruct IH as (Hnone & Hempty & Hbox).
    unfold scan_cell. destruct (cell_non_empty (ws_value ws r1 c1)) eqn:E1.
    + cbn [min_row min_col max_row max_col].
      split; [unfold grow; destruct (min_row b), (min_col b); split; discriminate|].
      split; [unfold grow; destruct (min_row b); discriminate|].
      intros r0 c0 Hr0 Hc0.
      destruct (min_row b) as [mr|] eqn:Emr, (min_col b) as [mc|] eqn:Emc;
        try (destruct Hnone as [H1 H2];
             (specialize (H1 eq_refl) || specialize (H2 eq_refl)); discriminate).
      * cbn [grow] in Hr0, Hc0. injection Hr0 as <-. injection Hc0 as <-.
        destruct (Hbox mr mc eq_refl eq_refl)
          as (Hin & (ca & Ha & Ea) & (cb & Hb & Eb) & (rc & Hc & Ec) & (rd & Hd & Ed)).
        split.
        { intros r c Hrc Hne. apply in_app_iff in Hrc. destruct Hrc as [Hrc|[Hrc|[]]].
          - destruct (Hin r c Hrc Hne). lia.
          - injection Hrc as <- <-.
            specialize (Hin mr ca Ha Ea). specialize (Hin). lia. }
        split.
        { destruct (Nat.min_spec mr r1) as [[_ ->]|[_ ->]];
            [exists ca|exists c1]; split; auto; apply in_app_iff; cbn; auto. }
        split.
        { destruct (Nat.max_spec (max_row b) r1) as [[_ ->]|[_ ->]];
            [exists c1|exists cb]; split; auto; apply in_app_iff; cbn; auto. }
        split.
        { destruct (Nat.min_spec mc c1) as [[_ ->]|[_ ->]];
            [exists rc|exists r1]; split; auto; apply in_app_iff; cbn; auto. }
        { destruct (Nat.max_spec (max_col b) c1) as [[_ ->]|[_ ->]];
            [exists r1|exists rd]; split; auto; apply in_app_iff; cbn; auto. }
      * cbn [grow] in Hr0, Hc0. injection Hr0 as <-. injection Hc0 as <-.
        specialize (Hempty eq_refl).
        assert (Hb0 : max_row b = 0%nat /\ max_col b = 0%nat).
        { unfold b. rewrite (scan_nothing ws cells Hempty). auto. }
        destruct Hb0 as [-> ->]. rewrite !Nat.max_0_l.
        split.
        { intros r c Hrc Hne. apply in_app_iff in Hrc. destruct Hrc as [Hrc|[Hrc|[]]].
          - rewrite (Hempty r c Hrc) in Hne. discriminate.
          - injection Hrc as <- <-. lia. }
        repeat split; eexists; (split; [apply in_app_iff; right; left; reflexivity|exact E1]).
    + split; [exact Hnone|].
      split.
      { intros Hn r c Hrc. apply in_app_iff in Hrc. destruct Hrc as [Hrc|[Hrc|[]]].
        - apply Hempty; auto.
        - injection Hrc as <- <-. exact E1. }
      intros r0 c0 Hr0 Hc0.
      destruct (Hbox r0 c0 Hr0 Hc0)
        as (Hin & (ca & Ha & Ea) & (cb & Hb & Eb) & (rc & Hc & Ec) & (rd & Hd & Ed)).
      split.
      { intros r c Hrc Hne. apply in_app_iff in Hrc. destruct Hrc as [Hrc|[Hrc|[]]].
        - apply Hin; auto.
        - injection Hrc as <- <-. congruence. }
      repeat split; eexists; (split; [apply in_app_iff; left; eassumption|assumption]).
Qed.

Lemma borders_in (ws : Worksheet) (r c : nat) :
  In (r, c) (_apply_visible_borders ws)
  <-> (exists r1 c1, filled ws r1 c1 /\ (r1 <= r)%nat)
      /\ (exists r2 c2, filled ws r2 c2 /\ (r <= r2)%nat)
      /\ (exists r3 c3, filled ws r3 c3 /\ (c3 <= c)%nat)
      /\ (exists r4 c4, filled ws r4 c4 /\ (c <= c4)%nat).
Proof.
  unfold _apply_visible_borders. rewrite scan_sheet_cells.
  destruct (scan_cells_spec ws (extent_cells ws)) as (Hnone & Hempty & Hbox).
  set (b := scan_cells ws (extent_cells ws)) in *.
  assert (Hfilled : forall r' c', In (r', c') (extent_cells ws) ->
                                  cell_non_empty (ws_value ws r' c') = true ->
                                  filled ws r' c').
  { intros r' c' Hin Hne. apply extent_cells_in in Hin. unfold filled. tauto. }
  destruct (min_row b) as [r0|] eqn:Er, (min_col b) as [c0|] eqn:Ec.
  - destruct (Hbox r0 c0 eq_refl eq_refl)
      as (Hin & (ca & Ha & Ea) & (cb & Hb & Eb) & (rc & Hc & Ec') & (rd & Hd & Ed)).
    rewrite in_flat_map. split.
    + intros (r' & Hr & Hrc). apply in_map_iff in Hrc.
      destruct Hrc as (c' & E & Hc'). injection E as -> ->.
      apply in_seq in Hr, Hc'.
      split; [exists r0, ca; split; [auto|lia]|].
      split; [exists (max_row b), cb; split; [auto|lia]|].
      split; [exists rc, c0; split; [auto|lia]|].
      exists rd, (max_col b). split; [auto|lia].
    + intros ((r1 & c1 & (H1r & H1c & H1) & L1) & (r2 & c2 & (H2r & H2c & H2) & L2)
              & (r3 & c3 & (H3r & H3c & H3) & L3) & (r4 & c4 & (H4r & H4c & H4) & L4)).
      destruct (Hin r1 c1) as [? ?]; [apply extent_cells_in; auto|auto|].
      destruct (Hin r2 c2) as [? ?]; [apply extent_cells_in; auto|auto|].
      destruct (Hin r3 c3) as [? ?]; [apply extent_cells_in; auto|auto|].
      destruct (Hin r4 c4) as [? ?]; [apply extent_cells_in; auto|auto|].
      exists r. split; [apply in_seq; lia|].
      apply in_map_iff. exists c. split; [reflexivity|apply in_seq; lia].
  - destruct Hnone as [_ H]. specialize (H eq_refl). discriminate.
  - destruct Hnone as [H _]. specialize (H eq_refl). discriminate.
  - split; [intros []|].
    intros ((r1 & c1 & (H1r & H1c & H1) & _) & _).
    rewrite (Hempty eq_refl r1 c1) in H1; [discriminate|].
    apply extent_cells_in. auto.
Qed.

(** *** Column widths *)

Ltac split_min_max :=
  repeat match goal with
         | |- context [Py.max2 ?a ?b] => destruct (max2_cases a b) as [[? ->]|[? ->]]
         | |- context [Py.min2 ?a ?b] => destruct (min2_cases a b) as [[? ->]|[? ->]]
         end.

Lemma longest_value_from (ws : Worksheet) (c : nat) (rows : list nat) :
  forall mx,
    let m := fold_left
               (fun mx r =>
                  match ws_value ws r c with
                  | None => mx
                  | Some v =>
                      let ln := String.length v in if (mx <? ln)%nat then ln else mx
                  end) rows mx in
    (mx <= m)%nat
    /\ forall r v, In r rows -> ws_value ws r c = Some v -> (String.length v <= m)%nat.
Proof.
  induction rows as [|r rows IH]; intro mx; cbv zeta; cbn [fold_left].
  - split; [lia|intros r v []].
  - match goal with |- context [fold_left _ rows ?a] =>
      pose proof (IH a) as H; cbv zeta in H; destruct H as [Hle Hall] end.
    split.
    + destruct (ws_value ws r c) as [v|]; auto.
      destruct (Nat.ltb_spec mx (String.length v)); lia.
    + intros r' v' [<-|Hin] Hv; [|eauto].
      rewrite Hv in Hle |- *.
      destruct (Nat.ltb_spec mx (String.length v')); lia.
Qed.

Lemma column_width_bounds (ws : Worksheet) (c : nat) :
  10 <= column_width ws c <= 50
  /\ forall r v,
       (1 <= r <= Nat.min (ws_max_row ws) 4000)%nat ->
       ws_value ws r c = Some v ->
       50 <= column_width ws c
       \/ inject_Z (Z.of_nat (String.length v)) * (95 # 100) <= column_width ws c.
Proof.
  unfold column_width, longest_value.
  destruct (longest_value_from ws c (seq 1 (Nat.min (ws_max_row ws) 4000)) 0)
    as [_ Hall].
  set (mx := fold_left _ _ _) in *. cbv zeta in Hall.
  set (w := inject_Z (Z.of_nat mx) * (95 # 100)).
  split.
  - split_min_max; lra.
  - intros r v Hr Hv.
    assert (Hlen : (String.length v <= mx)%nat) by (apply (Hall r v); [apply in_seq; lia|exact Hv]).
    assert (Hq : inject_Z (Z.of_nat (String.length v)) <= inject_Z (Z.of_nat mx))
      by (rewrite <- Zle_Qle; lia).
    split_min_max; unfold w in *; lra.
Qed.

(** *** The worksheet of a written sheet *)

Lemma sheet_lookup_in (sheet : Sheet) (x : CellWrite) :
  NoDup (map coord sheet) -> In x sheet ->
  sheet_lookup sheet (row x) (column x) = value x.
Proof.
  unfold sheet_lookup. induction sheet as [|y sheet IH]; intros Hnd Hin; [destruct Hin|].
  cbn [map] in Hnd. apply NoDup_cons_iff in Hnd. destruct Hnd as [Hy Hnd].
  cbn [find]. destruct Hin as [->|Hin].
  - rewrite !Nat.eqb_refl. reflexivity.
  - destruct ((row y =? row x)%nat && (column y =? column x)%nat) eqn:E; auto.
    apply andb_true_iff in E. destruct E as [Er Ec].
    apply Nat.eqb_eq in Er, Ec. exfalso. apply Hy.
    apply in_map_iff. exists x. split; [|exact Hin].
    unfold coord. congruence.
Qed.

Lemma list_max_in (l : list nat) (n : nat) : In n l -> (n <= list_max l)%nat.
Proof.
  intro H. pose proof (proj1 (list_max_le l (list_max l)) (Nat.le_refl _)) as Hall.
  rewrite Forall_forall in Hall. auto.
Qed.

Lemma sheet_cell_filled (sheet : Sheet) (x : CellWrite) :
  NoDup (map coord sheet) ->
  Forall (fun c => (1 <= row c)%nat /\ (1 <= column c)%nat) sheet ->
  In x sheet -> cell_non_empty (value x) = true ->
  filled (sheet_worksheet sheet) (row x) (column x).
Proof.
  intros Hnd Hall Hin Hne. rewrite Forall_forall in Hall. destruct (Hall x Hin).
  unfold filled, sheet_worksheet. cbn [ws_max_row ws_max_column ws_value].
  rewrite (sheet_lookup_in sheet x Hnd Hin).
  repeat split; auto; apply list_max_in, in_map, Hin.
Qed.

(** ** Facts on file names *)

Lemma sub_runs_chars (s : string) :
  forall in_run, Py.all_chars name_char (sub_runs in_run s) = true.
Proof.
  induction s as [|c s IH]; intro in_run; cbn [sub_runs]; auto.
  destruct (name_char c) eqn:E.
  - cbn [Py.all_chars]. rewrite E, IH. reflexivity.
  - destruct in_run; [apply IH|]. cbn [Py.all_chars]. rewrite IH. reflexivity.
Qed.

Lemma sub_runs_clean (s : string) :
  Py.all_chars name_char s = true -> forall in_run, sub_runs in_run s = s.
Proof.
  induction s as [|c s IH]; cbn [Py.all_chars sub_runs]; auto.
  intros H in_run. apply andb_true_iff in H. destruct H as [Hc Hs].
  rewrite Hc, (IH Hs). reflexivity.
Qed.

Section StripChars.
Variable chars : ascii -> bool.
Variable q : ascii -> bool.

Lemma all_chars_lstrip_chars (s : string) :
  Py.all_chars q s = true -> Py.all_chars q (PyStr.lstrip_chars chars s) = true.
Proof.
  induction s as [|c s IH]; cbn [PyStr.lstrip_chars Py.all_chars]; auto.
  intro H. apply andb_true_iff in H. destruct H as [Hc Hs].
  destruct (chars c); auto. cbn [Py.all_chars]. rewrite Hc, Hs. reflexivity.
Qed.

Lemma rstrip_chars_cons (c : ascii) (s : string) :
  PyStr.rstrip_chars chars (String c s)
  = match PyStr.rstrip_chars chars s with
    | EmptyString => if chars c then EmptyString else String c EmptyString
    | r => String c r
    end.
Proof. reflexivity. Qed.

Lemma all_chars_rstrip_chars (s : string) :
  Py.all_chars q s = true -> Py.all_chars q (PyStr.rstrip_chars chars s) = true.
Proof.
  induction s as [|c s IH]; auto. rewrite rstrip_chars_cons. cbn [Py.all_chars].
  intro H. apply andb_true_iff in H. destruct H as [Hc Hs].
  specialize (IH Hs). destruct (PyStr.rstrip_chars chars s) as [|d r].
  - destruct (chars c); cbn [Py.all_chars]; auto. rewrite Hc. reflexivity.
  - cbn [Py.all_chars] in *. rewrite Hc, IH. reflexivity.
Qed.

Lemma rstrip_chars_idem (s : string) :
  PyStr.rstrip_chars chars (PyStr.rstrip_chars chars s) = PyStr.rstrip_chars chars s.
Proof.
  induction s as [|c s IH]; auto. rewrite rstrip_chars_cons.
  destruct (PyStr.rstrip_chars chars s) as [|d r] eqn:E.
  - destruct (chars c) eqn:Ec; auto.
    rewrite rstrip_chars_cons. cbn [PyStr.rstrip_chars]. rewrite Ec. reflexivity.
  - rewrite rstrip_chars_cons, IH. reflexivity.
Qed.

Lemma lstrip_chars_idem (s : string) :
  PyStr.lstrip_chars chars (PyStr.lstrip_chars chars s) = PyStr.lstrip_chars chars s.
Proof.
  induction s as [|c s IH]; auto. cbn [PyStr.lstrip_chars].
  destruct (chars c) eqn:E; auto. cbn [PyStr.lstrip_chars]. rewrite E. reflexivity.
Qed.

Lemma lstrip_rstrip_chars (s : string) :
  PyStr.lstrip_chars chars s = s ->
  PyStr.lstrip_chars chars (PyStr.rstrip_chars chars s) = PyStr.rstrip_chars chars s.
Proof.
  destruct s as [|c s]; auto. intro H.
  assert (Hc : chars c = false).
  { cbn [PyStr.lstrip_chars] in H. destruct (chars c) eqn:E; auto.
    assert (L : forall t, (String.length (PyStr.lstrip_chars chars t) <= String.length t)%nat).
    { induction t as [|d t IHt]; cbn [PyStr.lstrip_chars String.length]; auto.
      destruct (chars d); cbn [String.length]; lia. }
    specialize (L s). rewrite H in L. cbn in L. lia. }
  rewrite rstrip_chars_cons.
  destruct (PyStr.rstrip_chars chars s); [rewrite Hc|];
    cbn [PyStr.lstrip_chars]; rewrite Hc; reflexivity.
Qed.

Lemma strip_chars_idem (s : string) :
  PyStr.strip_chars chars (PyStr.strip_chars chars s) = PyStr.strip_chars chars s.
Proof.
  unfold PyStr.strip_chars.
  rewrite (lstrip_rstrip_chars (PyStr.lstrip_chars chars s) (lstrip_chars_idem s)).
  apply rstrip_chars_idem.
Qed.

End StripChars.

(** ** Facts on blank pages *)

Lemma blank_page_monotone (page : PdfPage) (t t' : Z) :
  (t <= t')%Z -> _is_blank_page page t = true -> _is_blank_page page t' = true.
Proof.
  unfold _is_blank_page. intros Ht H.
  rewrite !andb_true_iff in *. destruct H as [H Hsize]. split; [exact H|].
  apply Z.leb_le in Hsize. apply Z.leb_le. lia.
Qed.

Lemma visible_page_not_blank (page : PdfPage) (t : Z) :
  detected_content page -> _is_blank_page page t = false.
Proof.
  unfold detected_content, _is_blank_page.
  intros [H|[(n & H & Hn)|(txt & H & Ht)]]; rewrite H.
  - cbn [negb]. rewrite andb_false_r. reflexivity.
  - destruct (Nat.ltb_spec 0 n); [|lia]. cbn [negb]. rewrite andb_false_r. reflexivity.
  - apply String.eqb_neq in Ht. rewrite Ht. reflexivity.
Qed.

(** A page is blank exactly when the test finds nothing on it and its
    content streams are within the threshold. *)
Lemma blank_page_iff (page : PdfPage) (t : Z) :
  _is_blank_page page t = true
  <-> ~ detected_content page /\ (Z.of_nat (_page_content_size page) <= t)%Z.
Proof.
  split.
  - intro H. split.
    + intro D. rewrite (visible_page_not_blank page t D) in H. discriminate H.
    + unfold _is_blank_page in H. rewrite !andb_true_iff in H.
      destruct H as [_ H]. apply Z.leb_le, H.
  - intros [D Hs]. unfold _is_blank_page, detected_content in *.
    rewrite !andb_true_iff. repeat split.
    + destruct (extract_text page) as [[t0|]|] eqn:E; try reflexivity.
      apply String.eqb_eq. destruct (string_dec (Py.strip t0) ""); auto.
      exfalso. apply D. right. right. exists t0. auto.
    + destruct (has_annots page) eqn:E; [|reflexivity].
      exfalso. apply D. left. reflexivity.
    + destruct (image_count page) as [[|n]|] eqn:E; try reflexivity.
      exfalso. apply D. right. left. exists (S n). split; [reflexivity|lia].
    + apply Z.leb_le, Hs.
Qed.
(** ** The claims on clustering *)

(** With exact means the centers keep the order and the distance of the
    clusters: they are ascending, and clustering them again changes nothing.
    The two lemmas below say so for the rational reading of the arithmetic.
    The claims on the centers are settled after them on binary64, where the
    rounding of [sum(c) / len(c)] breaks both. *)
Lemma exact_means_ascending (values : list Q) (tolerance : Q) :
  _cluster_positions values tolerance = Some (cluster_1d values tolerance)
  /\ ascending (cluster_1d values tolerance).
Proof.
  split; [apply cluster_positions_refines|].
  apply separated_ascending with (tol := tolerance), cluster_1d_separated.
Qed.

Lemma exact_means_idempotent (values : list Q) (tolerance : Q) :
  exists centers,
    _cluster_positions values tolerance = Some centers
    /\ position_clusters centers tolerance = Some (map (fun c => [c]) centers)
    /\ _cluster_positions centers tolerance = Some centers.
Proof.
  exists (cluster_1d values tolerance).
  split; [apply cluster_positions_refines|].
  pose proof (cluster_1d_separated values tolerance) as Hsep.
  set (centers := cluster_1d values tolerance) in *.
  assert (Hsorted : Py.sorted centers = centers).
  { apply (sort_of_sorted (fun v => v)).
    apply (separated_ascending tolerance), Hsep. }
  assert (Hcl : position_clusters centers tolerance
                = Some (map (fun c => [c]) centers)).
  { destruct centers as [|c0 rest] eqn:E; [reflexivity|].
    rewrite (position_clusters_chain _ tolerance c0 rest Hsorted).
    rewrite (separated_chain tolerance rest c0 Hsep). reflexivity. }
  split; [exact Hcl|].
  rewrite cluster_positions_clusters, Hcl. cbn [Py.bind].
  clear. induction centers as [|c centers IH]; [reflexivity|].
  cbn [map Py.comprehension]. rewrite mean_singleton, IH. reflexivity.
Qed.

Section ClaimsBinary64.
Import F64Samples.
#[local] Set Warnings "-inexact-float".
Local Open Scope float_scope.

(** C6 as stated fails on the rounded means.  With tolerance 0 the five
    values 0.21 make the first cluster and the eleven values one step above
    make the second; the first mean is rounded up, the second down, and the
    two centers come out in descending order. *)
Lemma cluster_centers_not_ascending :
  Forall F64.finite two_plateaus
  /\ F64.sorted two_plateaus = two_plateaus
  /\ F64._cluster_positions two_plateaus 0 = Some [0.21000000000000002; 0.21]
  /\ ~ F64.ascending [0.21000000000000002; 0.21].
Proof.
  split; [repeat constructor|]. split; [reflexivity|]. split; [reflexivity|].
  intro H. apply Sorted_inv in H. destruct H as [_ H].
  apply HdRel_inv in H. discriminate H.
Qed.

(** Two equal infinite values are not within a tolerance of each other for
    the program, their difference being NaN, and each gets a cluster of its
    own.  The values are taken to be numbers below. *)
Lemma infinite_values_split :
  F64._cluster_positions [infinity; infinity] 1 = Some [infinity; infinity]
  /\ F64.cluster_1d [infinity; infinity] 1 = [infinity].
Proof. split; reflexivity. Qed.

(** C6, amended.  On values that are numbers, with a tolerance that is not
    NaN, [_cluster_positions] returns and computes the reference greedy
    chaining [cluster_1d]: the values are sorted ascending (an ascending
    permutation of the input), a new cluster starts exactly when the next
    value is more than the tolerance away from the value accepted last, and
    each cluster gives its mean as [sum(c) / len(c)] rounds it.  An empty
    input gives an empty output.  The order of the centers is left open. *)
Theorem cluster_positions_greedy_chaining_rounded (values : list float) (tolerance : float) :
  is_nan tolerance = false ->
  Forall F64.finite values ->
  F64._cluster_positions values tolerance = Some (F64.cluster_1d values tolerance)
  /\ F64.ascending (F64.sorted values)
  /\ Permutation (F64.sorted values) values
  /\ F64._cluster_positions [] tolerance = Some [].
Proof.
  intros Ht Hf.
  split; [apply f64_cluster_positions_refines; auto|].
  split; [apply f64_sorted_ascending, Hf|].
  split; [apply f64_sorted_perm|reflexivity].
Qed.

Lemma cluster_positions_greedy_chaining_rounded_witness :
  F64._cluster_positions scattered 1 = Some (F64.cluster_1d scattered 1)
  /\ F64.cluster_1d scattered 1 = [1.25; 3]
  /\ F64.sorted scattered = [1; 1.5; 3].
Proof.
  destruct (cluster_positions_greedy_chaining_rounded scattered 1) as (H & _).
  - reflexivity.
  - repeat constructor.
  - split; [exact H|]. split; reflexivity.
Defined.

(** C7 as stated fails on the rounded means.  The mean of three values 0.1
    is 0.10000000000000002, which is within 0.3 of 0.4 although 0.1 is not;
    clustering the two centers again merges them into one. *)
Lemma cluster_positions_not_idempotent :
  F64._cluster_positions three_and_one 0.3 = Some [0.10000000000000002; 0.4]
  /\ F64._cluster_positions [0.10000000000000002; 0.4] 0.3 = Some [0.25]
  /\ F64._cluster_positions [0.10000000000000002; 0.4] 0.3
     <> Some [0.10000000000000002; 0.4].
Proof.
  split; [reflexivity|]. split; [reflexivity|].
  intro H. vm_compute in H. discriminate H.
Qed.

(** C7, amended.  Clustering again, with the same tolerance, a list of
    centers that is ascending with neighbours more than the tolerance apart
    puts every center in a cluster of its own and returns exactly the same
    list (a center [-0.0] apart, which comes back as [0.0]).  The centers
    that [_cluster_positions] returns need not be such a list. *)
Theorem reclustering_separated_centers (centers : list float) (tolerance : float) :
  F64.ascending centers ->
  F64.separated tolerance centers ->
  Forall (fun c => F64.negative_zero c = false) centers ->
  F64.position_clusters centers tolerance = Some (map (fun c => [c]) centers)
  /\ F64._cluster_positions centers tolerance = Some centers.
Proof.
  intros Ha Hs Hz.
  assert (Hcl : F64.position_clusters centers tolerance
                = Some (map (fun c => [c]) centers)).
  { unfold F64.position_clusters. rewrite (f64_sorted_of_ascending centers Ha).
    destruct centers as [|c0 rest]; [reflexivity|].
    apply (f64_cluster_loop_separated tolerance rest [] c0 Hs). }
  split; [exact Hcl|].
  rewrite f64_cluster_positions_clusters, Hcl. cbn [Py.bind].
  clear Ha Hs Hcl. induction Hz as [|c centers Hc _ IH]; [reflexivity|].
  cbn [map Py.comprehension]. rewrite (f64_mean_singleton c Hc), IH. reflexivity.
Qed.

Lemma reclustering_separated_centers_witness :
  F64._cluster_positions scattered 1 = Some [1.25; 3]
  /\ F64.position_clusters [1.25; 3] 1 = Some [[1.25]; [3]]
  /\ F64._cluster_positions [1.25; 3] 1 = Some [1.25; 3].
Proof.
  split; [reflexivity|].
  apply (reclustering_separated_centers [1.25; 3] 1); repeat constructor.
Defined.

End ClaimsBinary64.
(** ** The claim on intersection over union *)

Section ClaimIou.
Import F64Samples.
Local Open Scope float_scope.

(** C8 as stated fails in binary64 on a box that is too small or too large.
    For the square of side [2^-600] the product of the sides underflows to
    0; for the square of side [2^600] it overflows and the union is NaN.
    Both boxes have a positive width and height, and [_bbox_iou] of each with
    itself is 0, not 1. *)
Lemma bbox_iou_self_not_one :
  F64.non_degenerate tiny_box
  /\ F64._bbox_iou tiny_box tiny_box = 0
  /\ F64.non_degenerate huge_box
  /\ F64._bbox_iou huge_box huge_box = 0
  /\ F64._bbox_iou tiny_box tiny_box <> 1
  /\ F64._bbox_iou huge_box huge_box <> 1.
Proof.
  split; [split; reflexivity|]. split; [reflexivity|].
  split; [split; reflexivity|]. split; [reflexivity|].
  split; intro H; apply (f_equal (fun x => x <? 1)) in H;
    vm_compute in H; discriminate H.
Qed.

(** C8, amended.  On the rational reading [_bbox_iou a b] lies in [[0, 1]]
    and is 0 when the boxes do not overlap or one of them has a
    non-positive area.  In binary64 a box [c] has intersection over union 1
    with itself when its width and height are positive and its area, as the
    product of the two rounds it, is positive with a finite double. *)
Theorem bbox_iou_postconditions_rounded (a b : BBox) (c : F64.BBox) :
  (0 <= _bbox_iou a b <= 1)%Q
  /\ (~ overlaps a b \/ (area a <= 0)%Q \/ (area b <= 0)%Q -> (_bbox_iou a b == 0)%Q)
  /\ (F64.non_degenerate c ->
      (0 <? F64.area c) = true ->
      (F64.area c + F64.area c <? infinity) = true ->
      F64._bbox_iou c c = 1).
Proof.
  split; [apply iou_range|].
  split; [apply iou_zero|apply f64_iou_self].
Qed.

Lemma bbox_iou_postconditions_rounded_witness :
  (_bbox_iou (0, 0, 10, 10) (20, 0, 30, 10) == 0)%Q
  /\ F64._bbox_iou unit_box unit_box = 1.
Proof.
  destruct (bbox_iou_postconditions_rounded
              (0, 0, 10, 10)%Q (20, 0, 30, 10)%Q unit_box) as (_ & H0 & H1).
  split.
  - apply H0. left. intros (_ & H & _). vm_compute in H. discriminate H.
  - apply H1; [split|..]; reflexivity.
Defined.

End ClaimIou.

(** C3. The detector accepts the page's candidates in strategy order: a
    candidate is dropped exactly when its box has an intersection-over-union
    above 0.75 with a candidate accepted before it, so of two candidates
    above the threshold only the first survives and two candidates with
    intersection-over-union 0 both survive.  The composer then keeps an
    accepted candidate exactly when its grid has at least 2 rows, a longest
    row of at least 2 cells and at least 4 non-empty cells. *)
Theorem table_retention (page : Page) (cs : list Table) (c a b : Table) :
  _extract_tables_with_fallback page = accepted (candidates page)
  /\ (near_duplicate c (accepted cs) -> accepted (cs ++ [c]) = accepted cs)
  /\ (~ near_duplicate c (accepted cs) -> accepted (cs ++ [c]) = accepted cs ++ [c])
  /\ (dedup_threshold < _bbox_iou (bbox b) (bbox a) -> accepted [a; b] = [a])
  /\ (_bbox_iou (bbox b) (bbox a) == 0 -> accepted [a; b] = [a; b])
  /\ retained_tables page
     = map table_obj
         (filter (fun t => shape_kept (table_data t)) (accepted (candidates page)))
  /\ (forall t, shape_kept (table_data t) = true
                <-> (2 <= grid_rows (table_data t)
                     /\ 2 <= grid_cols (table_data t)
                     /\ 4 <= grid_non_empty (table_data t))%nat).
Proof.
  assert (Hnear : forall x found,
             near_duplicate x found ->
             duplicate (bbox x) (map bbox found) = true)
    by (intros; apply duplicate_iff; assumption).
  assert (Hfar : forall x found,
             ~ near_duplicate x found ->
             duplicate (bbox x) (map bbox found) = false).
  { intros x found H. destruct (duplicate (bbox x) (map bbox found)) eqn:E; auto.
    apply duplicate_iff in E. contradiction. }
  split; [apply extract_tables_accepted|].
  split; [intro H; rewrite accepted_snoc, (Hnear _ _ H); reflexivity|].
  split; [intro H; rewrite accepted_snoc, (Hfar _ _ H); reflexivity|].
  split.
  { intro H. change [a; b] with ([a] ++ [b]). rewrite accepted_snoc.
    change (accepted [a]) with [a]. rewrite Hnear; auto.
    constructor. exact H. }
  split.
  { intro H. change [a; b] with ([a] ++ [b]). rewrite accepted_snoc.
    change (accepted [a]) with [a]. rewrite Hfar; auto.
    intro Hn. apply Exists_cons in Hn. destruct Hn as [Hn|Hn].
    - unfold dedup_threshold in Hn. rewrite H in Hn. discriminate Hn.
    - inversion Hn. }
  split.
  { unfold retained_tables. rewrite retain_tables_filter, extract_tables_accepted.
    reflexivity. }
  intro t. unfold shape_kept. rewrite !andb_true_iff, !Nat.leb_le. tauto.
Qed.

Lemma table_retention_witness :
  accepted ([sample_table (0, 0, 10, 10)] ++ [sample_table (0, 0, 10, 9)])
  = [sample_table (0, 0, 10, 10)]
  /\ accepted ([sample_table (0, 0, 10, 10)] ++ [sample_table (20, 0, 30, 10)])
     = [sample_table (0, 0, 10, 10); sample_table (20, 0, 30, 10)]
  /\ accepted [sample_table (0, 0, 10, 10); sample_table (0, 0, 10, 9)]
     = [sample_table (0, 0, 10, 10)]
  /\ accepted [sample_table (0, 0, 10, 10); sample_table (20, 0, 30, 10)]
     = [sample_table (0, 0, 10, 10); sample_table (20, 0, 30, 10)]
  /\ (2 <= grid_rows sample_grid /\ 2 <= grid_cols sample_grid
      /\ 4 <= grid_non_empty sample_grid)%nat.
Proof.
  pose proof (table_retention sample_page [sample_table (0, 0, 10, 10)]
                (sample_table (0, 0, 10, 9))
                (sample_table (0, 0, 10, 10)) (sample_table (0, 0, 10, 9)))
    as (_ & Hdup & _ & Hfirst & _ & _ & Hshape).
  pose proof (table_retention sample_page [sample_table (0, 0, 10, 10)]
                (sample_table (20, 0, 30, 10))
                (sample_table (0, 0, 10, 10)) (sample_table (20, 0, 30, 10)))
    as (_ & _ & Hnew & _ & Hboth & _ & _).
  split.
  { apply Hdup. constructor. vm_compute. reflexivity. }
  split.
  { apply Hnew. intro H. apply Exists_cons in H. destruct H as [H|H].
    - vm_compute in H. discriminate H.
    - inversion H. }
  split.
  { apply Hfirst. vm_compute. reflexivity. }
  split.
  { apply Hboth. vm_compute. reflexivity. }
  apply (Hshape (sample_table (0, 0, 10, 10))). vm_compute. reflexivity.
Defined.

(** ** The claims on the fragment merger *)

(** C4. The merger joins the next word [w] into the word [prev] it is
    building exactly when [w.x0 - prev.x1 <= 12] and (one of the two texts has
    at most 3 characters or both are purely alphabetic).  The merged token
    [absorb prev w] takes the place of [prev] in the same left-to-right pass,
    so it can absorb further words, and has the [x1] of [w]; otherwise [prev]
    is emitted and the pass goes on from [w].  On a line's words (texts
    non-empty and free of white space at both ends, as the composer stores
    them) the merged text is the two texts concatenated, with no separator
    when both are alphabetic and one space otherwise, and it is again such a
    text.  Fragments "Jo" (0..10) and "hn" (11..20) give "John". *)
Theorem fragment_merger_rule (prev w : Span) (rest : list Span) :
  (merge_condition prev w ->
     _merge_fragmented_words (prev :: w :: rest)
     = _merge_fragmented_words (absorb prev w :: rest))
  /\ (~ merge_condition prev w ->
        _merge_fragmented_words (prev :: w :: rest)
        = option_map (cons prev) (_merge_fragmented_words (w :: rest)))
  /\ (exists out, _merge_fragmented_words (prev :: w :: rest) = Some out)
  /\ (x0 (absorb prev w) = x0 prev /\ x1 (absorb prev w) = x1 w)
  /\ (tidy (text prev) -> text prev <> ""%string ->
      tidy (text w) -> text w <> ""%string ->
      absorb prev w = joined prev w
      /\ tidy (text (joined prev w)) /\ text (joined prev w) <> ""%string)
  /\ _merge_fragmented_words [fragment_Jo; fragment_hn] = Some [word_John].
Proof.
  rewrite !merge_words_from. cbn [merge_from].
  split.
  { intro H. apply should_merge_iff in H. rewrite H. reflexivity. }
  split.
  { intro H. destruct (should_merge prev w) eqn:E.
    - apply should_merge_iff in E. contradiction.
    - reflexivity. }
  split; [eauto|].
  split; [split; reflexivity|].
  split; [|reflexivity].
  intros Hp Hpn Hw Hwn.
  pose proof (absorb_joined prev w Hp Hpn Hw Hwn) as Hj.
  split; [exact Hj|]. rewrite <- Hj. split; [apply strip_tidy|].
  rewrite Hj. cbn [joined text]. intro E.
  apply app_empty_inv in E. destruct E. contradiction.
Qed.

Lemma fragment_merger_rule_witness :
  _merge_fragmented_words [fragment_Jo; fragment_hn]
  = _merge_fragmented_words [absorb fragment_Jo fragment_hn]
  /\ absorb fragment_Jo fragment_hn = joined fragment_Jo fragment_hn
  /\ _merge_fragmented_words [word_hello; word_world]
     = option_map (cons word_hello) (_merge_fragmented_words [word_world]).
Proof.
  assert (Htidy : forall s, Py.strip s = s -> tidy s) by (intros s H; exact H).
  destruct (fragment_merger_rule fragment_Jo fragment_hn [])
    as (Hmerge & _ & _ & _ & Htext & _).
  destruct (fragment_merger_rule word_hello word_world [])
    as (_ & Hkeep & _).
  split.
  { apply Hmerge. split; [vm_compute; discriminate|]. left. cbn. lia. }
  split.
  { apply Htext; try (apply Htidy; reflexivity); discriminate. }
  apply Hkeep. intros [H _]. vm_compute in H. apply H. reflexivity.
Defined.

(** C5, as the design document states it, fails: a merged text is stripped,
    so white space at the ends of an input text is lost.  Merging " a" and
    "b" gives "a b", which no insertion of separators into " ab" produces. *)
Lemma merger_conservation_counterexample : ~ merger_conserves [padded_a; fragment_b].
Proof.
  intros (out & E & _ & H).
  vm_compute in E. injection E as <-. cbn in H.
  inversion H.
Qed.

(** C5, amended.  The merger returns at most as many tokens as it is given
    and the characters other than white space are those of the input, in
    order.  When no input text has white space at its ends, the concatenated
    output texts are the concatenated input texts with single-space
    separators inserted: every input character is kept, in order. *)
Theorem fragment_merger_conservation (ws : list Span) :
  exists out,
    _merge_fragmented_words ws = Some out
    /\ (List.length out <= List.length ws)%nat
    /\ visible (texts out) = visible (texts ws)
    /\ (Forall (fun w => tidy (text w)) ws -> separated_copy (texts out) (texts ws)).
Proof.
  destruct ws as [|w0 rest].
  - exists []. repeat split; auto. intros _. constructor.
  - exists (merge_from w0 rest). split; [apply merge_words_from|].
    split; [apply merge_from_length|].
    split; [apply visible_merge_from|].
    intro H. apply Forall_cons_iff in H. destruct H as [H0 Hrest].
    apply copy_merge_from; auto.
Qed.

Lemma fragment_merger_conservation_witness :
  exists out,
    _merge_fragmented_words [fragment_Jo; fragment_hn; word_world] = Some out
    /\ separated_copy (texts out) (texts [fragment_Jo; fragment_hn; word_world]).
Proof.
  destruct (fragment_merger_conservation [fragment_Jo; fragment_hn; word_world])
    as (out & E & _ & _ & H).
  exists out. split; [exact E|].
  apply H. repeat constructor.
Defined.

(** ** The claims on the layout composer and the grid writer *)

(** C1, as the design document states it, fails on two pages.  A token whose
    text is blank is in no line and in no table region; and two retained
    tables may overlap (their intersection over union only has to stay at or
    below 0.75), so the center of a token can lie in two regions. *)
Lemma token_partition_counterexample :
  ~ token_partition blank_token_page /\ ~ token_partition overlapping_tables_page.
Proof.
  split; intros (free & tabled & P1 & P2 & _ & _ & Ht);
    apply Permutation_length_1_inv in P1;
    apply app_eq_unit in P1; destruct P1 as [[-> ->]|[-> ->]].
  - apply Forall_inv in Ht. vm_compute in Ht. discriminate Ht.
  - apply Permutation_length in P2. vm_compute in P2. discriminate P2.
  - apply Forall_inv in Ht. vm_compute in Ht. discriminate Ht.
  - apply Permutation_length in P2. vm_compute in P2. discriminate P2.
Qed.

(** C1, amended.  The tokens of a page whose text is not blank split in two:
    those whose center lies in no retained table's region (the box with its
    1-unit margin) are the words of the lines, each in one place of exactly
    one line, and the center of each of the others lies in at least one
    retained table's region.  No token is on both sides, and the lines of the
    page are made of these words, one line per entry. *)
Theorem token_partition_visible (page : Page) :
  tokens_partitioned page (visible_tokens (get_words page)) (fun n => (1 <= n)%nat)
  /\ line_elements (page_free_words page) = Some (page_lines page).
Proof.
  split; [|apply page_lines_spec].
  set (R := page_regions page).
  exists (filter (fun w => negb (blank w) && negb (in_some_region R w)) (get_words page)),
         (filter (fun w => negb (blank w) && in_some_region R w) (get_words page)).
  destruct (page_line_groups_spec page) as [Hnd Hperm].
  split; [apply filter_split|].
  split.
  { rewrite Hperm. unfold page_free_words. fold (page_regions page). fold R.
    rewrite free_words_filter. reflexivity. }
  split; [exact Hnd|].
  split; apply Forall_forall; intros w Hin; apply filter_In in Hin;
    destruct Hin as [_ H]; apply andb_true_iff in H; destruct H as [_ H].
  - apply outside_no_region. apply negb_true_iff, H.
  - apply inside_some_region, H.
Qed.

(** C2. The page's elements after the sort are the table elements and the
    line elements, in non-decreasing order of [y]; the sort is stable, so the
    elements of any one [y] are first the tables of that [y], in detection
    order, and then the lines of that [y].  Hence a table that comes after a
    line has a strictly larger [y]. *)
Theorem elements_sorted_stable (page : Page) :
  exists elements,
    page_elements page = Some elements
    /\ line_elements (page_free_words page) = Some (page_lines page)
    /\ Permutation elements (page_tables page ++ page_lines page)
    /\ Sorted (key_le el_y) elements
    /\ Forall is_table (page_tables page)
    /\ Forall is_line (page_lines page)
    /\ (forall v, filter (has_key el_y v) elements
                  = filter (has_key el_y v) (page_tables page)
                    ++ filter (has_key el_y v) (page_lines page))
    /\ (forall pre a mid b post,
          elements = pre ++ a :: mid ++ b :: post ->
          is_line a -> is_table b -> el_y a < el_y b).
Proof.
  exists (Py.sort el_y (page_tables page ++ page_lines page)).
  pose proof (sort_sorted el_y (page_tables page ++ page_lines page)) as Hsorted.
  assert (Hstable : forall v,
             filter (has_key el_y v) (Py.sort el_y (page_tables page ++ page_lines page))
             = filter (has_key el_y v) (page_tables page)
               ++ filter (has_key el_y v) (page_lines page))
    by (intro v; rewrite sort_stable; apply filter_app).
  split; [apply page_elements_spec|].
  split; [apply page_lines_spec|].
  split; [apply sort_perm|].
  split; [exact Hsorted|].
  split; [apply page_tables_are_tables|].
  split; [apply page_lines_are_lines|].
  split; [exact Hstable|].
  intros pre a mid b post E Ha Hb.
  rewrite E in Hsorted. apply sorted_before in Hsorted.
  destruct (Qlt_le_dec (el_y a) (el_y b)) as [Hlt|Hge]; [exact Hlt|exfalso].
  assert (Hab : el_y b == el_y a) by lra.
  specialize (Hstable (el_y a)). rewrite E in Hstable.
  destruct (filter_middle (has_key el_y (el_y a)) pre mid post a b)
    as (rest & Ef & Hin).
  { apply Qeq_bool_iff. reflexivity. }
  { apply Qeq_bool_iff. exact Hab. }
  rewrite Ef in Hstable.
  assert (Hline : is_line b).
  { apply (tables_then_lines _ _ _ _ a b) with (3 := Hstable); auto.
    - apply incl_Forall with (2 := page_tables_are_tables page).
      intros x Hx. apply filter_In in Hx. tauto.
    - apply incl_Forall with (2 := page_lines_are_lines page).
      intros x Hx. apply filter_In in Hx. tauto. }
  destruct b; contradiction.
Qed.

Lemma elements_sorted_stable_witness :
  exists (elements : list Element) (line table : Element) (post : list Element),
    page_elements mixed_page = Some elements
    /\ elements = line :: table :: post
    /\ el_y line < el_y table.
Proof.
  destruct (elements_sorted_stable mixed_page)
    as (elements & E & _ & _ & _ & _ & _ & _ & H).
  exists elements.
  vm_compute in E. injection E as E. symmetry in E.
  do 3 eexists. split; [vm_compute; rewrite E; reflexivity|].
  split; [exact E|].
  apply (H [] _ [] _ _ E); exact I.
Defined.

(** C9. When the page has no retained table and no text line, its element
    list is empty and the processing writes exactly one cell, A1, with the
    "no extractable text" marker: the page is not an error. *)
Theorem empty_page_sentinel (page : Page) :
  retained_tables page = [] ->
  line_elements (page_free_words page) = Some [] ->
  page_elements page = Some [] /\ convert_page page = Some [sentinel_cell].
Proof.
  intros Ht Hl. unfold convert_page, page_elements.
  rewrite Hl, Ht. split; reflexivity.
Qed.

Lemma empty_page_sentinel_witness :
  page_elements blank_token_page = Some []
  /\ convert_page blank_token_page = Some [sentinel_cell].
Proof.
  apply (empty_page_sentinel blank_token_page); reflexivity.
Defined.

(** C10. A token whose stripped text is empty takes no part in the layout:
    the free words, the elements and the sheet of a page are those of the
    page without its blank tokens, wherever these tokens lie.  The free words
    are the tokens that are not blank and lie in no table region, so every
    word given to the line clusterer and to the merger has a non-empty text
    without white space at its ends. *)
Theorem blank_tokens_discarded (page : Page) :
  page_free_words (without_blank_tokens page) = page_free_words page
  /\ page_elements (without_blank_tokens page) = page_elements page
  /\ convert_page (without_blank_tokens page) = convert_page page
  /\ page_free_words page
     = map span_of
         (filter (fun w => negb (blank w)
                           && negb (in_some_region (page_regions page) w))
                 (get_words page))
  /\ Forall (fun s => text s <> ""%string /\ tidy (text s)) (page_free_words page).
Proof.
  assert (H : page_free_words (without_blank_tokens page) = page_free_words page)
    by apply free_words_visible.
  split; [exact H|].
  split; [unfold page_elements; rewrite H; reflexivity|].
  split; [unfold convert_page, page_elements; rewrite H; reflexivity|].
  split; [apply free_words_filter|apply free_words_texts].
Qed.

(** ** The end-to-end scenarios of the design document *)

(** Scenario A: two lines, top to bottom, and no table. *)
Example scenario_two_bands :
  page_elements two_bands_page
  = Some [ LineEl (21 # 2)
             [ {| x0 := 0; x1 := 40; y0 := 10; text := "upper" |};
               {| x0 := 100; x1 := 140; y0 := 11; text := "band" |} ];
           LineEl 500 [ {| x0 := 0; x1 := 40; y0 := 500; text := "lower" |} ] ].
Proof. vm_compute. reflexivity. Qed.

(** Scenario B: of two candidates at intersection over union 0.9 the first is
    retained. *)
Example scenario_near_duplicates :
  _bbox_iou (0, 0, 10, 9) (0, 0, 10, 10) == 9 # 10
  /\ accepted [sample_table (0, 0, 10, 10); sample_table (0, 0, 10, 9)]
     = [sample_table (0, 0, 10, 10)].
Proof. split; vm_compute; reflexivity. Qed.

(** Scenario C: one row of five cells does not pass the shape filter. *)
Example scenario_single_row :
  _table_shape_quality (table_data single_row_table) = (1, 5, 5)%nat
  /\ retain_tables [single_row_table] = [].
Proof. split; vm_compute; reflexivity. Qed.

(** A page with a table between two lines, a duplicate detection and a blank
    token: the sheet that is written. *)
Example mixed_page_sheet :
  convert_page mixed_page
  = Some [ {| row := 1; column := 1; value := Some "John"; bold := false |};
           {| row := 2; column := 1; value := Some "Name"; bold := true |};
           {| row := 2; column := 2; value := Some "Qty"; bold := true |};
           {| row := 3; column := 1; value := Some "Bolt"; bold := false |};
           {| row := 3; column := 2; value := Some "4"; bold := false |};
           {| row := 5; column := 1; value := Some "Total"; bold := false |} ]%string.
Proof. vm_compute. reflexivity. Qed.

(** ** Further properties of the geometry utilities *)

(** X1. On a non-empty list of centers [_nearest_index] returns a valid index
    whose center is at the least distance from the value, and every center
    before it is strictly farther: ties go to the lowest index. *)
Theorem nearest_index_first_minimum (value : Q) (centers : list Q) :
  centers <> [] ->
  exists c,
    nth_error centers (_nearest_index value centers) = Some c
    /\ (forall j c', nth_error centers j = Some c' ->
                     Qabs (value - c) <= Qabs (value - c'))
    /\ (forall j c', (j < _nearest_index value centers)%nat ->
                     nth_error centers j = Some c' ->
                     Qabs (value - c) < Qabs (value - c')).
Proof.
  destruct centers as [|c0 rest]; [congruence|]. intros _.
  apply (nearest_loop_spec value rest [c0] 0 (Py.abs (value - c0)) c0); auto.
  - intros [|[|j]] c H; cbn in H; try discriminate.
    injection H as <-. apply Qle_refl.
  - intros j c H. lia.
Qed.

Lemma nearest_index_first_minimum_witness :
  exists c,
    nth_error [10; 20; 30] (_nearest_index 15 [10; 20; 30]) = Some c
    /\ _nearest_index 15 [10; 20; 30] = 0%nat
    /\ Qabs (15 - c) <= Qabs (15 - 20).
Proof.
  destruct (nearest_index_first_minimum 15 [10; 20; 30]) as (c & Hc & Hmin & _);
    [discriminate|].
  exists c. split; [exact Hc|]. split; [reflexivity|].
  apply (Hmin 1%nat 20). reflexivity.
Defined.

(** X2. Intersection over union does not depend on the order of the two
    boxes. *)
Theorem bbox_iou_symmetric (a b : BBox) : _bbox_iou a b == _bbox_iou b a.
Proof. apply iou_sym. Qed.

(** X3. The clusters built by [_cluster_positions] cut the sorted values into
    consecutive non-empty runs: joined end to end they give the sorted list,
    neighbours inside a run are at most the tolerance apart, and the last
    value of a run and the first of the next are more than the tolerance
    apart. *)
Theorem clusters_partition_sorted_values (values : list Q) (tolerance : Q) :
  exists clusters,
    position_clusters values tolerance = Some clusters
    /\ List.concat clusters = Py.sorted values
    /\ Forall (fun c => c <> []) clusters
    /\ Forall (chained tolerance) clusters
    /\ gapped tolerance clusters.
Proof.
  destruct values as [|x values].
  - exists []. repeat split; constructor.
  - destruct (sorted_cases (x :: values)) as (v0 & rest & E); [discriminate|].
    exists (greedy_chain tolerance [v0] v0 rest).
    split; [apply position_clusters_chain, E|].
    split; [rewrite chain_concat, E; reflexivity|].
    split; [apply chain_nonempty; discriminate|].
    split; [apply chain_chained; [exact I|reflexivity]|].
    apply chain_gapped. reflexivity.
Qed.

(** ** Further properties of table detection *)

(** X5. No two tables that survive on a page are near-duplicates: for any two
    of the detector's tables, and so for any two retained tables, the
    intersection over union of their boxes is at most 0.75, in either
    order. *)
Theorem retained_tables_distinct (page : Page) :
  ForallOrdPairs (fun s t => distinct_boxes (bbox s) (bbox t))
                 (_extract_tables_with_fallback page)
  /\ ForallOrdPairs distinct_boxes (page_regions page).
Proof.
  assert (H : ForallOrdPairs (fun s t => distinct_boxes (bbox s) (bbox t))
                (accepted (candidates page))).
  { apply ordpairs_impl with (2 := accepted_distinct (candidates page)).
    intros s t Hst. split; [rewrite iou_sym|]; exact Hst. }
  split; [rewrite extract_tables_accepted; exact H|].
  unfold page_regions, retained_tables.
  rewrite retain_tables_filter, extract_tables_accepted, map_map.
  apply ordpairs_map. cbn [table_obj tbbox]. apply ordpairs_filter, H.
Qed.

(** X6. De-duplication is idempotent and invents nothing: the accepted
    candidates all come from the input, and de-duplicating them again
    accepts every one of them. *)
Theorem dedup_idempotent (cands : list Table) :
  accepted (accepted cands) = accepted cands /\ incl (accepted cands) cands.
Proof.
  split; [apply accepted_fixed, accepted_distinct|apply accepted_incl].
Qed.

(** X7. The shape that [_table_shape_quality] measures bounds the grid: no
    row is longer than [cols], and the non-empty cells number at most
    [rows * cols]; an empty grid measures [(0, 0, 0)]. *)
Theorem table_shape_bounds (d : Grid) :
  let '(rows, cols, non_empty) := _table_shape_quality d in
  rows = List.length d
  /\ Forall (fun r => (List.length r <= cols)%nat) d
  /\ (non_empty <= rows * cols)%nat
  /\ (d = [] -> cols = 0%nat /\ non_empty = 0%nat).
Proof.
  rewrite table_shape_quality_spec.
  split; [reflexivity|].
  split.
  { unfold grid_cols. rewrite <- (Forall_map (@List.length Cell) (fun n => (n <= _)%nat)).
    apply list_max_le. lia. }
  split.
  { unfold grid_non_empty.
    pose proof (filter_length_le cell_non_empty (List.concat d)).
    pose proof (concat_length_cols d). lia. }
  intros ->. split; reflexivity.
Qed.

Lemma table_shape_bounds_witness :
  _table_shape_quality [] = (0, 0, 0)%nat.
Proof.
  pose proof (table_shape_bounds []) as H. cbv beta iota zeta in H.
  destruct (_table_shape_quality []) as [[rows cols] non_empty].
  destruct H as (Hr & _ & _ & Hz). destruct (Hz eq_refl) as [-> ->].
  rewrite Hr. reflexivity.
Defined.

(** ** Further properties of line grouping and merging *)

(** X8. The entries of [lines_map] have distinct keys, and the entry of key
    [k] holds, in page order, exactly the free words whose nearest center has
    index [k]; it is never empty, and every free word is in the entry of its
    nearest center. *)
Theorem lines_map_groups_by_nearest_center (centers : list Q) (free_words : list Span) :
  NoDup (map fst (build_lines_map centers free_words))
  /\ (forall k ws,
        In (k, ws) (build_lines_map centers free_words) ->
        ws <> []
        /\ ws = filter (fun w => (_nearest_index (y0 w) centers =? k)%nat) free_words)
  /\ (forall w,
        In w free_words ->
        exists ws,
          In (_nearest_index (y0 w) centers, ws) (build_lines_map centers free_words)
          /\ In w ws).
Proof.
  destruct (build_lines_map_entries centers free_words) as (Hnd & Hwords & Hkeys).
  split; [exact Hnd|]. split.
  - intros k ws Hin. apply lines_map_entry, Hin.
  - intros w Hw. set (k := _nearest_index (y0 w) centers).
    assert (Hin : In w (entry_words k (build_lines_map centers free_words))).
    { rewrite Hwords. apply filter_In. split; [exact Hw|apply Nat.eqb_refl]. }
    exists (entry_words k (build_lines_map centers free_words)).
    split; [|exact Hin]. apply entry_words_found.
    intro E. rewrite E in Hin. destruct Hin.
Qed.

Lemma lines_map_groups_by_nearest_center_witness :
  exists ws,
    In (_nearest_index 11 [10; 500], ws)
       (build_lines_map [10; 500] [word_hello; fragment_Jo; word_world])
    /\ ws <> [].
Proof.
  destruct (lines_map_groups_by_nearest_center
              [10; 500] [word_hello; fragment_Jo; word_world])
    as (_ & Hentry & Hword).
  destruct (Hword fragment_Jo) as (ws & Hin & _);
    [right; left; reflexivity|].
  exists ws. split; [|apply (Hentry _ _ Hin)].
  vm_compute in Hin |- *. exact Hin.
Defined.

(** X9. The merger keeps words in left-to-right order: on words ordered by
    [x0] its result is ordered by [x0]. *)
Theorem merger_keeps_order (ws : list Span) :
  StronglySorted (key_le x0) ws ->
  exists out,
    _merge_fragmented_words ws = Some out /\ StronglySorted (key_le x0) out.
Proof.
  intro H. exists (merged_words ws).
  split; [apply merge_words_total|apply merged_words_sorted, H].
Qed.

Lemma merger_keeps_order_witness :
  exists out,
    _merge_fragmented_words [fragment_Jo; fragment_hn; word_world] = Some out
    /\ StronglySorted (key_le x0) out.
Proof.
  apply merger_keeps_order.
  repeat constructor; unfold key_le; vm_compute; discriminate.
Defined.

(** X10. Words that no neighbour can absorb are returned as they are: when no
    two neighbours meet the merge test (for instance when every gap exceeds
    12 units), the merger returns its input. *)
Theorem merger_leaves_separate_words (ws : list Span) :
  Sorted (fun p w => ~ merge_condition p w) ws ->
  _merge_fragmented_words ws = Some ws.
Proof.
  destruct ws as [|w ws]; [reflexivity|]. intro H.
  rewrite merge_words_from, (merge_from_unchanged ws w H). reflexivity.
Qed.

Lemma merger_leaves_separate_words_witness :
  _merge_fragmented_words [word_hello; word_world] = Some [word_hello; word_world].
Proof.
  apply merger_leaves_separate_words.
  repeat constructor. intros [H _]. vm_compute in H. apply H. reflexivity.
Defined.

(** X11. The merger never makes a blank or empty result out of presentable
    words: if every input text is non-empty and free of white space at its
    ends, so is every output text, and a non-empty input gives a non-empty
    output. *)
Theorem merger_keeps_words_presentable (ws : list Span) :
  Forall presentable ws ->
  exists out,
    _merge_fragmented_words ws = Some out
    /\ Forall presentable out
    /\ (ws <> [] -> out <> []).
Proof.
  intro H. exists (merged_words ws).
  split; [apply merge_words_total|].
  split; [apply merged_words_presentable, H|apply merged_words_nonempty].
Qed.

Lemma merger_keeps_words_presentable_witness :
  exists out,
    _merge_fragmented_words [fragment_Jo; fragment_hn] = Some out
    /\ Forall presentable out /\ out <> [].
Proof.
  destruct (merger_keeps_words_presentable [fragment_Jo; fragment_hn])
    as (out & E & Hp & Hne).
  - repeat constructor; discriminate.
  - exists out. split; [exact E|]. split; [exact Hp|]. apply Hne. discriminate.
Defined.

(** X12. Every line element of a page is well formed: it has at least one
    word, its words are presentable and ordered left to right, and its [y] is
    one of the page's line centers. *)
Theorem page_lines_well_formed (page : Page) :
  line_elements (page_free_words page) = Some (page_lines page)
  /\ Forall (well_formed_line (page_centers page)) (page_lines page).
Proof.
  split; [apply page_lines_spec|].
  unfold page_lines. apply Forall_map, Forall_forall. intros [k ws] Hin.
  destruct (page_line_group_facts page k ws Hin) as (Hne & Hsub & Hk).
  cbn [line_of well_formed_line fst snd].
  assert (Hsort : Py.sort x0 ws <> []).
  { intro E. apply sort_nil_inv in E. contradiction. }
  split; [apply merged_words_nonempty, Hsort|].
  split.
  { apply merged_words_presentable.
    rewrite Forall_forall. intros w Hw.
    apply (Permutation_in _ (sort_perm x0 ws)) in Hw. apply Hsub in Hw.
    pose proof (free_words_texts (page_regions page) (get_words page)) as Hall.
    rewrite Forall_forall in Hall. apply Hall, Hw. }
  split; [apply merged_words_sorted, sort_strongly_sorted|].
  apply nth_In. exact Hk.
Qed.

(** ** Further properties of the grid writer *)

(** X13. When the processing of a page returns, its sheet is not empty and
    was written in reading order: each cell comes after the one written
    before it, in a later row or further right in the same row, so no cell
    is written twice; rows and columns start at 1, and every value is one
    the worksheet accepts.  The processing fails to return only on a value
    that the worksheet refuses. *)
Theorem sheet_written_in_reading_order (refuses : string -> bool) (page : Page) :
  (forall sheet,
     page_sheet refuses page = Some sheet ->
     sheet <> []
     /\ StronglySorted cell_before sheet
     /\ NoDup (map coord sheet)
     /\ Forall (fun c => (1 <= row c)%nat /\ (1 <= column c)%nat) sheet
     /\ Forall (fun c => accepts refuses c = true) sheet)
  /\ (page_sheet refuses page = None ->
      exists cells c s,
        convert_page page = Some cells
        /\ In c cells /\ value c = Some s /\ refuses s = true).
Proof.
  unfold page_sheet, convert_page. rewrite page_elements_spec. cbn [Py.bind].
  set (elements := Py.sort el_y (page_tables page ++ page_lines page)).
  destruct (forallb (accepts refuses) (write_sheet elements)) eqn:A.
  - split; [|discriminate]. intros sheet E. injection E as <-.
    assert (Hcells : Forall has_cells elements).
    { rewrite Forall_forall. intros e He.
      pose proof (page_elements_have_cells page) as H. rewrite Forall_forall in H.
      apply H. apply (Permutation_in _ (sort_perm el_y _)), He. }
    assert (Hsorted : StronglySorted cell_before (write_sheet elements)
                      /\ Forall (fun c => (1 <= row c)%nat /\ (1 <= column c)%nat)
                                (write_sheet elements)).
    { destruct elements as [|e rest].
      - cbn. split; repeat constructor.
      - destruct (write_elements_cells (e :: rest) 1) as [Hall Hs]. auto. }
    destruct Hsorted as [Hs Hall].
    split.
    { destruct elements as [|e rest]; [discriminate|].
      apply write_elements_nonempty. apply Forall_inv in Hcells. exact Hcells. }
    split; [exact Hs|]. split; [apply cell_before_nodup, Hs|].
    split; [exact Hall|]. apply Forall_forall. apply forallb_forall. exact A.
  - split; [discriminate|]. intros _.
    assert (H : exists c, In c (write_sheet elements) /\ accepts refuses c = false).
    { clear -A. induction (write_sheet elements) as [|c l IH]; [discriminate|].
      cbn [forallb] in A. destruct (accepts refuses c) eqn:Ec.
      - destruct (IH A) as (c' & Hin & Hc'). exists c'. split; [right|]; auto.
      - exists c. split; [left|]; auto. }
    destruct H as (c & Hin & Hc). unfold accepts in Hc.
    destruct (value c) as [s|] eqn:Ev; [|discriminate].
    exists (write_sheet elements), c, s. repeat split; auto.
    apply negb_false_iff, Hc.
Qed.

Lemma sheet_written_in_reading_order_witness :
  (exists sheet, page_sheet refuses_control mixed_page = Some sheet /\ sheet <> [])
  /\ exists c s, value c = Some s /\ refuses_control s = true.
Proof.
  destruct (sheet_written_in_reading_order refuses_control mixed_page) as [H _].
  destruct (sheet_written_in_reading_order refuses_control control_page) as [_ Hnone].
  split.
  - destruct (page_sheet refuses_control mixed_page) as [sheet|] eqn:S;
      [|vm_compute in S; discriminate S].
    exists sheet. split; [reflexivity|]. apply (H sheet eq_refl).
  - destruct (Hnone eq_refl) as (cells & c & s & _ & _ & Ev & Er).
    exists c, s. auto.
Defined.

(** X14. A line is written in one row, one cell per word and in order: the
    word at index [i] goes to column [1 + i] plus the number of gaps wider
    than 80 units among the words up to it, with its text as value and no
    bold face. *)
Theorem line_cells_follow_words (spans : list Span) (row_cursor : nat) :
  List.length (write_spans row_cursor 1 spans) = List.length spans
  /\ forall i sp,
       nth_error spans i = Some sp ->
       nth_error (write_spans row_cursor 1 spans) i
       = Some {| row := row_cursor;
                 column := 1 + i + wide_gaps (firstn (S i) spans);
                 value := Some (text sp);
                 bold := false |}.
Proof.
  split; [apply write_spans_length|apply write_spans_nth].
Qed.

Lemma line_cells_follow_words_witness :
  nth_error (write_spans 3 1 [word_hello; word_world]) 1
  = Some {| row := 3; column := 3; value := Some "world"%string; bold := false |}.
Proof.
  destruct (line_cells_follow_words [word_hello; word_world] 3) as [_ H].
  apply (H 1%nat word_world). reflexivity.
Defined.

(** X15. A table is written cell for cell: the cells of [write_grid] are
    exactly the cells of the grid, the one at row [i] and position [j] of the
    grid at sheet row [row_cursor + i] and column [j + 1], with its text
    stripped, in bold exactly in the first grid row. *)
Theorem table_cells_follow_grid (d : Grid) (row_cursor : nat) (c : CellWrite) :
  In c (write_grid row_cursor 0 d)
  <-> exists i j r raw,
        nth_error d i = Some r /\ nth_error r j = Some raw
        /\ c = {| row := row_cursor + i; column := S j;
                  value := cell_value raw; bold := (i =? 0)%nat |}.
Proof. apply (write_grid_in d row_cursor 0 c). Qed.

Lemma table_cells_follow_grid_witness :
  In {| row := 6; column := 2; value := Some "4"%string; bold := false |}
     (write_grid 5 0 sample_grid).
Proof.
  apply (table_cells_follow_grid sample_grid 5).
  exists 1%nat, 1%nat, [Some "Bolt"; Some "4"]%string, (Some "4"%string).
  repeat split.
Defined.

(** X16. A table is followed by a blank row: its cells lie in the rows
    [row_cursor .. row_cursor + len(data) - 1], and whatever is written
    after it starts at row [row_cursor + max(1, len(data)) + 1]. *)
Theorem table_followed_by_blank_row
  (row_cursor : nat) (y : Q) (t : TableObj) (rest : list Element) :
  Forall (fun c =>
            (row_cursor <= row c < row_cursor + List.length (data t))%nat
            \/ (row_cursor + Nat.max 1 (List.length (data t)) + 1 <= row c)%nat)
         (write_elements row_cursor (TableEl y t :: rest)).
Proof.
  cbn [write_elements]. apply Forall_app. split.
  - destruct (write_grid_cells (data t) row_cursor 0) as [H _].
    apply Forall_impl with (2 := H). intros c [Hr _]. left. lia.
  - destruct (write_elements_cells
                rest (row_cursor + (Nat.max 1 (List.length (data t)) + 1))%nat)
      as [H _].
    apply Forall_impl with (2 := H). intros c [Hr _]. right. lia.
Qed.

(** ** Properties of page selection and splitting *)

(** X17. When [_parse_page_spec] returns, the indices are valid for the
    document and ready to use: there is at least one, each is below
    [total_pages], and they are strictly ascending, so none is repeated. *)
Theorem parse_page_spec_returns_valid_indices
  (exceeds_digit_limit : string -> bool)
  (spec : string) (total_pages : nat) (pages : list nat) :
  _parse_page_spec exceeds_digit_limit spec total_pages = Ok pages ->
  pages <> []
  /\ StronglySorted lt pages
  /\ Forall (fun i => (i < total_pages)%nat) pages.
Proof. apply parse_page_spec_valid. Qed.

Lemma parse_page_spec_returns_valid_indices_witness :
  StronglySorted lt [0; 1; 2; 3; 4]%nat
  /\ Forall (fun i => (i < 6)%nat) [0; 1; 2; 3; 4]%nat.
Proof.
  apply (parse_page_spec_returns_valid_indices
           no_digit_limit "3, 1-2 ,5-4,3"%string 6).
  vm_compute. reflexivity.
Defined.



(** X19. The two ends of a range can be given in either order: for strings
    of digits [a] and [b], the specifications "a-b" and "b-a" have the same
    outcome. *)
Theorem parse_page_spec_range_either_order
  (exceeds_digit_limit : string -> bool) (a b : string) (total_pages : nat) :
  PyStr.isdigit a = true -> PyStr.isdigit b = true ->
  _parse_page_spec exceeds_digit_limit (a ++ "-" ++ b) total_pages
  = _parse_page_spec exceeds_digit_limit (b ++ "-" ++ a) total_pages.
Proof.
  intros Ha Hb.
  destruct (range_chunk exceeds_digit_limit total_pages a b Ha Hb) as [Cab Eab].
  destruct (range_chunk exceeds_digit_limit total_pages b a Hb Ha) as [Cba Eba].
  unfold _parse_page_spec. rewrite Cab, Cba. cbn [add_chunks].
  rewrite Eab, Eba.
  destruct (int_of exceeds_digit_limit a) as [x|ea] eqn:Ea,
           (int_of exceeds_digit_limit b) as [y|eb] eqn:Eb; cbn [and_then]; auto.
  - rewrite (Nat.min_comm y x), (Nat.max_comm y x). reflexivity.
  - apply int_of_raises in Ea, Eb. subst. reflexivity.
Qed.

Lemma parse_page_spec_range_either_order_witness :
  _parse_page_spec no_digit_limit "2-5"%string 6
  = _parse_page_spec no_digit_limit "5-2"%string 6.
Proof.
  apply (parse_page_spec_range_either_order no_digit_limit "2" "5" 6); reflexivity.
Defined.

(** X20. Only the set of chunks counts: if two specifications have the same
    chunks, in any order and any number of times, and one is parsed to a list
    of indices, the other is parsed to the same list. *)
Theorem parse_page_spec_ignores_order
  (exceeds_digit_limit : string -> bool)
  (spec spec' : string) (total_pages : nat) (pages : list nat) :
  (forall chunk, In chunk (spec_chunks spec) <-> In chunk (spec_chunks spec')) ->
  _parse_page_spec exceeds_digit_limit spec total_pages = Ok pages ->
  _parse_page_spec exceeds_digit_limit spec' total_pages = Ok pages.
Proof.
  intros Hsame E. unfold _parse_page_spec in *.
  destruct (spec_chunks spec) as [|c cs] eqn:Ec; [discriminate|].
  destruct (spec_chunks spec') as [|c' cs'] eqn:Ec'.
  { destruct (proj1 (Hsame c) (or_introl eq_refl)). }
  destruct (add_chunks exceeds_digit_limit total_pages (c :: cs) []) as [s|] eqn:Es;
    cbn [and_then] in E; [|discriminate].
  injection E as <-.
  destruct (add_chunks_members _ _ _ _ _ Es) as [Hall Hmem].
  assert (Hall' : Forall (fun chunk =>
                    exists d, add_chunk exceeds_digit_limit total_pages chunk [] = Ok d)
                    (c' :: cs')).
  { rewrite Forall_forall in Hall |- *. intros x Hx. apply Hall, Hsame, Hx. }
  destruct (add_chunks_succeed _ _ _ Hall' []) as (s' & Es').
  rewrite Es'. cbn [and_then]. f_equal.
  destruct (add_chunks_members _ _ _ _ _ Es') as [_ Hmem'].
  destruct (add_chunks_valid _ _ _ _ _ Es) as [[Hnd _] _]; [split; constructor|].
  destruct (add_chunks_valid _ _ _ _ _ Es') as [[Hnd' _] _]; [split; constructor|].
  apply strictly_sorted_unique.
  - apply sorted_nodup_strict; [apply sorted_ints_sorted|].
    apply (Permutation_NoDup (Permutation_sym (sorted_ints_perm s'))), Hnd'.
  - apply sorted_nodup_strict; [apply sorted_ints_sorted|].
    apply (Permutation_NoDup (Permutation_sym (sorted_ints_perm s))), Hnd.
  - intro i.
    assert (Hs : In i (sorted_ints s) <-> In i s).
    { split; apply Permutation_in;
        [apply sorted_ints_perm|apply Permutation_sym, sorted_ints_perm]. }
    assert (Hs' : In i (sorted_ints s') <-> In i s').
    { split; apply Permutation_in;
        [apply sorted_ints_perm|apply Permutation_sym, sorted_ints_perm]. }
    rewrite Hs, Hs', Hmem, Hmem'. cbn [In].
    split; intros [[]|(x & d & Hx & Ed & Hi)]; right; exists x, d;
      (split; [apply Hsame, Hx|auto]).
Qed.

Lemma parse_page_spec_ignores_order_witness :
  _parse_page_spec no_digit_limit "1-2,3,3"%string 6 = Ok [0; 1; 2]%nat.
Proof.
  apply (parse_page_spec_ignores_order no_digit_limit "3,1-2"%string).
  - intro chunk. vm_compute. tauto.
  - vm_compute. reflexivity.
Defined.

(** X21. [/api/extract] never reads a page that does not exist: once the
    specification is parsed, every index is found in the document and the
    result holds the pages at these indices, in ascending order; when the
    parsing fails, its failure is the outcome. *)
Theorem extract_pages_reads_valid_pages
  (exceeds_digit_limit : string -> bool) (A : Type) (doc : list A) (spec : string) :
  match _parse_page_spec exceeds_digit_limit spec (List.length doc) with
  | Ok indices =>
      exists out,
        extract_pages exceeds_digit_limit doc spec = Ok out
        /\ List.length out = List.length indices
        /\ forall k i, nth_error indices k = Some i ->
                       nth_error out k = nth_error doc i
  | Raise e => extract_pages exceeds_digit_limit doc spec = Raise e
  end.
Proof.
  unfold extract_pages.
  destruct (_parse_page_spec exceeds_digit_limit spec (List.length doc))
    as [indices|e] eqn:E; cbn [and_then]; [|reflexivity].
  apply pages_at_valid. apply (parse_page_spec_valid _ _ _ _ E).
Qed.

Lemma extract_pages_reads_valid_pages_witness :
  exists out,
    extract_pages no_digit_limit ["a"; "b"; "c"; "d"]%string "4,1-2"%string = Ok out
    /\ nth_error out 2 = Some "d"%string.
Proof.
  pose proof (extract_pages_reads_valid_pages
                no_digit_limit string ["a"; "b"; "c"; "d"]%string "4,1-2"%string) as H.
  vm_compute (_parse_page_spec _ _ _) in H.
  destruct H as (out & E & _ & Hnth).
  exists out. split; [exact E|]. apply (Hnth 2%nat 3%nat). reflexivity.
Defined.

(** X22. [/api/split] refuses a chunk size below 1 with an HTTP 400.
    Otherwise it cuts the document into parts numbered from 1 that, joined in
    order, give back the document: no page is lost, repeated or moved; every
    part holds between 1 and [chunk_size] pages and all but the last hold
    exactly [chunk_size]. *)
Theorem split_pdf_partitions_document (A : Type) (doc : list A) (chunk_size : Z) :
  ((chunk_size < 1)%Z ->
   split_pdf doc chunk_size = Raise (HTTPException 400 "chunk_size doit etre >= 1"))
  /\ ((1 <= chunk_size)%Z ->
      exists parts,
        split_pdf doc chunk_size = Ok parts
        /\ List.concat (map snd parts) = doc
        /\ map fst parts = seq 1 (List.length parts)
        /\ Forall (fun p => (1 <= List.length (snd p) <= Z.to_nat chunk_size)%nat) parts
        /\ full_but_last (Z.to_nat chunk_size) parts).
Proof.
  unfold split_pdf. split; intro H.
  - destruct (Z.ltb_spec chunk_size 1); [reflexivity|lia].
  - destruct (Z.ltb_spec chunk_size 1); [lia|].
    destruct (split_parts_spec doc (Z.to_nat chunk_size) ltac:(lia)
                (List.length doc) 0 1) as (parts & E & Hcat & Hidx & Hs & Hf & _);
      [lia|lia|].
    exists parts. unfold range_step. auto.
Qed.

Lemma split_pdf_partitions_document_witness :
  split_pdf ["a"; "b"; "c"]%string 0
  = Raise (HTTPException 400 "chunk_size doit etre >= 1")
  /\ exists parts,
       split_pdf ["a"; "b"; "c"]%string 2 = Ok parts
       /\ List.concat (map snd parts) = ["a"; "b"; "c"]%string.
Proof.
  destruct (split_pdf_partitions_document string ["a"; "b"; "c"]%string 0) as [H0 _].
  destruct (split_pdf_partitions_document string ["a"; "b"; "c"]%string 2) as [_ H2].
  split; [apply H0; reflexivity|].
  destruct H2 as (parts & E & Hcat & _); [discriminate|].
  exists parts. auto.
Defined.

(** ** Properties of the finishing steps and the other helpers *)

(** X23. [_apply_visible_borders] borders exactly the bounding rectangle of
    the cells with visible text: a cell gets a border if and only if some
    such cell lies in a row at or above it, one at or below it, one in a
    column at or left of it and one at or right of it.  So every cell with
    text is bordered, and a sheet without text gets no border. *)
Theorem borders_are_bounding_rectangle (ws : Worksheet) (r c : nat) :
  (In (r, c) (_apply_visible_borders ws)
   <-> (exists r1 c1, filled ws r1 c1 /\ (r1 <= r)%nat)
       /\ (exists r2 c2, filled ws r2 c2 /\ (r <= r2)%nat)
       /\ (exists r3 c3, filled ws r3 c3 /\ (c3 <= c)%nat)
       /\ (exists r4 c4, filled ws r4 c4 /\ (c <= c4)%nat))
  /\ (filled ws r c -> In (r, c) (_apply_visible_borders ws))
  /\ ((forall r' c', ~ filled ws r' c') -> _apply_visible_borders ws = []).
Proof.
  split; [apply borders_in|]. split.
  - intro H. apply borders_in. repeat split; exists r, c; auto.
  - intro H. destruct (_apply_visible_borders ws) as [|[r' c'] rest] eqn:E; auto.
    exfalso. assert (Hin : In (r', c') (_apply_visible_borders ws))
      by (rewrite E; left; reflexivity).
    apply borders_in in Hin. destruct Hin as ((r1 & c1 & Hf & _) & _).
    exact (H r1 c1 Hf).
Qed.

Lemma borders_are_bounding_rectangle_witness :
  In (2, 3)%nat (_apply_visible_borders sample_worksheet)
  /\ In (3, 3)%nat (_apply_visible_borders sample_worksheet).
Proof.
  destruct (borders_are_bounding_rectangle sample_worksheet 2 3) as (H & _ & _).
  destruct (borders_are_bounding_rectangle sample_worksheet 3 3) as (_ & H' & _).
  assert (F22 : filled sample_worksheet 2 2) by (repeat split; cbn; lia).
  assert (F33 : filled sample_worksheet 3 3) by (repeat split; cbn; lia).
  split; [|apply H', F33].
  apply H. repeat split;
    [exists 2%nat, 2%nat|exists 3%nat, 3%nat|exists 2%nat, 2%nat|exists 3%nat, 3%nat];
    (split; [assumption|lia]).
Defined.

(** X24. When the processing of a page reaches the end, every cell of its
    sheet with visible text lies inside the border, and the page that only
    gets the marker has no border.  The border step is reached whenever the
    sheet is written: the processing stops before it only on a value that
    the worksheet refuses. *)
Theorem page_borders_cover_text (refuses : string -> bool) (page : Page) :
  (forall borders,
     page_borders refuses page = Some borders ->
     exists sheet elements,
       page_sheet refuses page = Some sheet
       /\ page_elements page = Some elements
       /\ (elements = [] -> borders = [])
       /\ (elements <> [] ->
           forall x, In x sheet ->
                     cell_non_empty (value x) = true ->
                     In (coord x) borders))
  /\ (page_borders refuses page = None -> page_sheet refuses page = None).
Proof.
  unfold page_borders, page_sheet, convert_page.
  rewrite page_elements_spec. cbn [Py.bind].
  set (elements := Py.sort el_y (page_tables page ++ page_lines page)).
  destruct (forallb (accepts refuses) (write_sheet elements)); cbn [Py.bind].
  2: { split; [discriminate|reflexivity]. }
  split.
  2: { destruct elements; discriminate. }
  intros borders E. exists (write_sheet elements), elements.
  split; [reflexivity|]. split; [reflexivity|].
  destruct elements as [|e rest].
  - injection E as <-. split; [reflexivity|congruence].
  - injection E as <-. split; [discriminate|].
    intros _ x Hx Hne. cbn [write_sheet] in *.
    destruct (write_elements_cells (e :: rest) 1) as [Hall Hs].
    apply borders_in.
    assert (Hf : filled (sheet_worksheet (write_elements 1 (e :: rest))) (row x) (column x))
      by (apply sheet_cell_filled; auto; apply cell_before_nodup, Hs).
    repeat split; exists (row x), (column x); auto.
Qed.

Lemma page_borders_cover_text_witness :
  (exists borders,
     page_borders refuses_control mixed_page = Some borders /\ In (5, 1)%nat borders)
  /\ page_sheet refuses_control control_page = None.
Proof.
  destruct (page_borders_cover_text refuses_control mixed_page) as [H _].
  destruct (page_borders_cover_text refuses_control control_page) as [_ Hnone].
  split; [|apply Hnone; reflexivity].
  destruct (page_borders refuses_control mixed_page) as [borders|] eqn:B;
    [|vm_compute in B; discriminate B].
  exists borders. split; [reflexivity|].
  destruct (H borders eq_refl) as (sheet & elements & S & E & _ & Hin).
  vm_compute in S. injection S as <-.
  vm_compute in E. injection E as <-.
  apply (Hin ltac:(discriminate)
           {| row := 5; column := 1; value := Some "Total"%string; bold := false |}).
  - repeat (try (left; reflexivity); right).
  - reflexivity.
Defined.

(** X25. The autofit loop sets a width for each of the first 60 columns of
    the sheet, never below 10 nor above 50, and wide enough for 95% of the
    length of every value of the column in the first 4000 rows, up to
    that cap of 50. *)
Theorem autofit_widths_clamped (ws : Worksheet) :
  map fst (autofit_widths ws) = seq 1 (Nat.min (ws_max_column ws) 60)
  /\ forall c w,
       In (c, w) (autofit_widths ws) ->
       10 <= w <= 50
       /\ forall r v,
            (1 <= r <= Nat.min (ws_max_row ws) 4000)%nat ->
            ws_value ws r c = Some v ->
            50 <= w \/ inject_Z (Z.of_nat (String.length v)) * (95 # 100) <= w.
Proof.
  unfold autofit_widths. split.
  - rewrite map_map. cbn [fst]. apply map_id.
  - intros c w Hin. apply in_map_iff in Hin. destruct Hin as (c' & E & _).
    injection E as -> <-. apply column_width_bounds.
Qed.

Lemma autofit_widths_clamped_witness :
  exists w, In (2%nat, w) (autofit_widths sample_worksheet) /\ 10 <= w <= 50.
Proof.
  destruct (autofit_widths_clamped sample_worksheet) as [_ H].
  exists (column_width sample_worksheet 2).
  assert (Hin : In (2%nat, column_width sample_worksheet 2)
                   (autofit_widths sample_worksheet))
    by (right; left; reflexivity).
  split; [exact Hin|]. apply (H _ _ Hin).
Defined.

(** X26. [_safe_name] gives a name fit for a file: either the fallback, or a
    non-empty name made only of letters, digits, [_], [.] and [-] that
    neither begins nor ends with [.] or [_].  With a fallback of that kind
    the result is always such a name, and a stem that is already such a name
    is returned unchanged. *)
Theorem safe_name_is_safe (path_stem : string -> string) (name fallback : string) :
  let result := _safe_name path_stem name fallback in
  (result = fallback
   \/ (result <> ""%string
       /\ Py.all_chars name_char result = true
       /\ PyStr.strip_chars dot_or_underscore result = result))
  /\ (fallback <> ""%string -> Py.all_chars name_char fallback = true ->
      result <> ""%string /\ Py.all_chars name_char result = true)
  /\ (name <> ""%string ->
      path_stem name <> ""%string ->
      Py.all_chars name_char (path_stem name) = true ->
      PyStr.strip_chars dot_or_underscore (path_stem name) = path_stem name ->
      result = path_stem name).
Proof.
  cbv zeta. unfold _safe_name.
  set (base := if String.eqb name "" then fallback else path_stem name).
  set (cleaned := PyStr.strip_chars dot_or_underscore (sub_runs false base)).
  assert (Hchars : Py.all_chars name_char cleaned = true).
  { unfold cleaned, PyStr.strip_chars.
    apply all_chars_rstrip_chars, all_chars_lstrip_chars, sub_runs_chars. }
  assert (Hidem : PyStr.strip_chars dot_or_underscore cleaned = cleaned)
    by apply strip_chars_idem.
  split; [|split].
  - destruct (String.eqb_spec cleaned ""); [left; reflexivity|right; auto].
  - intros Hf Hfc. destruct (String.eqb_spec cleaned ""); auto.
  - intros Hn Hs Hc Hstrip.
    assert (Hbase : base = path_stem name).
    { unfold base. destruct (String.eqb_spec name ""); [contradiction|reflexivity]. }
    assert (Hcl : cleaned = path_stem name).
    { unfold cleaned. rewrite Hbase, (sub_runs_clean _ Hc). exact Hstrip. }
    rewrite Hcl. destruct (String.eqb_spec (path_stem name) ""); [contradiction|reflexivity].
Qed.

Lemma safe_name_is_safe_witness :
  _safe_name plain_stem "my report (final)"%string "file"%string
  = "my_report_final"%string
  /\ _safe_name plain_stem "scan-01_v2"%string "file"%string = "scan-01_v2"%string
  /\ _safe_name plain_stem "???"%string "file"%string <> ""%string.
Proof.
  pose proof (safe_name_is_safe plain_stem "scan-01_v2"%string "file"%string)
    as (_ & _ & H). cbv zeta in H.
  pose proof (safe_name_is_safe plain_stem "???"%string "file"%string)
    as (_ & H' & _). cbv zeta in H'.
  split; [reflexivity|]. split.
  - apply H; (discriminate || reflexivity).
  - apply H'; (discriminate || reflexivity).
Defined.

(** X27. [/api/remove-blank] refuses a negative threshold, never returns an
    empty document (it refuses with an HTTP 400 when every page is blank) and
    keeps the pages that are not blank in their order.  A page is blank
    exactly when the test finds no text, annotation or image on it and its
    content streams are within the threshold; what the test finds is what
    the calls return, a text extraction or an image listing that raises
    counts for nothing.  So a page on which the test finds something is never
    dropped, and a page blank at one threshold is blank at every larger
    one. *)
Theorem remove_blank_pages_keeps_content (doc : list PdfPage) (content_threshold : Z) :
  ((content_threshold < 0)%Z ->
   remove_blank_pages doc content_threshold
   = Raise (HTTPException 400 "content_threshold doit etre >= 0."))
  /\ (forall kept,
        remove_blank_pages doc content_threshold = Ok kept ->
        kept <> []
        /\ kept = filter (fun page => negb (_is_blank_page page content_threshold)) doc
        /\ forall page, In page doc -> detected_content page -> In page kept)
  /\ (forall page,
        _is_blank_page page content_threshold = true
        <-> ~ detected_content page
            /\ (Z.of_nat (_page_content_size page) <= content_threshold)%Z)
  /\ (forall page t',
        (content_threshold <= t')%Z ->
        _is_blank_page page content_threshold = true ->
        _is_blank_page page t' = true).
Proof.
  unfold remove_blank_pages. split; [|split; [|split]].
  - intro H. destruct (Z.ltb_spec content_threshold 0); [reflexivity|lia].
  - intros kept E. destruct (content_threshold <? 0)%Z; [discriminate|].
    set (k := filter _ doc) in *.
    destruct (Nat.eqb_spec (List.length k) 0); [discriminate|].
    injection E as <-. split; [destruct k; [contradiction|discriminate]|].
    split; [reflexivity|].
    intros page Hin Hv. apply filter_In. split; [exact Hin|].
    rewrite (visible_page_not_blank page _ Hv). reflexivity.
  - intro page. apply blank_page_iff.
  - intros page t'. apply blank_page_monotone.
Qed.

Lemma remove_blank_pages_keeps_content_witness :
  remove_blank_pages [empty_pdf_page; text_page] (-1)
  = Raise (HTTPException 400 "content_threshold doit etre >= 0.")
  /\ In text_page [text_page]
  /\ _is_blank_page unreadable_page 80 = true
  /\ _is_blank_page empty_pdf_page 100 = true.
Proof.
  destruct (remove_blank_pages_keeps_content [empty_pdf_page; text_page] (-1))
    as (Hneg & _ & _).
  destruct (remove_blank_pages_keeps_content [empty_pdf_page; text_page] 80)
    as (_ & Hkept & Hblank & Hmono).
  split; [apply Hneg; reflexivity|]. split; [|split].
  - destruct (Hkept [text_page] eq_refl) as (_ & _ & H).
    apply (H text_page); [right; left; reflexivity|].
    right. right. exists "Total"%string. split; [reflexivity|discriminate].
  - apply Hblank. split; [|vm_compute; discriminate].
    intros [H|[(n & H & _)|(t & H & _)]]; discriminate H.
  - apply (Hmono empty_pdf_page 100%Z); [discriminate|reflexivity].
Defined.
